(** * PdfForQt: document reader and standard security handler

    A shallow embedding of [pdfdocumentreader.cpp] and
    [pdfsecurityhandler.cpp], and the properties of the loader that the
    design document states about them.

    Conventions.  A [QByteArray] and a [std::vector<uint8_t>] are lists of
    bytes; [int] and [PDFInteger] values are integers of [Z]; a
    [PDFParserException] is the [Throw] case of [Result]; member variables
    that a method mutates are threaded through explicitly.  The OpenSSL
    primitives, the lexical analyzer, the parser, the cross-reference reader
    and the stream filters are collaborators of the two files and appear as
    interfaces. *)

From Stdlib Require Import ZArith Lia.
From Stdlib.Strings Require Import Byte String.
From stdpp Require Import base option list gmap strings.

Local Open Scope Z_scope.

(** ** Bytes and byte arrays *)

Abbreviation uint8_t := byte.
Abbreviation QByteArray := (list byte).

Definition u8 (b : uint8_t) : Z := Z.of_N (Byte.to_N b).

Definition of_u8 (z : Z) : uint8_t :=
  match Byte.of_N (Z.to_N (z mod 256)) with
  | Some b => b
  | None => x00
  end.

Definition xor8 (a b : uint8_t) : uint8_t := of_u8 (Z.lxor (u8 a) (u8 b)).

(** Unsigned big-endian integer held by a run of bytes. *)
Definition bigEndian (bytes : QByteArray) : Z :=
  foldl (fun n b => n * 256 + u8 b) 0 bytes.

(** Four bytes of a [uint32_t], least significant first. *)
Definition littleEndian32 (v : Z) : QByteArray :=
  [of_u8 v; of_u8 (Z.shiftr v 8); of_u8 (Z.shiftr v 16); of_u8 (Z.shiftr v 24)].

(** ** Exceptions *)

Inductive Message :=
  | MsgEndOfFileNotFound
  | MsgStartXRefNotFound
  | MsgHeaderNotFound
  | MsgInvalidVersion
  | MsgInvalidTrailer
  | MsgCantReadObject (offset : Z)
  | MsgAuthorizationFailed
  | MsgObjectStreamNotFound (objectNumber : Z)
  | MsgObjectStreamInvalid (objectNumber : Z)
  | MsgInvalidEncryptionDictionary
  | MsgNameExpected (key : string)
  | MsgIntegerExpected (key : string)
  | MsgUnknownSecurityHandler
  | MsgUnsupportedEncryptionVersion (V : Z)
  | MsgCryptFilterNotDictionary
  | MsgUnsupportedAlgorithm (name : string)
  | MsgUnsupportedAuthEvent (name : string)
  | MsgUnknownCryptFilter (name : string)
  | MsgUnsupportedRevision (R : Z)
  | MsgWrongStringLength (size : Z) (key : string) (provided : Z)
  | MsgStringExpected (size : Z) (key : string)
  | MsgKeyLengthExceeded (keyByteLength : Z)
  | MsgCollaborator (text : string).

Inductive Result (A : Type) :=
  | Ok (a : A)
  | Throw (m : Message).
Arguments Ok {A} a.
Arguments Throw {A} m.

#[global] Instance Result_ret : MRet Result := fun A a => Ok a.
#[global] Instance Result_bind : MBind Result := fun A B k r =>
  match r with
  | Ok a => k a
  | Throw m => Throw m
  end.

#[global] Instance Result_fmap : FMap Result := fun A B f r =>
  match r with
  | Ok a => Ok (f a)
  | Throw m => Throw m
  end.

(** ** OpenSSL *)

(** The digests and ciphers of [<openssl/...>].  [RC4 key data] is
    [RC4_set_key] followed by one [RC4] call; the two AES functions are
    [AES_set_encrypt_key]/[AES_set_decrypt_key] followed by
    [AES_cbc_encrypt] with the given initialization vector. *)
Class OpenSSL := {
  MD5 : QByteArray -> QByteArray;
  SHA256 : QByteArray -> QByteArray;
  SHA384 : QByteArray -> QByteArray;
  SHA512 : QByteArray -> QByteArray;
  RC4 : QByteArray -> QByteArray -> QByteArray;
  AES_cbc_encrypt : QByteArray -> QByteArray -> QByteArray -> QByteArray;
  AES_cbc_decrypt : QByteArray -> QByteArray -> QByteArray -> QByteArray
}.

(** Output sizes of the primitives. *)
Class OpenSSLSizes `{ossl : OpenSSL} : Prop := {
  MD5_DIGEST_LENGTH : forall m, length (MD5 m) = 16%nat;
  SHA256_DIGEST_LENGTH : forall m, length (SHA256 m) = 32%nat;
  SHA384_DIGEST_LENGTH : forall m, length (SHA384 m) = 48%nat;
  SHA512_DIGEST_LENGTH : forall m, length (SHA512 m) = 64%nat;
  RC4_length : forall key m, length (RC4 key m) = length m
}.

(** [AES_cbc_encrypt] for a whole number of blocks writes as many bytes as
    it reads. *)
Class AESBlocks `{ossl : OpenSSL} : Prop :=
  AES_cbc_encrypt_length :
    forall key iv data : QByteArray,
      Nat.divide 16 (length data) ->
      length (AES_cbc_encrypt key iv data) = length data.

(** ** Revision 6 hash: [createHash_r6] *)

Section Hash_r6.
Context `{ossl : OpenSSL}.

(** The inner loop over the eight bits of one byte of [E]. *)
Definition accumulateByte (byte : uint8_t) (remainderAccumulator : Z) : Z :=
  fst (foldl (fun '(acc, currentRemainder) i =>
                (if negb (Z.land (Z.shiftr (u8 byte) (Z.of_nat i)) 1 =? 0)
                 then acc + currentRemainder else acc,
                 3 - currentRemainder))
             (remainderAccumulator, 1) (seq 0 8)).

(** Step c): the loop over [E[0] .. E[15]] and the final [% 3]. *)
Definition remainderModulo3 (E : QByteArray) : Z :=
  Z.rem (foldl (fun acc i => accumulateByte (nth i E x00) acc) 0 (seq 0 16)) 3.

(** One pass of the [while] body: steps a) to d).  Returns the new [K]
    and the buffer [E] of this round. *)
Definition hashRound_r6 (password userKey K : QByteArray) : QByteArray * QByteArray :=
  let K1 := mjoin (replicate 64 (password ++ K ++ userKey)) in
  let E := AES_cbc_encrypt (take 16 K) (take 16 (drop 16 K)) K1 in
  let K' :=
    match remainderModulo3 E with
    | 0 => SHA256 E
    | 1 => SHA384 E
    | 2 => SHA512 E
    | _ => K
    end in
  (K', E).

(** [round < 64 || round < E.back() + 32] *)
Definition continue_r6 (round : Z) (E : QByteArray) : bool :=
  (round <? 64) || (round <? u8 (List.last E x00) + 32).

Fixpoint hashLoop_r6 (fuel : nat) (password userKey : QByteArray)
    (round : Z) (K E : QByteArray) : Z * QByteArray * QByteArray :=
  if continue_r6 round E then
    match fuel with
    | O => (round, K, E)
    | S fuel' =>
        let '(K', E') := hashRound_r6 password userKey K in
        hashLoop_r6 fuel' password userKey (round + 1) K' E'
    end
  else (round, K, E).

(** Bound on the number of passes of the loop; the termination theorem
    below shows that the loop always leaves through its own test. *)
Definition roundLimit_r6 : nat := 287.

Definition createHash_r6 (m_U input inputPassword : QByteArray) (useUserKey : bool)
    : QByteArray :=
  let K := SHA256 input in
  let userKey := if useUserKey then m_U else [] in
  let '(_, K, _) := hashLoop_r6 roundLimit_r6 inputPassword userKey 0 K [] in
  take 32 K.

(** The loop seen from outside: state after [n] passes. *)
Fixpoint stateAfter_r6 (n : nat) (password userKey K0 : QByteArray)
    : QByteArray * QByteArray :=
  match n with
  | O => (K0, [])
  | S n' => hashRound_r6 password userKey (fst (stateAfter_r6 n' password userKey K0))
  end.
End Hash_r6.

(** ** Objects *)

#[global] Instance byte_eq_decision : EqDecision byte := Byte.byte_eq_dec.

Record PDFObjectReference := {
  objectNumber : Z;
  generation : Z
}.

#[global] Instance PDFObjectReference_eq_decision : EqDecision PDFObjectReference.
Proof. solve_decision. Defined.

(** Modelled from the spec: [pdfobject.h] is not among the sources.  The
    data model gives the ten kinds of object; a dictionary keeps its entries
    in the order of the file and [get] answers the null object for a key
    that is absent. *)
#[warnings="-register-all"]
Inductive PDFObject :=
  | PDFNull
  | PDFBool (b : bool)
  | PDFInt (i : Z)
  | PDFReal (bits : Z)
  | PDFString (s : QByteArray)
  | PDFName (n : string)
  | PDFArray (items : list PDFObject)
  | PDFDictionaryObject (entries : list (string * PDFObject))
  | PDFStreamObject (entries : list (string * PDFObject)) (content : QByteArray)
  | PDFReferenceObject (r : PDFObjectReference).

Abbreviation PDFDictionary := (list (string * PDFObject)).

Definition isNull (o : PDFObject) : bool := match o with PDFNull => true | _ => false end.
Definition isBool (o : PDFObject) : bool := match o with PDFBool _ => true | _ => false end.
Definition isInt (o : PDFObject) : bool := match o with PDFInt _ => true | _ => false end.
Definition isName (o : PDFObject) : bool := match o with PDFName _ => true | _ => false end.
Definition isString (o : PDFObject) : bool := match o with PDFString _ => true | _ => false end.
Definition isStream (o : PDFObject) : bool := match o with PDFStreamObject _ _ => true | _ => false end.

Definition getInteger (o : PDFObject) : Z := match o with PDFInt i => i | _ => 0 end.

(** Modelled from the spec: [PDFDictionary::get] and [hasKey], for a
    dictionary with unique keys. *)
Fixpoint findKey (key : string) (d : PDFDictionary) : option PDFObject :=
  match d with
  | [] => None
  | (k, v) :: rest => if String.eqb k key then Some v else findKey key rest
  end.

Definition get (d : PDFDictionary) (key : string) : PDFObject :=
  default PDFNull (findKey key d).

Definition hasKey (d : PDFDictionary) (key : string) : bool :=
  match findKey key d with Some _ => true | None => false end.

(** Conversions between the integer types of the source. *)
Definition toInt (z : Z) : Z := (z + 2 ^ 31) mod 2 ^ 32 - 2 ^ 31.
Definition toUInt32 (z : Z) : Z := z mod 2 ^ 32.

(** ** Standard security handler: data *)

Inductive CryptFilterType := FilterNone | FilterIdentity | FilterV2 | FilterAESV2 | FilterAESV3.
Inductive AuthEvent := DocOpen | EFOpen.

Record CryptFilter := {
  type : CryptFilterType;
  authEvent : AuthEvent
}.

Inductive AuthorizationResult := UserAuthorized | OwnerAuthorized | Failed | Cancelled.

#[global] Instance AuthorizationResult_eq_decision : EqDecision AuthorizationResult.
Proof. solve_decision. Defined.

Record AuthorizationData := {
  authorizationResult : AuthorizationResult;
  fileEncryptionKey : QByteArray
}.

(** Modelled from the spec: [pdfsecurityhandler.h] is not among the sources.
    An authorization result carries a key only when authorized; cleared
    data is not authorized. *)
Definition AuthorizationData_default : AuthorizationData :=
  {| authorizationResult := Failed; fileEncryptionKey := [] |}.

(** Modelled from the spec: [isAuthorized] is declared in the same header;
    the two authorized outcomes are [UserAuthorized] and [OwnerAuthorized]. *)
Definition isAuthorized (d : AuthorizationData) : bool :=
  match authorizationResult d with
  | UserAuthorized | OwnerAuthorized => true
  | _ => false
  end.

Record PDFStandardSecurityHandler := {
  m_V : Z;
  m_keyLength : Z;
  m_R : Z;
  m_O : QByteArray;
  m_U : QByteArray;
  m_OE : QByteArray;
  m_UE : QByteArray;
  m_Perms : QByteArray;
  m_permissions : Z;
  m_encryptMetadata : bool;
  m_ID : QByteArray;
  m_cryptFilters : gmap string CryptFilter;
  m_filterStreams : CryptFilter;
  m_filterStrings : CryptFilter;
  m_filterEmbeddedFiles : CryptFilter
}.

Inductive PDFSecurityHandler :=
  | PDFNoneSecurityHandler
  | PDFStandardSecurityHandlerPointer (handler : PDFStandardSecurityHandler).

(** Member initializers of the header, which is not among the sources: the
    state of a default-constructed [CryptFilter] and of a default-constructed
    handler. *)
Class HandlerDefaults := {
  CryptFilter_default : CryptFilter;
  PDFStandardSecurityHandler_default : PDFStandardSecurityHandler
}.

Definition PDFPasswordPadding : QByteArray :=
  [x28; xbf; x4e; x5e; x4e; x75; x8a; x41;
   x64; x00; x4e; x56; xff; xfa; x01; x08;
   x2e; x2e; x00; xb6; xd0; x68; x3e; x80;
   x2f; x0c; xa9; xfe; x64; x53; x69; x7a].

(** ** [createSecurityHandler] *)

Section CreateSecurityHandler.
Context `{defaults : HandlerDefaults}.

Definition getName (dictionary : PDFDictionary) (key : string) (required : bool)
    (defaultValue : option string) : Result string :=
  match get dictionary key with
  | PDFNull => Ok (default EmptyString defaultValue)
  | PDFName n => Ok n
  | _ => if required then Throw (MsgNameExpected key)
         else Ok (default EmptyString defaultValue)
  end.

Definition getInt (dictionary : PDFDictionary) (key : string) (required : bool)
    (defaultValue : Z) : Result Z :=
  match get dictionary key with
  | PDFInt i => Ok i
  | _ => if required then Throw (MsgIntegerExpected key) else Ok defaultValue
  end.

Definition parseCryptFilter (object : PDFObject) : Result CryptFilter :=
  match object with
  | PDFDictionaryObject cryptFilterDictionary =>
      CFMName ← getName cryptFilterDictionary "CFM" false (Some "None"%string);
      filterType ←
        (if String.eqb CFMName "None" then Ok FilterNone
         else if String.eqb CFMName "V2" then Ok FilterV2
         else if String.eqb CFMName "AESV2" then Ok FilterAESV2
         else if String.eqb CFMName "AESV3" then Ok FilterAESV3
         else Throw (MsgUnsupportedAlgorithm CFMName));
      authEventName ← getName cryptFilterDictionary "AuthEvent" false (Some "DocOpen"%string);
      event ←
        (if String.eqb authEventName "DocOpen" then Ok DocOpen
         else if String.eqb authEventName "EFOpen" then Ok EFOpen
         else Throw (MsgUnsupportedAuthEvent authEventName));
      Ok {| type := filterType; authEvent := event |}
  | _ => Throw MsgCryptFilterNotDictionary
  end.

(** The loop over the entries of [CF], in file order. *)
Fixpoint parseCryptFilters (cryptFilters : PDFDictionary)
    (filters : gmap string CryptFilter) : Result (gmap string CryptFilter) :=
  match cryptFilters with
  | [] => Ok filters
  | (key, value) :: rest =>
      filter ← parseCryptFilter value;
      parseCryptFilters rest (<[key := filter]> filters)
  end.

Definition resolveFilter (filters : gmap string CryptFilter) (name : string)
    : Result CryptFilter :=
  match filters !! name with
  | Some filter => Ok filter
  | None => Throw (MsgUnknownCryptFilter name)
  end.

Definition readByteArray (dictionary : PDFDictionary) (key : string) (size : Z)
    : Result QByteArray :=
  match get dictionary key with
  | PDFString result =>
      if bool_decide (Z.of_nat (length result) = size) then Ok result
      else Throw (MsgWrongStringLength size key (Z.of_nat (length result)))
  | _ => Throw (MsgStringExpected size key)
  end.

(** The filter table before [CF] is read: only ["Identity"]. *)
Definition identityFilters : gmap string CryptFilter :=
  <["Identity"%string :=
      {| type := FilterIdentity; authEvent := authEvent CryptFilter_default |}]>
    (m_cryptFilters PDFStandardSecurityHandler_default).

(** The entry [CF], when it is a dictionary, adds its filters. *)
Definition readCryptFilters (dictionary : PDFDictionary)
    (filters : gmap string CryptFilter) : Result (gmap string CryptFilter) :=
  match get dictionary "CF" with
  | PDFDictionaryObject cryptFilters => parseCryptFilters cryptFilters filters
  | _ => Ok filters
  end.

Definition createSecurityHandler (encryptionDictionaryObject : PDFObject)
    (id : QByteArray) : Result PDFSecurityHandler :=
  match encryptionDictionaryObject with
  | PDFNull => Ok PDFNoneSecurityHandler
  | PDFDictionaryObject dictionary =>
      filterName ← getName dictionary "Filter" true None;
      if negb (String.eqb filterName "Standard") then Throw MsgUnknownSecurityHandler else
      V ← toInt <$> getInt dictionary "V" true (-1);
      if (V <? 1) || (V >? 5) then Throw (MsgUnsupportedEncryptionVersion V) else
      Length ←
        (if V =? 1 then Ok 40
         else if (V =? 2) || (V =? 3) then toInt <$> getInt dictionary "Length" false 40
         else if V =? 4 then Ok 128
         else Ok 256);
      let filters0 := identityFilters in
      '(filters, filterStreams, filterStrings, filterEmbeddedFiles) ←
        (if (V =? 4) || (V =? 5) then
           filters ← readCryptFilters dictionary filters0;
           StmF ← getName dictionary "StmF" false (Some "Identity"%string);
           filterStreams ← resolveFilter filters StmF;
           StrF ← getName dictionary "StrF" false (Some "Identity"%string);
           filterStrings ← resolveFilter filters StrF;
           filterEmbeddedFiles ←
             (if hasKey dictionary "EFF" then
                EFF ← getName dictionary "EFF" true None;
                resolveFilter filters EFF
              else Ok filterStreams);
           Ok (filters, filterStreams, filterStrings, filterEmbeddedFiles)
         else
           Ok (filters0,
               m_filterStreams PDFStandardSecurityHandler_default,
               m_filterStrings PDFStandardSecurityHandler_default,
               m_filterEmbeddedFiles PDFStandardSecurityHandler_default));
      R ← toInt <$> getInt dictionary "R" true (-1);
      if (R <? 2) || (R >? 6) || (R =? 5) then Throw (MsgUnsupportedRevision R) else
      O ← readByteArray dictionary "O" (if negb (R =? 6) then 32 else 48);
      U ← readByteArray dictionary "U" (if negb (R =? 6) then 32 else 48);
      P ← getInt dictionary "P" true (-1);
      '(OE, UE, Perms) ←
        (if R =? 6 then
           OE ← readByteArray dictionary "OE" 32;
           UE ← readByteArray dictionary "UE" 32;
           Perms ← readByteArray dictionary "Perms" 16;
           Ok (OE, UE, Perms)
         else
           Ok (m_OE PDFStandardSecurityHandler_default,
               m_UE PDFStandardSecurityHandler_default,
               m_Perms PDFStandardSecurityHandler_default));
      let encryptMetadata :=
        match get dictionary "EncryptMetadata" with
        | PDFBool b => b
        | _ => m_encryptMetadata PDFStandardSecurityHandler_default
        end in
      Ok (PDFStandardSecurityHandlerPointer
            {| m_V := V; m_keyLength := Length; m_R := R;
               m_O := O; m_U := U; m_OE := OE; m_UE := UE; m_Perms := Perms;
               m_permissions := toUInt32 (toInt P);
               m_encryptMetadata := encryptMetadata;
               m_ID := id;
               m_cryptFilters := filters;
               m_filterStreams := filterStreams;
               m_filterStrings := filterStrings;
               m_filterEmbeddedFiles := filterEmbeddedFiles |})
  | _ => Throw MsgInvalidEncryptionDictionary
  end.
End CreateSecurityHandler.

(** ** Key derivation and authentication *)

Record UserOwnerData_r6 := {
  hash : QByteArray;
  validationSalt : QByteArray;
  keySalt : QByteArray
}.

(** [QByteArray::left] and [QByteArray::mid]. *)
Definition left (n : nat) (data : QByteArray) : QByteArray := take n data.
Definition mid (pos len : nat) (data : QByteArray) : QByteArray := take len (drop pos data).

Definition parseParts (data : QByteArray) : UserOwnerData_r6 :=
  {| hash := left 32 data;
     validationSalt := mid 32 8 data;
     keySalt := mid 40 8 data |}.

Definition createPaddedPassword32 (password : QByteArray) : QByteArray :=
  let copiedBytes := Nat.min 32 (length password) in
  take copiedBytes password ++ take (32 - copiedBytes) PDFPasswordPadding.

(** [transformedKey[j] = key[j] ^ i] for every [j]. *)
Definition xorKey (key : QByteArray) (i : Z) : QByteArray :=
  map (fun b => xor8 b (of_u8 i)) key.

(** What one pass of the switch in the loop of [authenticate] ends with. *)
Inductive Attempt :=
  | Return (r : AuthorizationResult) (data : AuthorizationData)
  | Break (data : AuthorizationData).

Section StandardSecurityHandler.
Context `{ossl : OpenSSL}.
Variable h : PDFStandardSecurityHandler.

(** [m_keyLength / 8], the division of C++ on [int].  [createSecurityHandler]
    accepts a negative [Length] for [V] 2 and 3; the source then passes a
    negative [keyByteLength] as the size of [MD5_Update], [RC4_set_key]
    and [resize], where what it does is not defined.  The definitions
    below take no bytes of the key in that case, and the properties that
    speak of the bytes of a key assume a key length that is not
    negative. *)
Definition keyByteLength : Z := Z.quot (m_keyLength h) 8.

(** The loop [for (i = 0; i < 50; ++i)] that digests the first
    [keyByteLength] bytes of the 16-byte array back into the array. *)
Definition rehash50 (digest : QByteArray) : QByteArray :=
  Nat.iter 50 (fun key => MD5 (take (Z.to_nat keyByteLength) key)) digest.

Definition createFileEncryptionKey (password : QByteArray) : Result QByteArray :=
  if bool_decide (m_R h = 2 \/ m_R h = 3 \/ m_R h = 4) then
    let paddedPassword := createPaddedPassword32 password in
    let transformedPermissions := littleEndian32 (m_permissions h) in
    let fileEncryptionKey :=
      MD5 (paddedPassword ++ m_O h ++ transformedPermissions ++ m_ID h
           ++ (if negb (m_encryptMetadata h) then littleEndian32 4294967295 else [])) in
    if keyByteLength >? 16 then Throw (MsgKeyLengthExceeded keyByteLength) else
    let fileEncryptionKey :=
      if m_R h >=? 3 then rehash50 fileEncryptionKey else fileEncryptionKey in
    Ok (take (Z.to_nat keyByteLength) fileEncryptionKey)
  else if m_R h =? 6 then Ok []
  else Throw (MsgUnsupportedRevision (m_R h)).

(** The 19 passes [i = 1 .. 19] of [createEntryValueU_r234]. *)
Definition encryptPasses_U (fileEncryptionKey encryptedHash : QByteArray) : QByteArray :=
  foldl (fun encryptedHash i => RC4 (xorKey fileEncryptionKey (Z.of_nat i)) encryptedHash)
        encryptedHash (seq 1 19).

Definition createEntryValueU_r234 (fileEncryptionKey : QByteArray) : Result QByteArray :=
  if m_R h =? 2 then Ok (RC4 fileEncryptionKey PDFPasswordPadding)
  else if (m_R h =? 3) || (m_R h =? 4) then
    let hash := MD5 (PDFPasswordPadding ++ m_ID h) in
    let encryptedHash := RC4 fileEncryptionKey hash in
    let encryptedHash := encryptPasses_U fileEncryptionKey encryptedHash in
    Ok (encryptedHash ++ drop 16 (m_U h))
  else Throw (MsgUnsupportedRevision (m_R h)).

(** The 20 passes [i = 19 .. 0] of [createUserPasswordFromOwnerPassword]. *)
Definition decryptPasses_O (hash buffer : QByteArray) : QByteArray :=
  foldl (fun buffer i =>
           RC4 (xorKey (take (Z.to_nat keyByteLength) hash) (Z.of_nat i)) buffer)
        buffer (rev (seq 0 20)).

Definition createUserPasswordFromOwnerPassword (password : QByteArray) : Result QByteArray :=
  let paddedPassword := createPaddedPassword32 password in
  let hash := MD5 paddedPassword in
  if keyByteLength >? 16 then Throw (MsgKeyLengthExceeded keyByteLength) else
  let hash := if m_R h >=? 3 then rehash50 hash else hash in
  if m_R h =? 2 then Ok (RC4 (take (Z.to_nat keyByteLength) hash) (m_O h))
  else if (m_R h =? 3) || (m_R h =? 4) then Ok (decryptPasses_O hash (m_O h))
  else Throw (MsgUnsupportedRevision (m_R h)).

Definition aesInitializationVector : QByteArray := replicate 16 x00.

(** The body of [case 2: case 3: case 4:]. *)
Definition attempt_r234 (data : AuthorizationData) (password : QByteArray)
    : Result Attempt :=
  userPassword ← createUserPasswordFromOwnerPassword password;
  fileEncryptionKey ← createFileEncryptionKey userPassword;
  U ← createEntryValueU_r234 fileEncryptionKey;
  if bool_decide (U = m_U h) then
    Ok (Return OwnerAuthorized
          {| authorizationResult := OwnerAuthorized; fileEncryptionKey := fileEncryptionKey |})
  else
    fileEncryptionKey ← createFileEncryptionKey password;
    U ← createEntryValueU_r234 fileEncryptionKey;
    if bool_decide (U = m_U h) then
      Ok (Return UserAuthorized
            {| authorizationResult := UserAuthorized; fileEncryptionKey := fileEncryptionKey |})
    else Ok (Break data).

(** The body of [case 6:], on the authorization data [data] of the handler. *)
Definition attempt_r6 (data : AuthorizationData) (password : QByteArray) : Attempt :=
  let userData := parseParts (m_U h) in
  let ownerData := parseParts (m_O h) in
  let data :=
    let inputData := password ++ validationSalt ownerData ++ m_U h in
    let hash' := createHash_r6 (m_U h) inputData password true in
    if bool_decide (hash' = hash ownerData) then
      let fileEncryptionKeyInputData := password ++ keySalt ownerData ++ m_U h in
      let fileEncryptionDecryptionKey :=
        createHash_r6 (m_U h) fileEncryptionKeyInputData password true in
      {| authorizationResult := OwnerAuthorized;
         fileEncryptionKey :=
           AES_cbc_decrypt fileEncryptionDecryptionKey aesInitializationVector (m_OE h) |}
    else data in
  let data :=
    if negb (isAuthorized data) then
      let inputData := password ++ validationSalt userData in
      let hash' := createHash_r6 (m_U h) inputData password false in
      if bool_decide (hash' = hash userData) then
        let fileEncryptionKeyInputData := password ++ keySalt userData in
        let fileEncryptionDecryptionKey :=
          createHash_r6 (m_U h) fileEncryptionKeyInputData password false in
        {| authorizationResult := UserAuthorized;
           fileEncryptionKey :=
             AES_cbc_decrypt fileEncryptionDecryptionKey aesInitializationVector (m_OE h) |}
      else data
    else data in
  if isAuthorized data then Return (authorizationResult data) data else Break data.

(** The switch on [m_R] inside the loop. *)
Definition attempt (data : AuthorizationData) (password : QByteArray) : Result Attempt :=
  if bool_decide (m_R h = 2 \/ m_R h = 3 \/ m_R h = 4) then attempt_r234 data password
  else if m_R h =? 6 then Ok (attempt_r6 data password)
  else Ok (Return Failed data).

(** The password callback of [authenticate]: the answer to its [n]-th
    invocation is a password and the value it leaves in the flag
    [passwordObtained].  A [QString] is held as its UTF-8 text. *)
Definition PasswordCallback := nat -> string * bool.

Definition toUtf8 (s : string) : QByteArray := list_byte_of_string s.

(** The [while (passwordObtained)] loop.  The result is [None] when
    [fuel] passes of the loop were not enough; the second component counts
    the invocations of the callback. *)
Fixpoint authenticateLoop (fuel : nat) (getPasswordCallback : PasswordCallback)
    (invocations : nat) (data : AuthorizationData) (password : QByteArray)
    : option (Result (AuthorizationResult * AuthorizationData)) * nat :=
  match fuel with
  | O => (None, invocations)
  | S fuel' =>
      match attempt data password with
      | Throw m => (Some (Throw m), invocations)
      | Ok (Return r data) => (Some (Ok (r, data)), invocations)
      | Ok (Break data) =>
          let '(answer, passwordObtained) := getPasswordCallback invocations in
          if passwordObtained
          then authenticateLoop fuel' getPasswordCallback (S invocations) data (toUtf8 answer)
          else (Some (Ok (Cancelled, data)), S invocations)
      end
  end.

Definition authenticate (fuel : nat) (getPasswordCallback : PasswordCallback)
    : option (Result (AuthorizationResult * AuthorizationData)) * nat :=
  authenticateLoop fuel getPasswordCallback 0 AuthorizationData_default [].

(** The candidate passwords in the order the loop tries them. *)
Definition candidate (getPasswordCallback : PasswordCallback) (n : nat) : QByteArray :=
  match n with
  | O => []
  | S k => toUtf8 (fst (getPasswordCallback k))
  end.

(** *** The key derivation in the words of the design document

    Pad or truncate the password to 32 bytes, digest it with [O], the
    permissions as four little-endian bytes, the document id and, only if
    metadata is not encrypted, four bytes [0xFF]; keep the first
    [keyLengthBits / 8] bytes; for revision 3 and up, 50 times digest the
    current key bytes and keep the same prefix. *)
Definition deriveFileKey (password : QByteArray) : QByteArray :=
  let n := Z.to_nat (m_keyLength h / 8) in
  let paddedPassword := take 32 (password ++ PDFPasswordPadding) in
  let digest :=
    MD5 (paddedPassword ++ m_O h ++ littleEndian32 (m_permissions h) ++ m_ID h
         ++ (if m_encryptMetadata h then [] else [xff; xff; xff; xff])) in
  let key := take n digest in
  if 3 <=? m_R h then Nat.iter 50 (fun key => take n (MD5 key)) key else key.
End StandardSecurityHandler.

(** ** Document reader: [findFromEnd] *)

(** [std::search] and [std::find_end] of [<algorithm>] on the range that
    starts at index [first] of [data] and runs to its end.  Both answer an
    index into [data]; [length data] stands for the iterator [last]. *)
Definition matchesAt (data what : QByteArray) (i : nat) : bool :=
  bool_decide (take (length what) (drop i data) = what).

Fixpoint search_from (steps : nat) (data what : QByteArray) (first : nat) : nat :=
  match steps with
  | O => length data
  | S steps' =>
      if matchesAt data what first then first
      else search_from steps' data what (S first)
  end.

Definition search (data what : QByteArray) (first : nat) : nat :=
  search_from (S (length data - first)) data what first.

Fixpoint find_end_from (steps : nat) (data what : QByteArray) (first result : nat) : nat :=
  match steps with
  | O => result
  | S steps' =>
      let new_result := search data what first in
      if bool_decide (new_result = length data) then result
      else find_end_from steps' data what (S new_result) new_result
  end.

Definition find_end (data what : QByteArray) (first : nat) : nat :=
  match what with
  | [] => length data
  | _ => find_end_from (S (length data)) data what first (length data)
  end.

Section FindFromEnd.
(** [FIND_NOT_FOUND_RESULT] is a constant of [pdfdocumentreader.h]. *)
Variable FIND_NOT_FOUND_RESULT : Z.

Definition findFromEnd (what byteArray : QByteArray) (limit : Z) : Z :=
  if bool_decide (byteArray = []) then FIND_NOT_FOUND_RESULT else
  let size := Z.of_nat (length byteArray) in
  let adjustedLimit := Z.min size limit in
  let whatLength := Z.of_nat (length what) in
  if adjustedLimit <? whatLength then FIND_NOT_FOUND_RESULT else
  let itBegin := Z.to_nat (size - adjustedLimit) in
  let it := find_end byteArray what itBegin in
  if negb (bool_decide (it = length byteArray)) then Z.of_nat it
  else FIND_NOT_FOUND_RESULT.
End FindFromEnd.

(** The trailing window that a scan with [limit] may look at: its first
    index, and the occurrences of [what] that lie inside it. *)
Definition windowStart (byteArray : QByteArray) (limit : Z) : Z :=
  Z.of_nat (length byteArray) - Z.min (Z.of_nat (length byteArray)) limit.

Definition occursAt (what byteArray : QByteArray) (limit : Z) (i : Z) : Prop :=
  windowStart byteArray limit <= i /\
  i + Z.of_nat (length what) <= Z.of_nat (length byteArray) /\
  take (length what) (drop (Z.to_nat i) byteArray) = what.

(** ** Document reader: data *)

Inductive EntryType := Free | Occupied | InObjectStream.

#[global] Instance EntryType_eq_decision : EqDecision EntryType.
Proof. solve_decision. Defined.

(** Modelled from the spec: [pdfxreftable.h] is not among the sources.  An
    entry of the cross-reference table is free, occupied at a byte offset,
    or inside an object stream (container reference and index within the
    container); the table is indexed by object number and carries the
    trailer. *)
Record XRefEntry := {
  entryType : EntryType;
  reference : PDFObjectReference;
  offset : Z;
  objectStream : PDFObjectReference;
  objectStreamIndex : Z
}.

Record PDFXRefTable := {
  entries : list XRefEntry;
  getTrailerDictionary : PDFObject
}.

Definition getSize (t : PDFXRefTable) : nat := length (entries t).

Definition getOccupiedEntries (t : PDFXRefTable) : list XRefEntry :=
  filter (fun e => entryType e = Occupied) (entries t).

Definition getObjectStreamEntries (t : PDFXRefTable) : list XRefEntry :=
  filter (fun e => entryType e = InObjectStream) (entries t).

(** [PDFObjectStorage::Entry] and the vector [PDFObjects]. *)
Record StorageEntry := {
  entryGeneration : Z;
  object : PDFObject
}.

Definition StorageEntry_default : StorageEntry :=
  {| entryGeneration := 0; object := PDFNull |}.

Abbreviation PDFObjects := (list StorageEntry).

(** Modelled from the spec: [pdfdocument.h] is not among the sources.  A
    document owns the object table, the trailer and the security handler
    with its authorization data; the default document has none of them. *)
Record PDFDocument := {
  objects : PDFObjects;
  trailerDictionary : PDFObject;
  securityHandler : option (PDFSecurityHandler * AuthorizationData)
}.

Definition PDFDocument_default : PDFDocument :=
  {| objects := []; trailerDictionary := PDFNull; securityHandler := None |}.

Record PDFVersion := {
  major : Z;
  minor : Z
}.

(** The members of [PDFDocumentReader] that [readFromBuffer] writes. *)
Record PDFDocumentReader := {
  m_successfull : bool;
  m_errorMessage : option Message;
  m_version : PDFVersion
}.

Definition fail (reader : PDFDocumentReader) (m : Message) : PDFDocumentReader :=
  {| m_successfull := false;
     m_errorMessage := Some m;
     m_version := m_version reader |}.

Definition setVersion (reader : PDFDocumentReader) (v : PDFVersion) : PDFDocumentReader :=
  {| m_successfull := m_successfull reader;
     m_errorMessage := m_errorMessage reader;
     m_version := v |}.

(** [PDFParsingContext]: the object fetcher (it captures the buffer and the
    cross-reference table) and the references that a
    [PDFParsingContextGuard] holds open. *)
Record PDFParsingContext := {
  fetcherBuffer : QByteArray;
  fetcherTable : PDFXRefTable;
  activeReferences : list PDFObjectReference
}.

Definition PDFParsingContextGuard (context : PDFParsingContext) (r : PDFObjectReference)
    : PDFParsingContext :=
  {| fetcherBuffer := fetcherBuffer context;
     fetcherTable := fetcherTable context;
     activeReferences := r :: activeReferences context |}.

Inductive TokenType :=
  | TokenInteger | TokenReal | TokenString | TokenName | TokenCommand
  | TokenDelimiter | TokenEndOfInput.

Record Token := {
  tokenType : TokenType;
  tokenInteger : Z
}.

(** What [readFromBuffer] uses and the two files do not define: constants
    of [pdfconstants.h], the lexical analyzer, the header regular
    expression, [PDFVersion::isValid], [PDFXRefTable::readXRefTable],
    [PDFParser] and [PDFStreamFilterStorage]. *)
Class Collaborators := {
  FIND_NOT_FOUND_RESULT : Z;
  PDF_END_OF_FILE_MARK : QByteArray;
  PDF_START_OF_XREF_MARK : QByteArray;
  PDF_FOOTER_SCAN_LIMIT : Z;
  PDF_HEADER_SCAN_LIMIT : Z;
  PDF_OBJECT_START_MARK : string;
  PDF_OBJECT_END_MARK : string;
  (** first token of the text after index [start] of the buffer *)
  fetch : QByteArray -> Z -> Result Token;
  (** [std::regex_search] with the header expression: first and last
      character of the group that matched *)
  headerSearch : QByteArray -> option (uint8_t * uint8_t);
  isValid : PDFVersion -> bool;
  readXRefTable : QByteArray -> Z -> Result PDFXRefTable;
  PDFParser : Type;
  newParser : QByteArray -> PDFParsingContext -> PDFParser;
  PDFParser_seek : PDFParser -> Z -> PDFParser;
  PDFParser_getObject : PDFParser -> Result (PDFObject * PDFParser);
  PDFParser_fetchCommand : PDFParser -> string -> bool * PDFParser;
  getDecodedStream : PDFDictionary -> QByteArray -> Result QByteArray;
  (** [std::vector<std::pair<PDFInteger, PDFInteger>>::max_size()] *)
  vector_max_size : Z
}.

(** [objects[n]] and [objects[n] = e] for a [PDFInteger] index.  The
    source indexes the vector only with object numbers of the
    cross-reference table, which are inside it; outside it the read
    answers the default entry and the write changes nothing. *)
Definition slot (objs : PDFObjects) (n : Z) : StorageEntry :=
  if n <? 0 then StorageEntry_default
  else default StorageEntry_default (objs !! Z.to_nat n).

Definition setSlot (objs : PDFObjects) (n : Z) (e : StorageEntry) : PDFObjects :=
  if n <? 0 then objs else <[Z.to_nat n := e]> objs.

Definition setSlotObject (objs : PDFObjects) (n : Z) (o : PDFObject) : PDFObjects :=
  setSlot objs n {| entryGeneration := entryGeneration (slot objs n); object := o |}.

(** ** Document reader: [readFromBuffer] *)

(** Modelled from the spec: the handler for unencrypted documents is
    declared in [pdfsecurityhandler.h]; it authorizes at once with an empty
    key. *)
Definition PDFNoneSecurityHandler_authenticate : AuthorizationResult * AuthorizationData :=
  (OwnerAuthorized, {| authorizationResult := OwnerAuthorized; fileEncryptionKey := [] |}).

(** Exceptions of the C++ library that are not a [PDFParserException]:
    no handler of the reader catches them. *)
Inductive StdException : Set := std_length_error.

(** What a piece of code comes to: it returns, or an exception that no
    handler catches leaves it. *)
Inductive Outcome (A : Type) :=
  | Returns (a : A)
  | Escapes (e : StdException).
Arguments Returns {A} a.
Arguments Escapes {A} e.

#[global] Instance Outcome_ret : MRet Outcome := fun A a => Returns a.
#[global] Instance Outcome_bind : MBind Outcome := fun A B k r =>
  match r with
  | Returns a => k a
  | Escapes e => Escapes e
  end.

(** ** The tasks of the two parallel loops

    A task of [std::for_each] with a parallel policy shares the reader and
    the vector [objects] with the tasks that run beside it.  It reads
    [m_successfull] without the mutex; if the flag is set it does its
    reading and parsing, and then it writes, each write under the mutex:
    a slot of the vector, or, in its [catch] block, the flag and the
    message of the reader.  An [Action] is one such write, or the end of
    the task by an exception that its [catch] does not handle. *)
Inductive Action :=
  | Store (n : Z) (entry : StorageEntry)
  | StoreObject (n : Z) (o : PDFObject)
  | Record (m : Message)
  | Leave (e : StdException).

(** [objects[n] = entry], [objects[n].object = o], and the [catch] block
    [m_successfull = false; m_errorMessage = exception.getMessage()]. *)
Definition perform (action : Action) (state : PDFDocumentReader * PDFObjects)
    : Outcome (PDFDocumentReader * PDFObjects) :=
  let '(reader, objs) := state in
  match action with
  | Store n entry => Returns (reader, setSlot objs n entry)
  | StoreObject n o => Returns (reader, setSlotObject objs n o)
  | Record m => Returns (fail reader m, objs)
  | Leave e => Escapes e
  end.

Fixpoint performAll (actions : list Action) (state : PDFDocumentReader * PDFObjects)
    : Outcome (PDFDocumentReader * PDFObjects) :=
  match actions with
  | [] => Returns state
  | action :: actions => state ← perform action state; performAll actions state
  end.

Section DocumentReader.
Context `{ossl : OpenSSL} `{defaults : HandlerDefaults} `{collab : Collaborators}.
Variable buffer : QByteArray.

(** The lambda [getObject]. *)
Definition getObject (context : PDFParsingContext) (offset : Z)
    (reference : PDFObjectReference) : Result PDFObject :=
  let context := PDFParsingContextGuard context reference in
  let parser := PDFParser_seek (newParser buffer context) offset in
  '(objectNumber, parser) ← PDFParser_getObject parser;
  '(generation, parser) ← PDFParser_getObject parser;
  if negb (isInt objectNumber) || negb (isInt generation)
  then Throw (MsgCantReadObject offset) else
  let '(found, parser) := PDFParser_fetchCommand parser PDF_OBJECT_START_MARK in
  if negb found then Throw (MsgCantReadObject offset) else
  '(object, parser) ← PDFParser_getObject parser;
  let '(found, parser) := PDFParser_fetchCommand parser PDF_OBJECT_END_MARK in
  if negb found then Throw (MsgCantReadObject offset) else
  let scannedReference :=
    {| objectNumber := getInteger objectNumber; generation := getInteger generation |} in
  if bool_decide (scannedReference <> reference)
  then Throw (MsgCantReadObject offset)
  else Ok object.

Variable xrefTable : PDFXRefTable.

(** [PDFParsingContext context(objectFetcher)] *)
Definition newContext : PDFParsingContext :=
  {| fetcherBuffer := buffer; fetcherTable := xrefTable; activeReferences := [] |}.

(** The lambda [processEntry], on the reader and the vector [objects],
    run without another task beside it. *)
Definition processEntry (state : PDFDocumentReader * PDFObjects) (entry : XRefEntry)
    : PDFDocumentReader * PDFObjects :=
  let '(reader, objs) := state in
  if m_successfull reader then
    match getObject newContext (offset entry) (reference entry) with
    | Ok obj =>
        (reader,
         setSlot objs (objectNumber (reference entry))
           {| entryGeneration := generation (reference entry); object := obj |})
    | Throw m => (fail reader m, objs)
    end
  else state.

(** The [try] block of [processEntry] as the write it ends with: the
    buffer and the cross-reference table, which it reads, do not change;
    the vector is not read. *)
Definition entryActions (objs : PDFObjects) (entry : XRefEntry) : list Action :=
  match getObject newContext (offset entry) (reference entry) with
  | Ok obj =>
      [Store (objectNumber (reference entry))
         {| entryGeneration := generation (reference entry); object := obj |}]
  | Throw m => [Record m]
  end.

Variable objectStreamEntries : list XRefEntry.

(** The first loop of [processObjectStream]: [n] pairs of the header. *)
Fixpoint readObjectNumbersAndOffsets (n : nat) (first : Z) (streamNumber : Z)
    (parser : PDFParser) : Result (list (Z * Z) * PDFParser) :=
  match n with
  | O => Ok ([], parser)
  | S n' =>
      '(currentObjectNumber, parser) ← PDFParser_getObject parser;
      '(currentOffset, parser) ← PDFParser_getObject parser;
      if negb (isInt currentObjectNumber) || negb (isInt currentOffset)
      then Throw (MsgObjectStreamInvalid streamNumber) else
      '(rest, parser) ← readObjectNumbersAndOffsets n' first streamNumber parser;
      Ok ((getInteger currentObjectNumber, getInteger currentOffset + first) :: rest, parser)
  end.

(** [processObjectStream] from the start of its [try] block to the end of
    the first loop: the container is read from the vector, checked and
    decoded, room for [N] pairs is reserved and the pairs are read.
    [reserve(n)] takes [n] as an unsigned size: for a negative [N], or one
    above [max_size()], it throws [std::length_error], which is not a
    [PDFParserException]. *)
Definition readStreamHeader (objs : PDFObjects) (objectStreamReference : PDFObjectReference)
    : Outcome (Result (list (Z * Z) * PDFParser)) :=
  let streamNumber := objectNumber objectStreamReference in
  if streamNumber >=? Z.of_nat (length objs)
  then Returns (Throw (MsgObjectStreamNotFound streamNumber)) else
  match object (slot objs streamNumber) with
  | PDFStreamObject objectStreamDictionary content =>
      match get objectStreamDictionary "Type" with
      | PDFName n =>
          if negb (String.eqb n "ObjStm")
          then Returns (Throw (MsgObjectStreamInvalid streamNumber)) else
          let nObject := get objectStreamDictionary "N" in
          let firstObject := get objectStreamDictionary "First" in
          if negb (isInt nObject) || negb (isInt firstObject)
          then Returns (Throw (MsgObjectStreamInvalid streamNumber)) else
          let n := getInteger nObject in
          let first := getInteger firstObject in
          match getDecodedStream objectStreamDictionary content with
          | Throw m => Returns (Throw m)
          | Ok objectStreamData =>
              let context := PDFParsingContextGuard newContext objectStreamReference in
              let parser := newParser objectStreamData context in
              if (n <? 0) || (vector_max_size <? n) then Escapes std_length_error else
              Returns (readObjectNumbersAndOffsets (Z.to_nat n) first streamNumber parser)
          end
      | _ => Returns (Throw (MsgObjectStreamInvalid streamNumber))
      end
  | _ => Returns (Throw (MsgObjectStreamInvalid streamNumber))
  end.

(** The lambda [predicate] of the second loop. *)
Definition predicate (objectNumber' : Z) (objectStreamReference : PDFObjectReference)
    (entry : XRefEntry) : bool :=
  bool_decide (objectNumber (reference entry) = objectNumber')
  && bool_decide (objectStream entry = objectStreamReference).

(** The second loop of [processObjectStream] as the writes it makes, one
    for each pair, until an exception ends it. *)
Fixpoint storeActions (objectStreamReference : PDFObjectReference)
    (objectNumberAndOffset : list (Z * Z)) (parser : PDFParser) : list Action :=
  match objectNumberAndOffset with
  | [] => []
  | (objectNumber', offset') :: rest =>
      let parser := PDFParser_seek parser offset' in
      match PDFParser_getObject parser with
      | Throw m => [Record m]
      | Ok (obj, parser) =>
          if existsb (predicate objectNumber' objectStreamReference) objectStreamEntries
          then StoreObject objectNumber' obj :: storeActions objectStreamReference rest parser
          else [Record (MsgObjectStreamInvalid (objectNumber objectStreamReference))]
      end
  end.

(** The [try] block of [processObjectStream] with its [catch]: what the
    task writes, for the vector as the task reads it. *)
Definition streamActions (objs : PDFObjects) (objectStreamReference : PDFObjectReference)
    : list Action :=
  match readStreamHeader objs objectStreamReference with
  | Escapes e => [Leave e]
  | Returns (Throw m) => [Record m]
  | Returns (Ok (objectNumberAndOffset, parser)) =>
      storeActions objectStreamReference objectNumberAndOffset parser
  end.

(** The lambda [processObjectStream], run without another task beside
    it. *)
Definition processObjectStream (state : PDFDocumentReader * PDFObjects)
    (objectStreamReference : PDFObjectReference)
    : Outcome (PDFDocumentReader * PDFObjects) :=
  let '(reader, objs) := state in
  if negb (m_successfull reader) then Returns state else
  performAll (streamActions objs objectStreamReference) state.
End DocumentReader.

(** ** [std::for_each] with a parallel policy

    The tasks of a loop make their moves in an order that the library
    chooses.  The first move of a task reads the flag, without the mutex:
    the task has started when the flag is set, and is done when it is not.
    The next move of a started task is its reading and parsing, which
    fixes the writes it will make; after that each move is its next
    write.  An execution names, move by move, the position of
    the task that moves; when it ends, [std::for_each] waits for the tasks
    that are not done, which the model lets finish one after the other.
    An exception that leaves a task ends the loop ([std::terminate]).
    [recorded] is the history of the loop: the messages that [catch] blocks
    have stored in the reader, the latest first. *)
Inductive Status :=
  | NotStarted
  | Started
  | Running (queue : list Action).

Record Loop := {
  loopReader : PDFDocumentReader;
  loopObjects : PDFObjects;
  recorded : list Message;
  statuses : list Status
}.

Definition ExecutionOrder (A : Type) := list A -> list nat.

Definition setStatus (loop : Loop) (i : nat) (status : Status) : Loop :=
  {| loopReader := loopReader loop;
     loopObjects := loopObjects loop;
     recorded := recorded loop;
     statuses := <[i := status]> (statuses loop) |}.

Definition queueOf (loop : Loop) (i : nat) : list Action :=
  match statuses loop !! i with
  | Some (Running queue) => queue
  | _ => []
  end.

Section ForEach.
Context {A : Type}.
(** What a task writes, for the vector as it reads it, and the tasks. *)
Variable plan : PDFObjects -> A -> list Action.
Variable tasks : list A.

Definition move (loop : Loop) (i : nat) : Outcome Loop :=
  match tasks !! i, statuses loop !! i with
  | Some a, Some NotStarted =>
      Returns (setStatus loop i
                 (if m_successfull (loopReader loop) then Started else Running []))
  | Some a, Some Started =>
      Returns (setStatus loop i (Running (plan (loopObjects loop) a)))
  | Some a, Some (Running (action :: rest)) =>
      '(reader, objs) ← perform action (loopReader loop, loopObjects loop);
      Returns {| loopReader := reader;
                 loopObjects := objs;
                 recorded := match action with
                             | Record m => m :: recorded loop
                             | _ => recorded loop
                             end;
                 statuses := <[i := Running rest]> (statuses loop) |}
  | _, _ => Returns loop
  end.

Fixpoint moves (schedule : list nat) (loop : Loop) : Outcome Loop :=
  match schedule with
  | [] => Returns loop
  | i :: schedule => loop ← move loop i; moves schedule loop
  end.

(** The task at position [i] runs to its end: two moves take a task that
    has not started to its writes, and the rest are the writes left. *)
Definition finish (loop : Loop) (i : nat) : Outcome Loop :=
  loop ← moves [i; i] loop;
  moves (replicate (length (queueOf loop i)) i) loop.

Fixpoint join (positions : list nat) (loop : Loop) : Outcome Loop :=
  match positions with
  | [] => Returns loop
  | i :: positions => loop ← finish loop i; join positions loop
  end.

Definition forEach (schedule : list nat) (state : PDFDocumentReader * PDFObjects)
    : Outcome (PDFDocumentReader * PDFObjects * list Message) :=
  loop ← moves schedule
           {| loopReader := fst state;
              loopObjects := snd state;
              recorded := [];
              statuses := replicate (length tasks) NotStarted |};
  loop ← join (seq 0 (length tasks)) loop;
  Returns (loopReader loop, loopObjects loop, recorded loop).
End ForEach.

(** The execution in which no task moves before the loop waits: the
    tasks run one after the other, in their order. *)
Definition sequential {A : Type} : ExecutionOrder A := fun _ => [].

Section ReadFromBuffer.
Context `{ossl : OpenSSL} `{defaults : HandlerDefaults} `{collab : Collaborators}.

(** Executions of the two parallel loops, the password callback of the
    reader and the number of passwords after which the model gives up. *)
Variable entryOrder : ExecutionOrder XRefEntry.
Variable streamOrder : ExecutionOrder PDFObjectReference.
Variable m_getPasswordCallback : PasswordCallback.
Variable fuel : nat.

(** Footer: end of file mark, start of the cross-reference table. *)
Definition readFooter (buffer : QByteArray) : Result Z :=
  if bool_decide (findFromEnd FIND_NOT_FOUND_RESULT PDF_END_OF_FILE_MARK buffer
                    PDF_FOOTER_SCAN_LIMIT = FIND_NOT_FOUND_RESULT)
  then Throw MsgEndOfFileNotFound else
  let startXRefPosition :=
    findFromEnd FIND_NOT_FOUND_RESULT PDF_START_OF_XREF_MARK buffer PDF_FOOTER_SCAN_LIMIT in
  if bool_decide (startXRefPosition = FIND_NOT_FOUND_RESULT)
  then Throw MsgStartXRefNotFound else
  token ← fetch buffer (startXRefPosition + Z.of_nat (length PDF_START_OF_XREF_MARK));
  match tokenType token with
  | TokenInteger => Ok (tokenInteger token)
  | _ => Throw MsgStartXRefNotFound
  end.

(** Header: the version, stored in [m_version] before it is checked. *)
Definition readHeader (reader : PDFDocumentReader) (buffer : QByteArray)
    : PDFDocumentReader * Result unit :=
  let window :=
    take (Z.to_nat (Z.min (Z.of_nat (length buffer)) PDF_HEADER_SCAN_LIMIT)) buffer in
  match headerSearch window with
  | Some (c1, c2) =>
      let reader := setVersion reader {| major := u8 c1 - 48; minor := u8 c2 - 48 |} in
      if negb (isValid (m_version reader))
      then (reader, Throw MsgInvalidVersion)
      else (reader, Ok ())
  | None => (reader, Throw MsgHeaderNotFound)
  end.

(** The document id: first item of the array [ID], if it is a string. *)
Definition readDocumentId (trailer : PDFDictionary) : QByteArray :=
  match get trailer "ID" with
  | PDFArray (PDFString id :: _) => id
  | _ => []
  end.

(** The entry [Encrypt], dereferenced in the objects read so far. *)
Definition readEncryptObject (trailer : PDFDictionary) (objs : PDFObjects) : PDFObject :=
  match get trailer "Encrypt" with
  | PDFReferenceObject r =>
      if (0 <=? objectNumber r) && (objectNumber r <? Z.of_nat (length objs))
         && bool_decide (entryGeneration (slot objs (objectNumber r)) = generation r)
      then object (slot objs (objectNumber r))
      else PDFReferenceObject r
  | encryptObject => encryptObject
  end.

(** [securityHandler->authenticate(m_getPasswordCallback)] *)
Definition authenticateHandler (handler : PDFSecurityHandler)
    : option (Result (AuthorizationResult * AuthorizationData)) :=
  match handler with
  | PDFNoneSecurityHandler => Some (Ok PDFNoneSecurityHandler_authenticate)
  | PDFStandardSecurityHandlerPointer h => fst (authenticate h fuel m_getPasswordCallback)
  end.

(** The [try] block after the cross-reference table has been read.  The
    reader comes back as the tasks left it, also when an exception ends
    the block.  [None] stands for a call that does not return: the
    password loop is not finished after [fuel] passes, or an exception has
    left a task of a parallel loop. *)
Definition readObjects (reader : PDFDocumentReader) (buffer : QByteArray)
    (xrefTable : PDFXRefTable) : option (PDFDocumentReader * Result PDFDocument) :=
  let objs : PDFObjects := replicate (getSize xrefTable) StorageEntry_default in
  let occupiedEntries := getOccupiedEntries xrefTable in
  match forEach (entryActions buffer xrefTable) occupiedEntries
          (entryOrder occupiedEntries) (reader, objs) with
  | Escapes _ => None
  | Returns (reader, objs, _) =>
  match
    match getTrailerDictionary xrefTable with
    | PDFDictionaryObject d => Some d
    | PDFStreamObject d _ => Some d
    | _ => None
    end
  with
  | None => Some (reader, Throw MsgInvalidTrailer)
  | Some trailer =>
      let id := readDocumentId trailer in
      let encryptObject := readEncryptObject trailer objs in
      match createSecurityHandler encryptObject id with
      | Throw m => Some (reader, Throw m)
      | Ok handler =>
          match authenticateHandler handler with
          | None => None
          | Some (Throw m) => Some (reader, Throw m)
          | Some (Ok (authorization, data)) =>
              if bool_decide (authorization = Failed \/ authorization = Cancelled)
              then Some (reader, Throw MsgAuthorizationFailed) else
              let objectStreamEntries := getObjectStreamEntries xrefTable in
              let objectStreams := remove_dups (map objectStream objectStreamEntries) in
              match forEach (streamActions buffer xrefTable objectStreamEntries)
                      objectStreams (streamOrder objectStreams) (reader, objs) with
              | Escapes _ => None
              | Returns (reader, objs, _) =>
                  Some (reader,
                        Ok {| objects := objs;
                              trailerDictionary := getTrailerDictionary xrefTable;
                              securityHandler := Some (handler, data) |})
              end
          end
      end
  end
  end.

(** The whole [try] block. *)
Definition readFromBufferBody (reader : PDFDocumentReader) (buffer : QByteArray)
    : option (PDFDocumentReader * Result PDFDocument) :=
  match readFooter buffer with
  | Throw m => Some (reader, Throw m)
  | Ok firstXrefTableOffset =>
      match readHeader reader buffer with
      | (reader, Throw m) => Some (reader, Throw m)
      | (reader, Ok _) =>
          match readXRefTable buffer firstXrefTableOffset with
          | Throw m => Some (reader, Throw m)
          | Ok xrefTable => readObjects reader buffer xrefTable
          end
      end
  end.

(** [readFromBuffer]: the document returned and the reader afterwards. *)
Definition readFromBuffer (reader : PDFDocumentReader) (buffer : QByteArray)
    : option (PDFDocument * PDFDocumentReader) :=
  match readFromBufferBody reader buffer with
  | None => None
  | Some (reader, Ok document) => Some (document, reader)
  | Some (reader, Throw m) => Some (PDFDocument_default, fail reader m)
  end.

End ReadFromBuffer.

(** ** Document reader: [reset], [readFromDevice], [readFromFile] *)

(** Messages that the reader sets outside [readFromBuffer], as their text.
    [QString::arg] puts its argument in the place of every [%1]. *)
Definition MsgDeviceNotReadable : Message :=
  MsgCollaborator "Device is not opened for reading.".
Definition MsgDeviceCannotOpen : Message :=
  MsgCollaborator "Can't open device for reading.".
Definition MsgFileDoesNotExist (fileName : string) : Message :=
  MsgCollaborator ("File '" ++ fileName ++ "' doesn't exist.").
Definition MsgFileCannotOpen (errorString : string) : Message :=
  MsgCollaborator ("File '" ++ errorString ++ "' cannot be opened for reading. "
                   ++ errorString).

(** [QIODevice] and [QFile] of Qt, as far as the reader uses them, and the
    default [PDFVersion] of the header.  Every operation answers the device
    as it leaves it. *)
Class Devices := {
  QIODevice : Type;
  isOpen : QIODevice -> bool;
  isReadable : QIODevice -> bool;
  openReadOnly : QIODevice -> bool * QIODevice;
  readAll : QIODevice -> QByteArray * QIODevice;
  close : QIODevice -> QIODevice;
  QFile : string -> QIODevice;
  fileExists : QIODevice -> bool;
  errorString : QIODevice -> string;
  PDFVersion_default : PDFVersion
}.

Section ReadFromDevice.
Context `{ossl : OpenSSL} `{defaults : HandlerDefaults} `{collab : Collaborators}
        `{devices : Devices}.
Variable entryOrder : ExecutionOrder XRefEntry.
Variable streamOrder : ExecutionOrder PDFObjectReference.
Variable m_getPasswordCallback : PasswordCallback.
Variable fuel : nat.

Definition reset (reader : PDFDocumentReader) : PDFDocumentReader :=
  {| m_successfull := true;
     m_errorMessage := None;
     m_version := PDFVersion_default |}.

(** [readFromDevice]: the document, the reader and the device afterwards. *)
Definition readFromDevice (reader : PDFDocumentReader) (device : QIODevice)
    : option (PDFDocument * PDFDocumentReader * QIODevice) :=
  let reader := reset reader in
  if isOpen device then
    if isReadable device then
      let '(bytes, device) := readAll device in
      '(document, reader) ← readFromBuffer entryOrder streamOrder m_getPasswordCallback
                              fuel reader bytes;
      Some (document, reader, device)
    else Some (PDFDocument_default, fail reader MsgDeviceNotReadable, device)
  else
    let '(opened, device) := openReadOnly device in
    if opened then
      let '(byteArray, device) := readAll device in
      let device := close device in
      '(document, reader) ← readFromBuffer entryOrder streamOrder m_getPasswordCallback
                              fuel reader byteArray;
      Some (document, reader, device)
    else Some (PDFDocument_default, fail reader MsgDeviceCannotOpen, device).

(** [readFromFile]: the document and the reader afterwards; the [QFile] is
    a local of the function. *)
Definition readFromFile (reader : PDFDocumentReader) (fileName : string)
    : option (PDFDocument * PDFDocumentReader) :=
  let file := QFile fileName in
  let reader := reset reader in
  if fileExists file then
    let '(opened, file) := openReadOnly file in
    if opened then
      '(document, reader, file) ← readFromDevice reader file;
      let file := close file in
      Some (document, reader)
    else Some (PDFDocument_default, fail reader (MsgFileCannotOpen (errorString file)))
  else Some (PDFDocument_default, fail reader (MsgFileDoesNotExist fileName)).
End ReadFromDevice.

(** ** Revision 6 hash: the buffer of step a) *)

(** [K1]: 64 copies of the password, [K] and the user key. *)
Definition sequence_r6 (password userKey K : QByteArray) : QByteArray :=
  mjoin (replicate 64 (password ++ K ++ userKey)).

(** ** Notions used to state the properties of the reader *)

(** The cross-reference table declares object number [n] as a member of
    the object stream [container], at any index, and at the index [index]. *)
Definition declaredInStream (objectStreamEntries : list XRefEntry)
    (container : PDFObjectReference) (n : Z) : Prop :=
  exists entry : XRefEntry,
    entry ∈ objectStreamEntries /\
    objectNumber (reference entry) = n /\ objectStream entry = container.

Definition declaredAtIndex (objectStreamEntries : list XRefEntry)
    (container : PDFObjectReference) (n : Z) (index : Z) : Prop :=
  exists entry : XRefEntry,
    entry ∈ objectStreamEntries /\
    objectNumber (reference entry) = n /\ objectStream entry = container /\
    objectStreamIndex entry = index.

(** ** A small instance of the interfaces

    A checksum of the length and the first 64 bytes stands for a digest,
    and a cipher that masks the first 32 bytes with a byte of the key for
    RC4 and AES: enough to run the definitions above on concrete handlers
    and buffers. *)

Module Sample.
Definition checksum (m : QByteArray) : Z :=
  foldl (fun s b => (s * 31 + u8 b + 1) mod 256) (7 + Z.of_nat (length m)) (take 64 m).

Definition digest (size : nat) (m : QByteArray) : QByteArray :=
  let c := checksum m in
  map (fun i => of_u8 (c * (2 * Z.of_nat i + 1) + Z.of_nat i)) (seq 0 size).

Definition xorCipher (key data : QByteArray) : QByteArray :=
  let k := of_u8 (checksum key) in
  map (fun b => xor8 b k) (take 32 data) ++ drop 32 data.

#[export] Instance openssl : OpenSSL := {|
  MD5 := digest 16;
  SHA256 := digest 32;
  SHA384 := digest 48;
  SHA512 := digest 64;
  RC4 := xorCipher;
  AES_cbc_encrypt := fun key iv data => xorCipher (key ++ iv) data;
  AES_cbc_decrypt := fun key iv data => xorCipher (key ++ iv) data
|}.

Definition filterDefault : CryptFilter := {| type := FilterNone; authEvent := DocOpen |}.

#[export] Instance defaults : HandlerDefaults := {|
  CryptFilter_default := filterDefault;
  PDFStandardSecurityHandler_default :=
    {| m_V := 0; m_keyLength := 40; m_R := 0;
       m_O := []; m_U := []; m_OE := []; m_UE := []; m_Perms := [];
       m_permissions := 0; m_encryptMetadata := true; m_ID := [];
       m_cryptFilters := ∅;
       m_filterStreams := filterDefault;
       m_filterStrings := filterDefault;
       m_filterEmbeddedFiles := filterDefault |}
|}.

(** An encryption dictionary with two named crypt filters, with or
    without the entry [EFF]. *)
Definition encrypt (withEFF : bool) : PDFDictionary :=
  [("Filter"%string, PDFName "Standard");
   ("V"%string, PDFInt 4);
   ("R"%string, PDFInt 4);
   ("CF"%string,
    PDFDictionaryObject
      [("StdCF"%string, PDFDictionaryObject [("CFM"%string, PDFName "AESV2")]);
       ("Files"%string,
        PDFDictionaryObject [("CFM"%string, PDFName "V2");
                             ("AuthEvent"%string, PDFName "EFOpen")])]);
   ("StmF"%string, PDFName "StdCF");
   ("StrF"%string, PDFName "StdCF");
   ("O"%string, PDFString (replicate 32 x41));
   ("U"%string, PDFString (replicate 32 x42));
   ("P"%string, PDFInt (-44))]
  ++ (if withEFF then [("EFF"%string, PDFName "Files")] else []).

(** A revision 3 dictionary whose [Length] asks for a 256-bit key. *)
Definition encryptLongKey : PDFDictionary :=
  [("Filter"%string, PDFName "Standard");
   ("V"%string, PDFInt 2);
   ("Length"%string, PDFInt 256);
   ("R"%string, PDFInt 3);
   ("O"%string, PDFString (replicate 32 x41));
   ("U"%string, PDFString (replicate 32 x42));
   ("P"%string, PDFInt (-44))].

(** The handler that [createSecurityHandler] builds from it. *)
Definition handlerLongKey : PDFStandardSecurityHandler :=
  {| m_V := 2; m_keyLength := 256; m_R := 3;
     m_O := replicate 32 x41; m_U := replicate 32 x42;
     m_OE := []; m_UE := []; m_Perms := [];
     m_permissions := 4294967252; m_encryptMetadata := true; m_ID := [];
     m_cryptFilters := identityFilters;
     m_filterStreams := filterDefault;
     m_filterStrings := filterDefault;
     m_filterEmbeddedFiles := filterDefault |}.

(** A revision 3 handler with a 40-bit key. *)
Definition handler40 : PDFStandardSecurityHandler :=
  {| m_V := 1; m_keyLength := 40; m_R := 3;
     m_O := replicate 32 x41; m_U := replicate 32 x42;
     m_OE := []; m_UE := []; m_Perms := [];
     m_permissions := 4294967252; m_encryptMetadata := false;
     m_ID := [x01; x02; x03];
     m_cryptFilters := identityFilters;
     m_filterStreams := filterDefault;
     m_filterStrings := filterDefault;
     m_filterEmbeddedFiles := filterDefault |}.

(** The same handler under a revision that [authenticate] does not know. *)
Definition handler5 : PDFStandardSecurityHandler :=
  {| m_V := 1; m_keyLength := 40; m_R := 5;
     m_O := replicate 32 x41; m_U := replicate 32 x42;
     m_OE := []; m_UE := []; m_Perms := [];
     m_permissions := 4294967252; m_encryptMetadata := false;
     m_ID := [x01; x02; x03];
     m_cryptFilters := identityFilters;
     m_filterStreams := filterDefault;
     m_filterStrings := filterDefault;
     m_filterEmbeddedFiles := filterDefault |}.

(** A revision 6 document whose user password is empty: [U] holds the
    revision 6 hash of the empty password with the validation salt, the
    validation salt and the key salt; [OE] and [UE] differ. *)
Definition userValidationSalt : QByteArray := [x01; x02; x03; x04; x05; x06; x07; x08].
Definition userKeySalt : QByteArray := [x11; x12; x13; x14; x15; x16; x17; x18].

Definition entryU6 : QByteArray :=
  Eval vm_compute in
    (createHash_r6 [] ([] ++ userValidationSalt) [] false
     ++ userValidationSalt ++ userKeySalt).

Definition encrypt6 : PDFDictionary :=
  [("Filter"%string, PDFName "Standard");
   ("V"%string, PDFInt 5);
   ("R"%string, PDFInt 6);
   ("O"%string, PDFString (replicate 48 x00));
   ("U"%string, PDFString entryU6);
   ("OE"%string, PDFString (replicate 32 xaa));
   ("UE"%string, PDFString (replicate 32 xbb));
   ("Perms"%string, PDFString (replicate 16 x00));
   ("P"%string, PDFInt (-44))].

Definition identityFilter : CryptFilter :=
  {| type := FilterIdentity; authEvent := DocOpen |}.

Definition handler6 : PDFStandardSecurityHandler :=
  {| m_V := 5; m_keyLength := 256; m_R := 6;
     m_O := replicate 48 x00; m_U := entryU6;
     m_OE := replicate 32 xaa; m_UE := replicate 32 xbb;
     m_Perms := replicate 16 x00;
     m_permissions := 4294967252; m_encryptMetadata := true; m_ID := [];
     m_cryptFilters := identityFilters;
     m_filterStreams := identityFilter;
     m_filterStrings := identityFilter;
     m_filterEmbeddedFiles := identityFilter |}.

(** A callback that declines at once, and one that offers ["guess"]
    before it declines. *)
Definition decline : PasswordCallback := fun _ => (EmptyString, false).
Definition guessOnce : PasswordCallback :=
  fun n => match n with O => ("guess"%string, true) | _ => (EmptyString, false) end.

(** *** A small document format for the collaborators of the reader

    An object is one byte and parses to the integer it holds; commands
    are spelled out; the header is ["%PDF-"] and two version characters
    with one character between them; a cross-reference table is a count
    followed by three bytes per object number: kind (0 free, 1 occupied,
    2 in an object stream), offset or container number, generation or
    index in the container.  The trailer is an empty dictionary and
    streams are stored decoded. *)
Definition byteAt (data : QByteArray) (pos : Z) : option uint8_t :=
  if pos <? 0 then None else data !! Z.to_nat pos.

Definition parserGetObject (parser : QByteArray * Z)
    : Result (PDFObject * (QByteArray * Z)) :=
  match byteAt (fst parser) (snd parser) with
  | Some b => Ok (PDFInt (u8 b), (fst parser, snd parser + 1))
  | None => Throw (MsgCollaborator "unexpected end of data")
  end.

Definition parserFetchCommand (parser : QByteArray * Z) (command : string)
    : bool * (QByteArray * Z) :=
  let text := list_byte_of_string command in
  if (0 <=? snd parser)
     && bool_decide (take (length text) (drop (Z.to_nat (snd parser)) (fst parser)) = text)
  then (true, (fst parser, snd parser + Z.of_nat (length text)))
  else (false, parser).

Definition lexerFetch (buffer : QByteArray) (start : Z) : Result Token :=
  match byteAt buffer start with
  | Some b => Ok {| tokenType := TokenInteger; tokenInteger := u8 b |}
  | None => Ok {| tokenType := TokenEndOfInput; tokenInteger := 0 |}
  end.

Definition header (window : QByteArray) : option (uint8_t * uint8_t) :=
  match window with
  | x25 :: x50 :: x44 :: x46 :: x2d :: c1 :: _ :: c2 :: _ => Some (c1, c2)
  | _ => None
  end.

Definition versionValid (v : PDFVersion) : bool :=
  (major v =? 1) && (0 <=? minor v) && (minor v <=? 7).

Fixpoint decodeEntries (count : nat) (number : Z) (bytes : QByteArray)
    : Result (list XRefEntry) :=
  match count with
  | O => Ok []
  | S count' =>
      match bytes with
      | kind :: a :: b :: rest =>
          let none := {| objectNumber := 0; generation := 0 |} in
          entry ←
            (if u8 kind =? 0 then
               Ok {| entryType := Free;
                     reference := {| objectNumber := number; generation := 0 |};
                     offset := 0; objectStream := none; objectStreamIndex := 0 |}
             else if u8 kind =? 1 then
               Ok {| entryType := Occupied;
                     reference := {| objectNumber := number; generation := u8 b |};
                     offset := u8 a; objectStream := none; objectStreamIndex := 0 |}
             else if u8 kind =? 2 then
               Ok {| entryType := InObjectStream;
                     reference := {| objectNumber := number; generation := 0 |};
                     offset := 0;
                     objectStream := {| objectNumber := u8 a; generation := 0 |};
                     objectStreamIndex := u8 b |}
             else Throw (MsgCollaborator "invalid cross-reference entry"));
          rest ← decodeEntries count' (number + 1) rest;
          Ok (entry :: rest)
      | _ => Throw (MsgCollaborator "truncated cross-reference table")
      end
  end.

Definition xrefReader (buffer : QByteArray) (start : Z) : Result PDFXRefTable :=
  match byteAt buffer start with
  | Some count =>
      entries ← decodeEntries (Z.to_nat (u8 count)) 0 (drop (Z.to_nat start + 1) buffer);
      Ok {| entries := entries; getTrailerDictionary := PDFDictionaryObject [] |}
  | None => Throw (MsgCollaborator "cross-reference table not found")
  end.

#[export] Instance collaborators : Collaborators := {|
  FIND_NOT_FOUND_RESULT := -1;
  PDF_END_OF_FILE_MARK := list_byte_of_string "%%EOF";
  PDF_START_OF_XREF_MARK := list_byte_of_string "startxref";
  PDF_FOOTER_SCAN_LIMIT := 1024;
  PDF_HEADER_SCAN_LIMIT := 1024;
  PDF_OBJECT_START_MARK := "obj";
  PDF_OBJECT_END_MARK := "endobj";
  fetch := lexerFetch;
  headerSearch := header;
  isValid := versionValid;
  readXRefTable := xrefReader;
  PDFParser := (QByteArray * Z)%type;
  newParser := fun data context => (data, 0);
  PDFParser_seek := fun parser position => (fst parser, position);
  PDFParser_getObject := parserGetObject;
  PDFParser_fetchCommand := parserFetchCommand;
  getDecodedStream := fun dictionary content => Ok content;
  vector_max_size := 576460752303423487
|}.

(** A document with two occupied objects.  The table expects object 1 at
    offset 8 and object 2 at offset 20; the object at offset 20 says it is
    object 9. *)
Definition corrupted : QByteArray :=
  list_byte_of_string "%PDF-1.4"
  ++ [x01; x00] ++ list_byte_of_string "obj" ++ [x07] ++ list_byte_of_string "endobj"
  ++ [x09; x00] ++ list_byte_of_string "obj" ++ [x07] ++ list_byte_of_string "endobj"
  ++ [x03; x00; x00; x00; x01; x08; x00; x01; x14; x00]
  ++ list_byte_of_string "startxref" ++ [x20] ++ list_byte_of_string "%%EOF".

Definition readerAfterReset : PDFDocumentReader :=
  {| m_successfull := true; m_errorMessage := None;
     m_version := {| major := 0; minor := 0 |} |}.

(** An object stream, object 3, that holds object 5 as its first and only
    object, and a cross-reference table that declares object 5 as the
    second object (index 1) of that stream. *)
Definition container : PDFObjectReference := {| objectNumber := 3; generation := 0 |}.

Definition containerObject : PDFObject :=
  PDFStreamObject
    [("Type"%string, PDFName "ObjStm"); ("N"%string, PDFInt 1); ("First"%string, PDFInt 2)]
    [x05; x00; x07].

Definition declaredAtIndex1 : XRefEntry :=
  {| entryType := InObjectStream;
     reference := {| objectNumber := 5; generation := 0 |};
     offset := 0; objectStream := container; objectStreamIndex := 1 |}.

Definition objectsBeforeStreams : PDFObjects :=
  <[3%nat := {| entryGeneration := 0; object := containerObject |}]>
    (replicate 6 StorageEntry_default).

Definition tableWithStream : PDFXRefTable :=
  {| entries := [declaredAtIndex1]; getTrailerDictionary := PDFDictionaryObject [] |}.
End Sample.

(** ** Further samples *)

Module SampleMore.
(** A revision 2 handler with a 40-bit key whose entry [U] is the one
    computed for the user password ["secret"]. *)
Definition handler2 (U : QByteArray) : PDFStandardSecurityHandler :=
  {| m_V := 1; m_keyLength := 40; m_R := 2;
     m_O := replicate 32 x41; m_U := U;
     m_OE := []; m_UE := []; m_Perms := [];
     m_permissions := 4294967252; m_encryptMetadata := true;
     m_ID := [x01; x02; x03];
     m_cryptFilters := ∅;
     m_filterStreams := Sample.filterDefault;
     m_filterStrings := Sample.filterDefault;
     m_filterEmbeddedFiles := Sample.filterDefault |}.

Definition secret : QByteArray := list_byte_of_string "secret".

Definition secretKey : QByteArray :=
  Eval vm_compute in
    match createFileEncryptionKey (ossl := Sample.openssl) (handler2 []) secret with
    | Ok key => key
    | Throw _ => []
    end.

Definition handlerSecret : PDFStandardSecurityHandler :=
  handler2 (RC4 (OpenSSL := Sample.openssl) secretKey PDFPasswordPadding).

(** A callback that answers ["secret"] to its first invocation. *)
Definition knowsSecret : PasswordCallback :=
  fun n => match n with O => ("secret"%string, true) | _ => (EmptyString, false) end.

(** Devices: a device is open or closed, readable or not, can be opened
    or not, and holds bytes.  The only file is ["document.pdf"]. *)
Record device := {
  deviceOpen : bool;
  deviceReadable : bool;
  deviceOpens : bool;
  deviceExists : bool;
  deviceBytes : QByteArray
}.

Definition openDevice (d : device) : bool * device :=
  if deviceOpens d
  then (true, {| deviceOpen := true; deviceReadable := true; deviceOpens := true;
                 deviceExists := deviceExists d; deviceBytes := deviceBytes d |})
  else (false, d).

Definition closeDevice (d : device) : device :=
  {| deviceOpen := false; deviceReadable := false; deviceOpens := deviceOpens d;
     deviceExists := deviceExists d; deviceBytes := deviceBytes d |}.

#[export] Instance devices : Devices := {|
  QIODevice := device;
  isOpen := deviceOpen;
  isReadable := deviceReadable;
  openReadOnly := openDevice;
  readAll := fun d => (deviceBytes d, d);
  close := closeDevice;
  QFile := fun name =>
    {| deviceOpen := false; deviceReadable := false;
       deviceOpens := String.eqb name "document.pdf";
       deviceExists := String.eqb name "document.pdf";
       deviceBytes := Sample.corrupted |};
  fileExists := deviceExists;
  errorString := fun _ => "cannot open"%string;
  PDFVersion_default := {| major := 0; minor := 0 |}
|}.
(** The document of [Sample.corrupted] with its second object repaired:
    the object at offset 20 says it is object 2. *)
Definition wellFormed : QByteArray :=
  list_byte_of_string "%PDF-1.4"
  ++ [x01; x00] ++ list_byte_of_string "obj" ++ [x07] ++ list_byte_of_string "endobj"
  ++ [x02; x00] ++ list_byte_of_string "obj" ++ [x07] ++ list_byte_of_string "endobj"
  ++ [x03; x00; x00; x00; x01; x08; x00; x01; x14; x00]
  ++ list_byte_of_string "startxref" ++ [x20] ++ list_byte_of_string "%%EOF".

(** Its cross-reference table, and the entries of its two objects. *)
Definition entry1 : XRefEntry :=
  {| entryType := Occupied; reference := {| objectNumber := 1; generation := 0 |};
     offset := 8; objectStream := {| objectNumber := 0; generation := 0 |};
     objectStreamIndex := 0 |}.

Definition entry2 : XRefEntry :=
  {| entryType := Occupied; reference := {| objectNumber := 2; generation := 0 |};
     offset := 20; objectStream := {| objectNumber := 0; generation := 0 |};
     objectStreamIndex := 0 |}.

Definition wellFormedTable : PDFXRefTable :=
  {| entries :=
       [{| entryType := Free; reference := {| objectNumber := 0; generation := 0 |};
           offset := 0; objectStream := {| objectNumber := 0; generation := 0 |};
           objectStreamIndex := 0 |}; entry1; entry2];
     getTrailerDictionary := PDFDictionaryObject [] |}.

(** The same document with both objects damaged: the object at offset 8
    says it is object 8, the one at offset 20 that it is object 9. *)
Definition corruptedTwice : QByteArray :=
  list_byte_of_string "%PDF-1.4"
  ++ [x08; x00] ++ list_byte_of_string "obj" ++ [x07] ++ list_byte_of_string "endobj"
  ++ [x09; x00] ++ list_byte_of_string "obj" ++ [x07] ++ list_byte_of_string "endobj"
  ++ [x03; x00; x00; x00; x01; x08; x00; x01; x14; x00]
  ++ list_byte_of_string "startxref" ++ [x20] ++ list_byte_of_string "%%EOF".

(** Two tasks that both read the flag before either has failed; the
    first task, and then the second, goes on to its [catch] block. *)
Definition bothStarted {A : Type} : ExecutionOrder A :=
  fun _ => [0; 1; 0; 0; 1; 1]%nat.

(** A reader that an earlier read has left failed. *)
Definition readerAfterFailure : PDFDocumentReader :=
  fail Sample.readerAfterReset MsgHeaderNotFound.

(** A trailer whose entry [Encrypt] refers to object 2. *)
Definition trailerEncrypt2 : PDFDictionary :=
  [("Encrypt"%string, PDFReferenceObject {| objectNumber := 2; generation := 0 |})].

(** A device that is open for reading and holds [wellFormed], and the
    same device closed. *)
Definition openedDevice : device :=
  {| deviceOpen := true; deviceReadable := true; deviceOpens := true;
     deviceExists := true; deviceBytes := wellFormed |}.

Definition closedDevice : device :=
  {| deviceOpen := false; deviceReadable := false; deviceOpens := true;
     deviceExists := true; deviceBytes := wellFormed |}.
End SampleMore.

(** * Properties *)

(** ** Bytes *)

Lemma u8_range (b : uint8_t) : 0 <= u8 b < 256.
Proof.
  unfold u8. pose proof (Byte.to_N_bounded b) as Hb. lia.
Qed.

Lemma u8_of_u8 (z : Z) : 0 <= z < 256 -> u8 (of_u8 z) = z.
Proof.
  intros Hz. unfold u8, of_u8.
  rewrite Z.mod_small by lia.
  destruct (Byte.of_N (Z.to_N z)) as [b|] eqn:Hb.
  - apply Byte.to_of_N in Hb. lia.
  - apply Byte.of_N_None_iff in Hb. lia.
Qed.

(** ** Revision 6 hash *)

Section Hash_r6_facts.
Context `{ossl : OpenSSL}.

(** The weights 1, 2, 1, 2, ... of the bits of a byte add up to the byte
    modulo 3, on top of what the accumulator held. *)
Lemma accumulateByte_add (b : uint8_t) (acc : Z) :
  accumulateByte b acc = acc + accumulateByte b 0.
Proof.
  destruct b; unfold accumulateByte; simpl; lia.
Qed.

Lemma accumulateByte_mod3 (b : uint8_t) :
  0 <= accumulateByte b 0 /\ accumulateByte b 0 mod 3 = u8 b mod 3.
Proof.
  destruct b; vm_compute; split; congruence.
Qed.

Lemma foldl_nth_take {A} (f : A -> uint8_t -> A) (E : QByteArray) :
  forall (n k : nat) (a : A),
    (k + n <= length E)%nat ->
    foldl (fun acc i => f acc (nth i E x00)) a (seq k n)
    = foldl f a (take n (drop k E)).
Proof.
  induction n as [|n IH]; intros k a Hlen; simpl.
  - reflexivity.
  - destruct (drop k E) as [|b rest] eqn:Hdrop.
    + apply (f_equal length) in Hdrop. rewrite length_drop in Hdrop. simpl in Hdrop. lia.
    + assert (Hnth : nth k E x00 = b).
      { rewrite <- (take_drop k E) at 1. rewrite Hdrop.
        rewrite app_nth2; rewrite length_take; [|lia].
        replace (k - k `min` length E)%nat with 0%nat by lia. reflexivity. }
      assert (Hrest : rest = drop (S k) E).
      { change (S k) with (1 + k)%nat. rewrite Nat.add_comm, <- drop_drop, Hdrop.
        reflexivity. }
      simpl. rewrite Hnth, IH by lia. rewrite Hrest. reflexivity.
Qed.

Lemma accumulate_bigEndian (bytes : QByteArray) :
  forall acc n : Z,
    0 <= acc -> acc mod 3 = n mod 3 ->
    0 <= foldl (fun acc b => accumulateByte b acc) acc bytes /\
    foldl (fun acc b => accumulateByte b acc) acc bytes mod 3
    = foldl (fun n b => n * 256 + u8 b) n bytes mod 3.
Proof.
  induction bytes as [|b bytes IH]; intros acc n Hacc Hmod; simpl.
  - auto.
  - destruct (accumulateByte_mod3 b) as [Hpos Hb].
    apply IH; rewrite accumulateByte_add; [lia|].
    rewrite Z.add_mod, Hmod, Hb by lia.
    rewrite (Z.add_mod (n * 256)), (Z.mul_mod n 256) by lia.
    change (256 mod 3) with 1. rewrite Z.mul_1_r, Z.mod_mod by lia.
    reflexivity.
Qed.
End Hash_r6_facts.

(** C7.  Step c) of the revision 6 hash: for a buffer [E] of at least 16
    bytes, the accumulation over the bits of [E[0] .. E[15]], with weights
    1, 2, 1, 2, ... restarted at 1 in every byte, reduced modulo 3, is the
    remainder modulo 3 of the unsigned 128-bit big-endian integer that the
    first 16 bytes of [E] form. *)
Theorem remainderModulo3_bigEndian (E : QByteArray) :
  (16 <= length E)%nat ->
  remainderModulo3 E = bigEndian (take 16 E) mod 3.
Proof.
  intros Hlen. unfold remainderModulo3, bigEndian.
  rewrite (foldl_nth_take (fun acc b => accumulateByte b acc) E 16 0 0) by lia.
  rewrite drop_0.
  destruct (accumulate_bigEndian (take 16 E) 0 0) as [Hpos Hmod]; [lia|reflexivity|].
  rewrite Z.rem_mod_nonneg by lia. exact Hmod.
Qed.

Lemma remainderModulo3_bigEndian_witness :
  let E := [xff; x01; x80; x00; x00; x00; x00; x00;
            x00; x00; x00; x00; x00; x00; x00; x07; xaa] in
  (16 <= length E)%nat /\ remainderModulo3 E = bigEndian (take 16 E) mod 3.
Proof.
  intros E. split.
  - simpl. lia.
  - apply (remainderModulo3_bigEndian E). simpl. lia.
Defined.

Section Hash_r6_termination.
Context `{ossl : OpenSSL}.
Variables password userKey K0 : QByteArray.

Let K (n : nat) := fst (stateAfter_r6 n password userKey K0).
Let E (n : nat) := snd (stateAfter_r6 n password userKey K0).

Lemma continue_r6_bound (round : Z) (buf : QByteArray) :
  continue_r6 round buf = true -> round < 287.
Proof.
  unfold continue_r6. pose proof (u8_range (List.last buf x00)). lia.
Qed.

Lemma continue_r6_stop (round : Z) (buf : QByteArray) :
  continue_r6 round buf = false <-> 64 <= round /\ u8 (List.last buf x00) + 32 <= round.
Proof.
  unfold continue_r6. lia.
Qed.

Lemma stateAfter_r6_S (n : nat) :
  hashRound_r6 password userKey (K n) = (K (S n), E (S n)).
Proof.
  unfold K, E. cbn [stateAfter_r6]. destruct (hashRound_r6 _ _ _); reflexivity.
Qed.

(** From the state after [k] passes, a loop with enough fuel ends at the
    first pass count at which its test fails. *)
Lemma hashLoop_r6_from (fuel : nat) :
  forall k : nat,
    (k <= 287)%nat -> (287 <= k + fuel)%nat ->
    (forall m, (m < k)%nat -> continue_r6 (Z.of_nat m) (E m) = true) ->
    exists n : nat,
      (k <= n <= 287)%nat /\
      hashLoop_r6 fuel password userKey (Z.of_nat k) (K k) (E k)
      = (Z.of_nat n, K n, E n) /\
      continue_r6 (Z.of_nat n) (E n) = false /\
      (forall m, (m < n)%nat -> continue_r6 (Z.of_nat m) (E m) = true).
Proof.
  induction fuel as [|fuel IH]; intros k Hk Hfuel Hbefore.
  - assert (k = 287%nat) by lia. subst k.
    destruct (continue_r6 (Z.of_nat 287) (E 287)) eqn:Hc.
    + apply continue_r6_bound in Hc. lia.
    + exists 287%nat. cbn [hashLoop_r6]. rewrite Hc. auto.
  - cbn [hashLoop_r6]. destruct (continue_r6 (Z.of_nat k) (E k)) eqn:Hc.
    + pose proof (continue_r6_bound _ _ Hc) as Hlt.
      rewrite stateAfter_r6_S.
      replace (Z.of_nat k + 1) with (Z.of_nat (S k)) by lia.
      destruct (IH (S k)) as (n & Hn & Hloop & Hstop & Hall); [lia|lia| |].
      * intros m Hm. destruct (decide (m = k)) as [->|]; [exact Hc|].
        apply Hbefore. lia.
      * exists n. repeat split; auto; lia.
    + exists k. repeat split; auto; lia.
Qed.

Lemma hashRound_r6_length `{!OpenSSLSizes} (key : QByteArray) :
  (32 <= length key)%nat -> (32 <= length (fst (hashRound_r6 password userKey key)))%nat.
Proof.
  intros Hkey. unfold hashRound_r6. cbn [fst].
  destruct (remainderModulo3 _) as [|p|p]; [rewrite SHA256_DIGEST_LENGTH; lia| |exact Hkey].
  destruct p as [p|p|]; [exact Hkey| |rewrite SHA384_DIGEST_LENGTH; lia].
  destruct p as [p|p|]; [exact Hkey|exact Hkey|rewrite SHA512_DIGEST_LENGTH; lia].
Qed.

Lemma stateAfter_r6_length `{!OpenSSLSizes} (n : nat) :
  (32 <= length K0)%nat -> (32 <= length (K n))%nat.
Proof.
  intros HK0. induction n as [|n IH]; [exact HK0|].
  unfold K in *. cbn [stateAfter_r6]. apply hashRound_r6_length. exact IH.
Qed.
End Hash_r6_termination.

#[export] Instance Sample_sizes : @OpenSSLSizes Sample.openssl.
Proof.
  split; intros; simpl; unfold Sample.digest, Sample.xorCipher;
    rewrite ?length_app, ?length_map, ?length_seq, ?length_take, ?length_drop;
    try reflexivity; lia.
Qed.

#[export] Instance Sample_blocks : @AESBlocks Sample.openssl.
Proof.
  intros key iv data _. simpl. unfold Sample.xorCipher.
  rewrite length_app, length_map, length_take, length_drop. lia.
Qed.

(** C8.  The revision 6 hash ends for every input, password and context:
    the loop leaves at the first pass count [rounds] that is at least 64
    and at least the last byte of the current [E] plus 32, which is never
    more than 287, whatever the fuel beyond 287; the result is the first
    32 bytes of the digest [K] of that moment, and has 32 bytes. *)
Theorem createHash_r6_terminates `{ossl : OpenSSL} `{sizes : !OpenSSLSizes}
    (m_U input inputPassword : QByteArray) (useUserKey : bool) :
  let userKey := if useUserKey then m_U else [] in
  let K n := fst (stateAfter_r6 n inputPassword userKey (SHA256 input)) in
  let E n := snd (stateAfter_r6 n inputPassword userKey (SHA256 input)) in
  exists rounds : nat,
    (64 <= rounds <= 287)%nat /\
    (forall extra : nat,
        hashLoop_r6 (287 + extra) inputPassword userKey 0 (SHA256 input) []
        = (Z.of_nat rounds, K rounds, E rounds)) /\
    (64 <= Z.of_nat rounds /\ u8 (List.last (E rounds) x00) + 32 <= Z.of_nat rounds) /\
    (forall m : nat, (m < rounds)%nat ->
        Z.of_nat m < 64 \/ Z.of_nat m < u8 (List.last (E m) x00) + 32) /\
    createHash_r6 m_U input inputPassword useUserKey = take 32 (K rounds) /\
    length (createHash_r6 m_U input inputPassword useUserKey) = 32%nat.
Proof.
  intros userKey K E. subst K E. cbv beta.
  destruct (hashLoop_r6_from inputPassword userKey (SHA256 input) 287 0)
    as (n & Hn & Hloop & Hstop & Hall); [lia|lia|intros m Hm; lia|].
  assert (Hcreate : createHash_r6 m_U input inputPassword useUserKey
                    = take 32 (fst (stateAfter_r6 n inputPassword userKey (SHA256 input)))).
  { unfold createHash_r6, roundLimit_r6. fold userKey.
    pose proof Hloop as Hl. cbn [stateAfter_r6 fst snd] in Hl.
    change (Z.of_nat 0) with 0 in Hl. rewrite Hl. reflexivity. }
  pose proof (proj1 (continue_r6_stop _ _) Hstop) as Hstop'.
  exists n. split; [lia|]. split; [|split; [lia|split; [|split]]].
  - intros extra.
    destruct (hashLoop_r6_from inputPassword userKey (SHA256 input) (287 + extra) 0)
      as (n' & Hn' & Hloop' & Hstop2 & Hall'); [lia|lia|intros m Hm; lia|].
    assert (n' = n) as ->.
    { destruct (Nat.lt_trichotomy n' n) as [Hlt|[Heq|Hgt]]; [|exact Heq|].
      - rewrite (Hall n' Hlt) in Hstop2. discriminate Hstop2.
      - rewrite (Hall' n Hgt) in Hstop. discriminate Hstop. }
    cbn [stateAfter_r6 fst snd] in Hloop'. exact Hloop'.
  - intros m Hm. specialize (Hall m Hm). unfold continue_r6 in Hall. lia.
  - exact Hcreate.
  - rewrite Hcreate, length_take.
    pose proof (stateAfter_r6_length inputPassword userKey (SHA256 input) n) as Hlen.
    rewrite SHA256_DIGEST_LENGTH in Hlen. specialize (Hlen ltac:(lia)). lia.
Qed.

Lemma createHash_r6_terminates_witness :
  length (createHash_r6 (ossl := Sample.openssl) [] [x01; x02] [x70; x77] false) = 32%nat.
Proof.
  destruct (@createHash_r6_terminates Sample.openssl Sample_sizes [] [x01; x02] [x70; x77] false)
    as (rounds & _ & _ & _ & _ & _ & Hlength).
  exact Hlength.
Defined.

(** ** [findFromEnd] *)

Section Search_facts.
Variables data what : QByteArray.
Hypothesis what_nonempty : what <> [].

Lemma matchesAt_true (i : nat) :
  matchesAt data what i = true <-> take (length what) (drop i data) = what.
Proof.
  unfold matchesAt. apply bool_decide_eq_true.
Qed.

Lemma matchesAt_inside (i : nat) :
  matchesAt data what i = true -> (i + length what <= length data)%nat.
Proof.
  intros Hm. apply matchesAt_true in Hm. apply (f_equal length) in Hm.
  rewrite length_take, length_drop in Hm.
  assert (length what <> 0%nat) by (destruct what; simpl; congruence). lia.
Qed.

Lemma matchesAt_before_end (i : nat) :
  matchesAt data what i = true -> (i < length data)%nat.
Proof.
  intros Hm. apply matchesAt_inside in Hm.
  assert (length what <> 0%nat) by (destruct what; simpl; congruence). lia.
Qed.

Lemma search_from_spec (steps : nat) :
  forall first : nat,
    (length data < first + steps)%nat ->
    let r := search_from steps data what first in
    (r = length data /\ forall i, (first <= i)%nat -> matchesAt data what i = false) \/
    ((first <= r < length data)%nat /\ matchesAt data what r = true /\
     forall i, (first <= i < r)%nat -> matchesAt data what i = false).
Proof.
  induction steps as [|steps IH]; intros first Hsteps; simpl.
  - left. split; [reflexivity|]. intros i Hi.
    destruct (matchesAt data what i) eqn:Hm; [|reflexivity].
    apply matchesAt_before_end in Hm. lia.
  - destruct (matchesAt data what first) eqn:Hfirst.
    + right. pose proof (matchesAt_before_end _ Hfirst). repeat split; auto; lia.
    + destruct (IH (S first)) as [[Hr Hnone]|(Hr & Hm & Hnone)]; [lia| |].
      * left. split; [exact Hr|]. intros i Hi.
        destruct (decide (i = first)) as [->|]; [exact Hfirst|]. apply Hnone. lia.
      * right. repeat split; auto; try lia. intros i Hi.
        destruct (decide (i = first)) as [->|]; [exact Hfirst|]. apply Hnone. lia.
Qed.

Lemma search_spec (first : nat) :
  let r := search data what first in
  (r = length data /\ forall i, (first <= i)%nat -> matchesAt data what i = false) \/
  ((first <= r < length data)%nat /\ matchesAt data what r = true /\
   forall i, (first <= i < r)%nat -> matchesAt data what i = false).
Proof.
  apply search_from_spec. lia.
Qed.

Lemma find_end_from_spec (steps : nat) :
  forall first result : nat,
    (length data < first + steps)%nat ->
    let r := find_end_from steps data what first result in
    (r = result /\ forall i, (first <= i)%nat -> matchesAt data what i = false) \/
    ((first <= r < length data)%nat /\ matchesAt data what r = true /\
     forall i, (r < i)%nat -> matchesAt data what i = false).
Proof.
  induction steps as [|steps IH]; intros first result Hsteps; cbn [find_end_from].
  - left. split; [reflexivity|]. intros i Hi.
    destruct (matchesAt data what i) eqn:Hm; [|reflexivity].
    apply matchesAt_before_end in Hm. lia.
  - destruct (search_spec first) as [[Hr Hnone]|(Hr & Hm & Hnone)].
    + rewrite Hr, bool_decide_eq_true_2 by reflexivity. left. auto.
    + rewrite bool_decide_eq_false_2 by lia.
      destruct (IH (S (search data what first)) (search data what first))
        as [[Hres Hafter]|(Hres & Hm' & Hafter)]; [lia| |].
      * right. rewrite Hres. repeat split; auto; try lia.
        all: intros i Hi; apply Hafter; lia.
      * right. repeat split; auto; lia.
Qed.

(** [std::find_end]: [last] when nothing matches from [first] on, else the
    start of the last match. *)
Lemma find_end_spec (first : nat) :
  let r := find_end data what first in
  (r = length data /\ forall i, (first <= i)%nat -> matchesAt data what i = false) \/
  ((first <= r < length data)%nat /\ matchesAt data what r = true /\
   forall i, (r < i)%nat -> matchesAt data what i = false).
Proof.
  assert (Hunfold : find_end data what first
                    = find_end_from (S (length data)) data what first (length data)).
  { unfold find_end. pose proof what_nonempty as Hne.
    destruct what; [congruence|reflexivity]. }
  rewrite Hunfold. apply find_end_from_spec. lia.
Qed.
End Search_facts.

Lemma matchesAt_local (d1 d2 what : QByteArray) (first i : nat) :
  drop first d1 = drop first d2 -> (first <= i)%nat ->
  matchesAt d1 what i = matchesAt d2 what i.
Proof.
  intros Hdrop Hi. unfold matchesAt.
  replace i with (first + (i - first))%nat by lia.
  rewrite <- !drop_drop, Hdrop. reflexivity.
Qed.

(** [std::find_end] looks at nothing before [first]. *)
Lemma find_end_local (d1 d2 what : QByteArray) (first : nat) :
  length d1 = length d2 -> drop first d1 = drop first d2 ->
  find_end d1 what first = find_end d2 what first.
Proof.
  intros Hlen Hdrop.
  destruct (decide (what = [])) as [->|Hne]; [simpl; exact Hlen|].
  destruct (find_end_spec d1 what Hne first) as [[Hr1 Hnone1]|(Hr1 & Hm1 & Hafter1)];
    destruct (find_end_spec d2 what Hne first) as [[Hr2 Hnone2]|(Hr2 & Hm2 & Hafter2)].
  - congruence.
  - rewrite <- (matchesAt_local d1 d2 what first) in Hm2 by (auto; lia).
    rewrite Hnone1 in Hm2 by lia. discriminate Hm2.
  - rewrite (matchesAt_local d1 d2 what first) in Hm1 by (auto; lia).
    rewrite Hnone2 in Hm1 by lia. discriminate Hm1.
  - destruct (Nat.lt_trichotomy (find_end d1 what first) (find_end d2 what first))
      as [Hlt|[Heq|Hgt]]; [|exact Heq|].
    + rewrite <- (matchesAt_local d1 d2 what first) in Hm2 by (auto; lia).
      rewrite (Hafter1 _ Hlt) in Hm2. discriminate Hm2.
    + rewrite (matchesAt_local d1 d2 what first) in Hm1 by (auto; lia).
      rewrite (Hafter2 _ Hgt) in Hm1. discriminate Hm1.
Qed.

Lemma occursAt_matchesAt (what byteArray : QByteArray) (limit i : Z) :
  what <> [] -> 0 < limit ->
  occursAt what byteArray limit i <->
  (Z.to_nat (windowStart byteArray limit) <= Z.to_nat i)%nat /\ 0 <= i /\
  matchesAt byteArray what (Z.to_nat i) = true.
Proof.
  intros Hne Hlimit. unfold occursAt, windowStart. rewrite matchesAt_true. split.
  - intros (Hstart & Hend & Hm). repeat split; auto; lia.
  - intros (Hstart & Hpos & Hm). repeat split; auto; [lia|].
    pose proof (matchesAt_inside byteArray what Hne (Z.to_nat i)
                  (proj2 (matchesAt_true _ _ _) Hm)). lia.
Qed.

(** C10.  For every pattern, buffer and positive limit, [findFromEnd]
    answers [FIND_NOT_FOUND_RESULT] or the index at which the last
    occurrence of the pattern inside the trailing window of
    [min(limit, size)] bytes starts, and for a pattern that is not empty it
    answers that index whenever there is an occurrence; it answers
    [FIND_NOT_FOUND_RESULT] when the buffer is empty or the window is
    shorter than the pattern; and its answer is the same for every buffer
    of the same size with the same trailing window, so nothing before the
    window is looked at. *)
Theorem findFromEnd_last_in_window
    (NOT_FOUND : Z) (what byteArray : QByteArray) (limit : Z) :
  0 < limit ->
  let r := findFromEnd NOT_FOUND what byteArray limit in
  (r = NOT_FOUND \/
   (occursAt what byteArray limit r /\
    forall i, occursAt what byteArray limit i -> i <= r)) /\
  (what <> [] ->
   forall i, occursAt what byteArray limit i ->
             occursAt what byteArray limit r /\ i <= r) /\
  (byteArray = [] \/ Z.min (Z.of_nat (length byteArray)) limit < Z.of_nat (length what) ->
   r = NOT_FOUND) /\
  (forall other : QByteArray,
      length other = length byteArray ->
      drop (Z.to_nat (windowStart byteArray limit)) other
      = drop (Z.to_nat (windowStart byteArray limit)) byteArray ->
      findFromEnd NOT_FOUND what other limit = r).
Proof.
  intros Hlimit r.
  assert (Hguard : byteArray = [] \/
                   Z.min (Z.of_nat (length byteArray)) limit < Z.of_nat (length what) ->
                   r = NOT_FOUND).
  { intros [->|Hshort]; subst r; unfold findFromEnd; [reflexivity|].
    destruct (bool_decide (byteArray = [])); [reflexivity|].
    destruct (Z.ltb_spec (Z.min (Z.of_nat (length byteArray)) limit) (Z.of_nat (length what)));
      [reflexivity|lia]. }
  assert (Hlocal : forall other : QByteArray,
             length other = length byteArray ->
             drop (Z.to_nat (windowStart byteArray limit)) other
             = drop (Z.to_nat (windowStart byteArray limit)) byteArray ->
             findFromEnd NOT_FOUND what other limit = r).
  { intros other Hlen Hdrop. subst r. unfold findFromEnd. rewrite Hlen.
    assert (Hnil : bool_decide (other = []) = bool_decide (byteArray = [])).
    { destruct other, byteArray; simpl in Hlen; try discriminate Hlen; reflexivity. }
    rewrite Hnil. destruct (bool_decide (byteArray = [])); [reflexivity|].
    destruct (_ <? _); [reflexivity|].
    unfold windowStart in Hdrop.
    rewrite (find_end_local other byteArray what _ Hlen Hdrop). reflexivity. }
  destruct (decide (what = [])) as [Hempty|Hne].
  { split; [|split; [|split]]; auto; [|intros Hne; destruct (Hne Hempty)].
    left. subst r what. unfold findFromEnd. cbn [find_end].
    destruct (bool_decide (byteArray = [])); [reflexivity|].
    destruct (_ <? _); [reflexivity|].
    rewrite bool_decide_eq_true_2 by reflexivity. reflexivity. }
  assert (Hchar : (r = NOT_FOUND /\ forall i, ~ occursAt what byteArray limit i) \/
                  (occursAt what byteArray limit r /\
                   forall i, occursAt what byteArray limit i -> i <= r)).
  { assert (Hlen : Z.of_nat (length what) <> 0) by (destruct what; simpl; [congruence|lia]).
    assert (Hnone_guard : r = NOT_FOUND -> (byteArray = [] \/
              Z.min (Z.of_nat (length byteArray)) limit < Z.of_nat (length what)) ->
              forall i, ~ occursAt what byteArray limit i).
    { intros _ Hg i (Hstart & Hend & _). unfold windowStart in Hstart.
      destruct Hg as [->|Hshort]; simpl in *; lia. }
    destruct (decide (byteArray = [])) as [Hnil|Hnotnil]; [left; auto|].
    destruct (Z.lt_ge_cases (Z.min (Z.of_nat (length byteArray)) limit) (Z.of_nat (length what)))
      as [Hshort|Hfits]; [left; auto|].
    subst r. unfold findFromEnd.
    rewrite bool_decide_eq_false_2 by exact Hnotnil.
    destruct (Z.ltb_spec (Z.min (Z.of_nat (length byteArray)) limit) (Z.of_nat (length what)));
      [lia|].
    destruct (find_end_spec byteArray what Hne
                (Z.to_nat (Z.of_nat (length byteArray) - Z.min (Z.of_nat (length byteArray)) limit)))
      as [[Hr Hnone]|(Hr & Hm & Hafter)].
    - left. rewrite Hr, bool_decide_eq_true_2 by reflexivity. split; [reflexivity|].
      intros i Hocc.
      apply (occursAt_matchesAt what byteArray limit i Hne Hlimit) in Hocc
        as (Hfirst & Hpos & Hm).
      unfold windowStart in Hfirst. rewrite Hnone in Hm by exact Hfirst. discriminate Hm.
    - right. rewrite bool_decide_eq_false_2 by lia. cbn [negb]. split.
      + apply (occursAt_matchesAt what byteArray limit _ Hne Hlimit).
        unfold windowStart. rewrite Nat2Z.id. repeat split; auto; lia.
      + intros i Hocc.
        apply (occursAt_matchesAt what byteArray limit i Hne Hlimit) in Hocc
          as (Hfirst & Hpos & Hm').
        destruct (Z.le_gt_cases i (Z.of_nat (find_end byteArray what
           (Z.to_nat (Z.of_nat (length byteArray) - Z.min (Z.of_nat (length byteArray)) limit)))))
          as [Hle|Hgt]; [exact Hle|].
        rewrite Hafter in Hm' by lia. discriminate Hm'. }
  split; [|split; [|split]]; auto.
  - destruct Hchar as [[Hr _]|Hlast]; auto.
  - intros _ i Hocc. destruct Hchar as [[_ Hnone]|[Hr Hmax]].
    + destruct (Hnone i Hocc).
    + auto.
Qed.

Example findFromEnd_sample_last :
  findFromEnd (-1) (list_byte_of_string "%%EOF")
    (list_byte_of_string "%PDF-1.4 %%EOF startxref 9 %%EOF ") 1024 = 27.
Proof. reflexivity. Qed.

Example findFromEnd_sample_window :
  findFromEnd (-1) (list_byte_of_string "%%EOF")
    (list_byte_of_string "%PDF-1.4 %%EOF startxref 9 trailing") 12 = -1.
Proof. reflexivity. Qed.

Lemma findFromEnd_last_in_window_witness :
  let what := list_byte_of_string "%%EOF" in
  let byteArray := list_byte_of_string "%PDF-1.4 %%EOF startxref 9 %%EOF " in
  0 < 1024 /\
  (findFromEnd (-1) what byteArray 1024 = -1 \/
   (occursAt what byteArray 1024 (findFromEnd (-1) what byteArray 1024) /\
    forall i, occursAt what byteArray 1024 i -> i <= findFromEnd (-1) what byteArray 1024)).
Proof.
  intros what byteArray. split; [lia|].
  apply (findFromEnd_last_in_window (-1) what byteArray 1024). lia.
Defined.

(** ** [createSecurityHandler] *)

(** Inversion of a step of a computation that ended with [Ok]. *)
Ltac ok_step H :=
  lazymatch type of H with
  | mbind _ ?r = Ok _ =>
      let E := fresh "E" in
      destruct r eqn:E; cbn [mbind Result_bind] in H; [|discriminate H]
  | (if ?c then _ else _) = Ok _ =>
      let E := fresh "E" in
      destruct c eqn:E; try discriminate H
  | match ?p with pair _ _ => _ end = Ok _ => destruct p
  end.

Section CreateSecurityHandler_facts.
Context `{defaults : HandlerDefaults}.

Lemma resolveFilter_Ok (filters : gmap string CryptFilter) (name : string)
    (filter : CryptFilter) :
  resolveFilter filters name = Ok filter -> filters !! name = Some filter.
Proof.
  unfold resolveFilter. destruct (filters !! name); congruence.
Qed.

Lemma readByteArray_Ok (dictionary : PDFDictionary) (key : string) (size : Z)
    (bytes : QByteArray) :
  readByteArray dictionary key size = Ok bytes -> Z.of_nat (length bytes) = size.
Proof.
  unfold readByteArray. destruct (get dictionary key); try discriminate.
  case_bool_decide; congruence.
Qed.

(** What a dictionary that [createSecurityHandler] accepts leaves in the
    handler. *)
Lemma createSecurityHandler_inv (dictionary : PDFDictionary) (id : QByteArray)
    (h : PDFStandardSecurityHandler) :
  createSecurityHandler (PDFDictionaryObject dictionary) id
  = Ok (PDFStandardSecurityHandlerPointer h) ->
  1 <= m_V h <= 5 /\
  (m_R h = 2 \/ m_R h = 3 \/ m_R h = 4 \/ m_R h = 6) /\
  Z.of_nat (length (m_O h)) = (if m_R h =? 6 then 48 else 32) /\
  Z.of_nat (length (m_U h)) = (if m_R h =? 6 then 48 else 32) /\
  m_ID h = id /\
  (m_V h = 4 \/ m_V h = 5 ->
   readCryptFilters dictionary identityFilters = Ok (m_cryptFilters h) /\
   (exists StmF, getName dictionary "StmF" false (Some "Identity"%string) = Ok StmF /\
                 m_cryptFilters h !! StmF = Some (m_filterStreams h)) /\
   (exists StrF, getName dictionary "StrF" false (Some "Identity"%string) = Ok StrF /\
                 m_cryptFilters h !! StrF = Some (m_filterStrings h)) /\
   (if hasKey dictionary "EFF"
    then exists EFF, getName dictionary "EFF" true None = Ok EFF /\
                     m_cryptFilters h !! EFF = Some (m_filterEmbeddedFiles h)
    else m_filterEmbeddedFiles h = m_filterStreams h)).
Proof.
  intros Hcreate. unfold createSecurityHandler in Hcreate.
  repeat ok_step Hcreate.
  injection Hcreate as <-. cbn.
  apply readByteArray_Ok in E7, E8.
  split; [lia|]. split; [lia|].
  split; [destruct (a2 =? 6); exact E7|]. split; [destruct (a2 =? 6); exact E8|].
  split; [reflexivity|].
  intros HV. rewrite (proj2 (orb_true_iff _ _)) in E4 by lia.
  repeat ok_step E4.
  injection E4 as <- <- <- <-.
  split; [reflexivity|]. split; [|split].
  - eexists. split; [reflexivity|]. apply resolveFilter_Ok. assumption.
  - eexists. split; [reflexivity|]. apply resolveFilter_Ok. assumption.
  - match goal with
    | Hx : (if hasKey dictionary "EFF" then _ else _) = Ok _ |- _ => rename Hx into HEFF
    end.
    destruct (hasKey dictionary "EFF").
    + ok_step HEFF. eexists. split; [reflexivity|]. apply resolveFilter_Ok. exact HEFF.
    + congruence.
Qed.
End CreateSecurityHandler_facts.

(** C9.  A Standard handler built with [V] 4 or 5: the filter for streams
    is the entry of the crypt filter table (["Identity"] and the filters of
    [CF]) that [StmF] names; without an entry [EFF] in the dictionary the
    filter for embedded files is the filter for streams, and with it, the
    entry of the table that [EFF] names. *)
Theorem createSecurityHandler_EFF `{defaults : HandlerDefaults}
    (dictionary : PDFDictionary) (id : QByteArray) (h : PDFStandardSecurityHandler) :
  createSecurityHandler (PDFDictionaryObject dictionary) id
  = Ok (PDFStandardSecurityHandlerPointer h) ->
  m_V h = 4 \/ m_V h = 5 ->
  readCryptFilters dictionary identityFilters = Ok (m_cryptFilters h) /\
  (exists StmF, getName dictionary "StmF" false (Some "Identity"%string) = Ok StmF /\
                m_cryptFilters h !! StmF = Some (m_filterStreams h)) /\
  (hasKey dictionary "EFF" = false -> m_filterEmbeddedFiles h = m_filterStreams h) /\
  (hasKey dictionary "EFF" = true ->
   exists EFF, getName dictionary "EFF" true None = Ok EFF /\
               m_cryptFilters h !! EFF = Some (m_filterEmbeddedFiles h)).
Proof.
  intros Hcreate HV.
  destruct (createSecurityHandler_inv dictionary id h Hcreate)
    as (_ & _ & _ & _ & _ & Hfilters).
  destruct (Hfilters HV) as (Htable & HStmF & _ & HEFF).
  split; [exact Htable|]. split; [exact HStmF|].
  split; intros Hkey; rewrite Hkey in HEFF; exact HEFF.
Qed.

Lemma createSecurityHandler_EFF_witness :
  exists h : PDFStandardSecurityHandler,
    createSecurityHandler (defaults := Sample.defaults) (PDFDictionaryObject (Sample.encrypt false)) []
    = Ok (PDFStandardSecurityHandlerPointer h) /\
    (m_V h = 4 \/ m_V h = 5) /\
    m_filterEmbeddedFiles h = m_filterStreams h.
Proof.
  eexists. split; [vm_compute; reflexivity|]. split; [left; reflexivity|].
  refine (proj1 (proj2 (proj2
            (createSecurityHandler_EFF (defaults := Sample.defaults) (Sample.encrypt false) [] _ _ _))) _).
  - vm_compute. reflexivity.
  - left. reflexivity.
  - reflexivity.
Defined.

Example createSecurityHandler_EFF_present :
  exists h : PDFStandardSecurityHandler,
    createSecurityHandler (defaults := Sample.defaults) (PDFDictionaryObject (Sample.encrypt true)) []
    = Ok (PDFStandardSecurityHandlerPointer h) /\
    m_filterStreams h = {| type := FilterAESV2; authEvent := DocOpen |} /\
    m_filterEmbeddedFiles h = {| type := FilterV2; authEvent := EFOpen |}.
Proof.
  eexists. split; [vm_compute; reflexivity|]. split; reflexivity.
Qed.

(** ** Key derivation for revisions 2, 3 and 4 *)

Lemma createPaddedPassword32_take (password : QByteArray) :
  createPaddedPassword32 password = take 32 (password ++ PDFPasswordPadding).
Proof.
  unfold createPaddedPassword32. rewrite take_app. f_equal.
  - destruct (Nat.le_ge_cases 32 (length password)) as [Hle|Hge].
    + rewrite Nat.min_l by exact Hle. reflexivity.
    + rewrite Nat.min_r by exact Hge. rewrite !take_ge by lia. reflexivity.
  - f_equal. lia.
Qed.

Lemma createPaddedPassword32_length (password : QByteArray) :
  length (createPaddedPassword32 password) = 32%nat.
Proof.
  rewrite createPaddedPassword32_take, length_take, length_app.
  change (length PDFPasswordPadding) with 32%nat. lia.
Qed.

(** Digesting a prefix and cutting afterwards is cutting first and then
    digesting and cutting in every pass. *)
Lemma take_iter_digest (digest : QByteArray -> QByteArray) (n count : nat)
    (key : QByteArray) :
  take n (Nat.iter count (fun key => digest (take n key)) key)
  = Nat.iter count (fun key => take n (digest key)) (take n key).
Proof.
  induction count as [|count IH]; simpl.
  - reflexivity.
  - rewrite IH. reflexivity.
Qed.

(** C4, as the code has it.  For revisions 2, 3 and 4 and a key length of
    at most 128 bits, [createFileEncryptionKey] returns the key of the
    design document: the password padded or cut to 32 bytes with the
    padding constant, digested with [O], the permissions as four
    little-endian bytes, the document id and, exactly when metadata is not
    encrypted, four bytes [0xFF]; cut to [keyLengthBits / 8] bytes; and for
    revision 3 and up digested and cut again 50 times.  For a longer key it
    raises an exception. *)
Theorem createFileEncryptionKey_deriveFileKey `{ossl : OpenSSL}
    (h : PDFStandardSecurityHandler) (password : QByteArray) :
  m_R h = 2 \/ m_R h = 3 \/ m_R h = 4 ->
  0 <= m_keyLength h ->
  (m_keyLength h / 8 <= 16 ->
   createFileEncryptionKey h password = Ok (deriveFileKey h password)) /\
  (16 < m_keyLength h / 8 ->
   createFileEncryptionKey h password = Throw (MsgKeyLengthExceeded (m_keyLength h / 8))).
Proof.
  intros HR Hlen. unfold createFileEncryptionKey, deriveFileKey, keyByteLength.
  rewrite bool_decide_eq_true_2 by exact HR.
  rewrite Z.quot_div_nonneg by lia.
  split; intros Hkey.
  - destruct (Z.gtb_spec (m_keyLength h / 8) 16) as [Hgt|_]; [lia|].
    rewrite createPaddedPassword32_take.
    change (littleEndian32 4294967295) with [xff; xff; xff; xff].
    f_equal.
    destruct (Z.geb_spec (m_R h) 3) as [Hge|Hlt]; destruct (Z.leb_spec 3 (m_R h)); try lia.
    + unfold rehash50, keyByteLength. rewrite Z.quot_div_nonneg by lia.
      rewrite take_iter_digest. destruct (m_encryptMetadata h); reflexivity.
    + destruct (m_encryptMetadata h); reflexivity.
  - destruct (Z.gtb_spec (m_keyLength h / 8) 16) as [_|Hle]; [reflexivity|lia].
Qed.

Lemma createFileEncryptionKey_deriveFileKey_witness :
  (m_R Sample.handler40 = 2 \/ m_R Sample.handler40 = 3 \/ m_R Sample.handler40 = 4) /\
  0 <= m_keyLength Sample.handler40 /\
  m_keyLength Sample.handler40 / 8 <= 16 /\
  createFileEncryptionKey (ossl := Sample.openssl) Sample.handler40 [x70; x77]
  = Ok (deriveFileKey (ossl := Sample.openssl) Sample.handler40 [x70; x77]).
Proof.
  assert (HR : m_R Sample.handler40 = 2 \/ m_R Sample.handler40 = 3 \/
               m_R Sample.handler40 = 4) by (right; left; reflexivity).
  assert (Hlen : 0 <= m_keyLength Sample.handler40) by (simpl; lia).
  assert (Hkey : m_keyLength Sample.handler40 / 8 <= 16) by (vm_compute; discriminate).
  split; [exact HR|]. split; [exact Hlen|]. split; [exact Hkey|].
  exact (proj1 (createFileEncryptionKey_deriveFileKey (ossl := Sample.openssl)
                  Sample.handler40 [x70; x77] HR Hlen) Hkey).
Defined.

(** C4, as stated, fails on a dictionary that [createSecurityHandler]
    accepts: revision 3 with a 256-bit key.  The code raises an exception
    where the claim promises the derived key. *)
Lemma createFileEncryptionKey_long_key :
  createSecurityHandler (defaults := Sample.defaults)
    (PDFDictionaryObject Sample.encryptLongKey) []
  = Ok (PDFStandardSecurityHandlerPointer Sample.handlerLongKey) /\
  m_R Sample.handlerLongKey = 3 /\
  createFileEncryptionKey (ossl := Sample.openssl) Sample.handlerLongKey []
  = Throw (MsgKeyLengthExceeded 32) /\
  createFileEncryptionKey (ossl := Sample.openssl) Sample.handlerLongKey []
  <> Ok (deriveFileKey (ossl := Sample.openssl) Sample.handlerLongKey []).
Proof.
  split; [vm_compute; reflexivity|]. split; [reflexivity|].
  split; [vm_compute; reflexivity|]. vm_compute. discriminate.
Qed.

(** ** The entry [U] for revisions 3 and 4 *)

Section EntryValueU_facts.
Context `{ossl : OpenSSL} `{sizes : !OpenSSLSizes}.

Lemma encryptPasses_U_length (key encryptedHash : QByteArray) :
  length (encryptPasses_U key encryptedHash) = length encryptedHash.
Proof.
  unfold encryptPasses_U. generalize (seq 1 19). intros passes.
  revert encryptedHash. induction passes as [|i passes IH]; intros encryptedHash; simpl.
  - reflexivity.
  - rewrite IH. apply RC4_length.
Qed.

Lemma createEntryValueU_r34 (h : PDFStandardSecurityHandler) (key : QByteArray) :
  m_R h = 3 \/ m_R h = 4 ->
  exists encryptedHash : QByteArray,
    length encryptedHash = 16%nat /\
    createEntryValueU_r234 h key = Ok (encryptedHash ++ drop 16 (m_U h)).
Proof.
  intros HR. unfold createEntryValueU_r234.
  destruct (Z.eqb_spec (m_R h) 2) as [H2|_]; [lia|].
  rewrite (proj2 (orb_true_iff _ _)) by lia.
  eexists. split; [|reflexivity].
  rewrite encryptPasses_U_length, RC4_length. apply MD5_DIGEST_LENGTH.
Qed.
End EntryValueU_facts.

Lemma createSecurityHandler_U_length `{defaults : HandlerDefaults}
    (dictionary : PDFDictionary) (id : QByteArray) (h : PDFStandardSecurityHandler) :
  createSecurityHandler (PDFDictionaryObject dictionary) id
  = Ok (PDFStandardSecurityHandlerPointer h) ->
  m_R h <> 6 -> length (m_U h) = 32%nat.
Proof.
  intros Hcreate HR.
  destruct (createSecurityHandler_inv dictionary id h Hcreate) as (_ & _ & _ & HU & _).
  destruct (Z.eqb_spec (m_R h) 6); lia.
Qed.

(** C5.  For a handler of revision 3 or 4 built by [createSecurityHandler]
    and for every file encryption key, the value that
    [createEntryValueU_r234] computes has 32 bytes and its bytes 16 to 31
    are those of the stored entry [U]; so the comparison of the whole value
    with the stored [U] in [authenticate] succeeds exactly when the first
    16 bytes agree. *)
Theorem createEntryValueU_r234_tail `{ossl : OpenSSL} `{sizes : !OpenSSLSizes} `{defaults : HandlerDefaults}
    (dictionary : PDFDictionary) (id : QByteArray) (h : PDFStandardSecurityHandler)
    (fileEncryptionKey : QByteArray) :
  createSecurityHandler (PDFDictionaryObject dictionary) id
  = Ok (PDFStandardSecurityHandlerPointer h) ->
  m_R h = 3 \/ m_R h = 4 ->
  exists U : QByteArray,
    createEntryValueU_r234 h fileEncryptionKey = Ok U /\
    length U = 32%nat /\
    drop 16 U = drop 16 (m_U h) /\
    (bool_decide (U = m_U h) = true <-> take 16 U = take 16 (m_U h)).
Proof.
  intros Hcreate HR.
  pose proof (createSecurityHandler_U_length dictionary id h Hcreate ltac:(lia)) as HU.
  destruct (createEntryValueU_r34 h fileEncryptionKey HR) as (encryptedHash & Hlen & HUval).
  exists (encryptedHash ++ drop 16 (m_U h)).
  split; [exact HUval|].
  split; [rewrite length_app, length_drop; lia|].
  split; [rewrite drop_app_length'; [reflexivity|symmetry; exact Hlen]|].
  rewrite bool_decide_eq_true, take_app_length' by (symmetry; exact Hlen).
  split.
  - intros Heq. rewrite <- Heq.
    rewrite take_app_length'; [reflexivity|symmetry; exact Hlen].
  - intros Heq. rewrite Heq. apply take_drop.
Qed.

Lemma createEntryValueU_r234_tail_witness :
  exists (h : PDFStandardSecurityHandler) (U : QByteArray),
    createSecurityHandler (defaults := Sample.defaults)
      (PDFDictionaryObject (Sample.encrypt false)) []
    = Ok (PDFStandardSecurityHandlerPointer h) /\
    (m_R h = 3 \/ m_R h = 4) /\
    createEntryValueU_r234 (ossl := Sample.openssl) h [x01; x02] = Ok U /\
    drop 16 U = drop 16 (m_U h).
Proof.
  assert (Hcreate : exists h : PDFStandardSecurityHandler,
             createSecurityHandler (defaults := Sample.defaults)
               (PDFDictionaryObject (Sample.encrypt false)) []
             = Ok (PDFStandardSecurityHandlerPointer h) /\ m_R h = 4).
  { eexists. split; [vm_compute; reflexivity|reflexivity]. }
  destruct Hcreate as (h & Hcreate & HR).
  destruct (createEntryValueU_r234_tail (ossl := Sample.openssl) (defaults := Sample.defaults)
              (Sample.encrypt false) [] h [x01; x02] Hcreate (or_intror HR))
    as (U & HU & _ & Hdrop & _).
  exists h, U. auto.
Defined.

(** ** [authenticate] *)

Lemma Ok_inj {A} (a b : A) : Ok a = Ok b -> a = b.
Proof. intros Heq. injection Heq as ->. reflexivity. Qed.

Section Authenticate_facts.
Context `{ossl : OpenSSL}.
Variable h : PDFStandardSecurityHandler.

(** Revision 6, owner check fails and user check succeeds: the key that
    the code stores is decrypted from [OE]. *)
Lemma attempt_r6_user (data : AuthorizationData) (password : QByteArray) :
  m_R h = 6 ->
  isAuthorized data = false ->
  createHash_r6 (m_U h) (password ++ validationSalt (parseParts (m_O h)) ++ m_U h)
    password true <> hash (parseParts (m_O h)) ->
  createHash_r6 (m_U h) (password ++ validationSalt (parseParts (m_U h))) password false
  = hash (parseParts (m_U h)) ->
  attempt h data password
  = Ok (Return UserAuthorized
          {| authorizationResult := UserAuthorized;
             fileEncryptionKey :=
               AES_cbc_decrypt
                 (createHash_r6 (m_U h) (password ++ keySalt (parseParts (m_U h)))
                    password false)
                 (replicate 16 x00) (m_OE h) |}).
Proof.
  intros HR Hdata Howner Huser. unfold attempt.
  rewrite bool_decide_eq_false_2 by lia. rewrite HR. cbn [Z.eqb Pos.eqb].
  unfold attempt_r6.
  rewrite (bool_decide_eq_false_2 _ Howner), Hdata. cbn [negb].
  rewrite (bool_decide_eq_true_2 _ Huser). reflexivity.
Qed.

Lemma attempt_r234_outcome (data : AuthorizationData) (password : QByteArray)
    (outcome : Attempt) :
  attempt_r234 h data password = Ok outcome ->
  outcome = Break data \/
  exists r key, (r = OwnerAuthorized \/ r = UserAuthorized) /\
                outcome = Return r {| authorizationResult := r; fileEncryptionKey := key |}.
Proof.
  unfold attempt_r234. intros Hattempt.
  repeat ok_step Hattempt; injection Hattempt as <-;
    [right; eexists _, _; split; [left; reflexivity|reflexivity]
    |right; eexists _, _; split; [right; reflexivity|reflexivity]
    |left; reflexivity].
Qed.

Lemma attempt_r6_outcome (data : AuthorizationData) (password : QByteArray) :
  attempt_r6 h data password = Break data \/
  exists data', isAuthorized data' = true /\
                attempt_r6 h data password = Return (authorizationResult data') data'.
Proof.
  unfold attempt_r6.
  destruct (bool_decide (_ = hash (parseParts (m_O h)))); cbn [isAuthorized authorizationResult negb].
  - right. eexists {| authorizationResult := OwnerAuthorized |}. split; reflexivity.
  - destruct (isAuthorized data) eqn:Hdata; cbn [negb].
    + right. exists data. rewrite Hdata. auto.
    + destruct (bool_decide (_ = hash (parseParts (m_U h))));
        cbn [isAuthorized authorizationResult].
      * right. eexists {| authorizationResult := UserAuthorized |}. split; reflexivity.
      * rewrite Hdata. left. reflexivity.
Qed.

(** A pass of the loop goes on to the callback only for a supported
    revision and leaves the authorization data alone; it never returns
    [Cancelled] itself. *)
Lemma attempt_Break (data data' : AuthorizationData) (password : QByteArray) :
  attempt h data password = Ok (Break data') ->
  data' = data /\ (m_R h = 2 \/ m_R h = 3 \/ m_R h = 4 \/ m_R h = 6).
Proof.
  unfold attempt. case_bool_decide as HR.
  - intros Hattempt. apply attempt_r234_outcome in Hattempt as [Hb|(r & key & _ & Hr)].
    + injection Hb as ->. split; [reflexivity|tauto].
    + discriminate Hr.
  - destruct (Z.eqb_spec (m_R h) 6) as [H6|_]; [|intros Hf; discriminate Hf].
    intros Hattempt. apply Ok_inj in Hattempt.
    destruct (attempt_r6_outcome data password) as [Hb|(d & _ & Hr)].
    + rewrite Hb in Hattempt. injection Hattempt as ->. split; [reflexivity|tauto].
    + rewrite Hr in Hattempt. discriminate Hattempt.
Qed.

Lemma attempt_Return (data data' : AuthorizationData) (password : QByteArray)
    (r : AuthorizationResult) :
  attempt h data password = Ok (Return r data') -> r <> Cancelled.
Proof.
  unfold attempt. case_bool_decide as HR.
  - intros Hattempt. apply attempt_r234_outcome in Hattempt as [Hb|(r' & key & Hr' & Hr)].
    + discriminate Hb.
    + injection Hr as -> _. destruct Hr' as [->| ->]; intros Hc; discriminate Hc.
  - destruct (m_R h =? 6).
    + intros Hattempt. apply Ok_inj in Hattempt.
      destruct (attempt_r6_outcome data password) as [Hb|(d & Hd & Hr)].
      * rewrite Hb in Hattempt. discriminate Hattempt.
      * rewrite Hr in Hattempt. injection Hattempt as <- _.
        unfold isAuthorized in Hd. intros Hc. rewrite Hc in Hd. discriminate Hd.
    + intros Hattempt. injection Hattempt as <- _. intros Hc. discriminate Hc.
Qed.

(** A pass that returns for a supported revision returns an authorization. *)
Lemma attempt_Return_authorized (data data' : AuthorizationData) (password : QByteArray)
    (r : AuthorizationResult) :
  m_R h = 2 \/ m_R h = 3 \/ m_R h = 4 \/ m_R h = 6 ->
  attempt h data password = Ok (Return r data') ->
  (r = OwnerAuthorized \/ r = UserAuthorized) /\ authorizationResult data' = r.
Proof.
  intros Hsupported. unfold attempt. case_bool_decide as HR.
  - intros Hattempt. apply attempt_r234_outcome in Hattempt as [Hb|(r' & key & Hr' & Hr)].
    + discriminate Hb.
    + injection Hr as -> ->. split; [exact Hr'|reflexivity].
  - destruct (Z.eqb_spec (m_R h) 6) as [H6|Hn6]; [|tauto].
    intros Hattempt. apply Ok_inj in Hattempt.
    destruct (attempt_r6_outcome data password) as [Hb|(d & Hd & Hr)].
    + rewrite Hb in Hattempt. discriminate Hattempt.
    + rewrite Hr in Hattempt. injection Hattempt as <- <-. split; [|reflexivity].
      unfold isAuthorized in Hd. destruct (authorizationResult d); auto; discriminate Hd.
Qed.
End Authenticate_facts.

Section Authenticate_loop.
Context `{ossl : OpenSSL}.
Variable h : PDFStandardSecurityHandler.
Variable getPasswordCallback : PasswordCallback.

Let notAuthorized (password : QByteArray) : Prop :=
  attempt h AuthorizationData_default password = Ok (Break AuthorizationData_default).

Lemma authenticateLoop_Cancelled (fuel : nat) :
  forall (invocations : nat) (password : QByteArray) (data : AuthorizationData) (n : nat),
    authenticateLoop h fuel getPasswordCallback invocations
      AuthorizationData_default password
    = (Some (Ok (Cancelled, data)), n)
    <->
    exists k : nat,
      n = S k /\ (invocations <= k < invocations + fuel)%nat /\
      snd (getPasswordCallback k) = false /\
      (forall j, (invocations <= j < k)%nat -> snd (getPasswordCallback j) = true) /\
      notAuthorized password /\
      (forall j, (invocations < j <= k)%nat ->
                 notAuthorized (candidate getPasswordCallback j)) /\
      data = AuthorizationData_default.
Proof.
  unfold notAuthorized.
  induction fuel as [|fuel IH]; intros invocations password data n; cbn [authenticateLoop].
  - split; [intros Hf; discriminate Hf|intros (k & _ & Hk & _); lia].
  - destruct (attempt h AuthorizationData_default password) as [[r d|d]|m] eqn:Hattempt.
    + split.
      * intros Hres. injection Hres as -> _ _.
        destruct (attempt_Return h _ _ _ _ Hattempt eq_refl).
      * intros (k & _ & _ & _ & _ & Hf & _). discriminate Hf.
    + destruct (attempt_Break h _ _ _ Hattempt) as [-> _].
      destruct (getPasswordCallback invocations) as [answer passwordObtained] eqn:Hcb.
      destruct passwordObtained.
      * rewrite IH. split.
        -- intros (k & Hn & Hk & Hlast & Hbefore & Hfirst & Hrest & Hdata).
           exists k. split; [exact Hn|]. split; [lia|]. split; [exact Hlast|].
           split; [|split; [reflexivity|split; [|exact Hdata]]].
           ++ intros j Hj. destruct (decide (j = invocations)) as [->|Hne].
              ** rewrite Hcb. reflexivity.
              ** apply Hbefore. lia.
           ++ intros j Hj. destruct (decide (j = S invocations)) as [->|Hne].
              ** cbn [candidate]. rewrite Hcb. exact Hfirst.
              ** apply Hrest. lia.
        -- intros (k & Hn & Hk & Hlast & Hbefore & _ & Hrest & Hdata).
           assert (k <> invocations) by (intros ->; rewrite Hcb in Hlast; discriminate Hlast).
           exists k. split; [exact Hn|]. split; [lia|]. split; [exact Hlast|].
           split; [intros j Hj; apply Hbefore; lia|].
           split; [|split; [intros j Hj; apply Hrest; lia|exact Hdata]].
           specialize (Hrest (S invocations) ltac:(lia)).
           cbn [candidate] in Hrest. rewrite Hcb in Hrest. exact Hrest.
      * split.
        -- intros Hres. injection Hres as <- <-.
           exists invocations. split; [reflexivity|]. split; [lia|].
           split; [rewrite Hcb; reflexivity|].
           split; [intros j Hj; lia|]. split; [reflexivity|].
           split; [intros j Hj; lia|reflexivity].
        -- intros (k & Hn & Hk & Hlast & Hbefore & _ & _ & Hdata).
           assert (k = invocations) as ->.
           { destruct (decide (k = invocations)) as [Heq|Hne]; [exact Heq|].
             specialize (Hbefore invocations ltac:(lia)).
             rewrite Hcb in Hbefore. discriminate Hbefore. }
           rewrite Hn, Hdata. reflexivity.
    + split.
      * intros Hf. discriminate Hf.
      * intros (k & _ & _ & _ & _ & Hf & _). discriminate Hf.
Qed.

Lemma authenticate_unsupported (fuel : nat) :
  ~ (m_R h = 2 \/ m_R h = 3 \/ m_R h = 4 \/ m_R h = 6) ->
  authenticate h (S fuel) getPasswordCallback
  = (Some (Ok (Failed, AuthorizationData_default)), 0%nat).
Proof.
  intros HR. unfold authenticate. cbn [authenticateLoop]. unfold attempt.
  rewrite bool_decide_eq_false_2 by tauto.
  destruct (Z.eqb_spec (m_R h) 6) as [H6|_]; [tauto|]. reflexivity.
Qed.
End Authenticate_loop.

(** C6.  [authenticate] returns [Cancelled] exactly when the callback, at
    some invocation, leaves its flag false while every earlier invocation
    left it true and none of the passwords tried until then (the empty one
    first, then the answers of the callback) authorized: each of those
    passes left the switch through its [break], where the only other way
    out of a pass for a supported revision is an authorization or an
    exception.  The callback has then been invoked once more than it
    answered with a true flag.  For a revision other than 2, 3, 4 and 6
    [authenticate] returns [Failed] in its first pass, and the callback has
    not been invoked. *)
Theorem authenticate_Cancelled_Failed `{ossl : OpenSSL}
    (h : PDFStandardSecurityHandler) (getPasswordCallback : PasswordCallback) :
  (forall (fuel : nat) (data : AuthorizationData) (invocations : nat),
      authenticate h fuel getPasswordCallback = (Some (Ok (Cancelled, data)), invocations)
      <->
      exists k : nat,
        invocations = S k /\ (k < fuel)%nat /\
        snd (getPasswordCallback k) = false /\
        (forall j, (j < k)%nat -> snd (getPasswordCallback j) = true) /\
        (forall j, (j <= k)%nat ->
                   attempt h AuthorizationData_default (candidate getPasswordCallback j)
                   = Ok (Break AuthorizationData_default)) /\
        data = AuthorizationData_default) /\
  (forall (password : QByteArray) (r : AuthorizationResult) (data : AuthorizationData),
      m_R h = 2 \/ m_R h = 3 \/ m_R h = 4 \/ m_R h = 6 ->
      attempt h AuthorizationData_default password = Ok (Return r data) ->
      (r = OwnerAuthorized \/ r = UserAuthorized) /\ authorizationResult data = r) /\
  (forall fuel : nat,
      ~ (m_R h = 2 \/ m_R h = 3 \/ m_R h = 4 \/ m_R h = 6) ->
      authenticate h (S fuel) getPasswordCallback
      = (Some (Ok (Failed, AuthorizationData_default)), 0%nat)).
Proof.
  split; [|split; [intros password r data HR; apply attempt_Return_authorized; exact HR
                  |intros fuel HR; apply authenticate_unsupported; exact HR]].
  intros fuel data invocations. unfold authenticate.
  rewrite authenticateLoop_Cancelled. split.
  - intros (k & Hn & Hk & Hlast & Hbefore & Hfirst & Hrest & Hdata).
    exists k. split; [exact Hn|]. split; [lia|]. split; [exact Hlast|].
    split; [intros j Hj; apply Hbefore; lia|]. split; [|exact Hdata].
    intros j Hj. destruct j as [|j]; [exact Hfirst|apply Hrest; lia].
  - intros (k & Hn & Hk & Hlast & Hbefore & Hall & Hdata).
    exists k. split; [exact Hn|]. split; [lia|]. split; [exact Hlast|].
    split; [intros j Hj; apply Hbefore; lia|].
    split; [exact (Hall 0%nat ltac:(lia))|]. split; [|exact Hdata].
    intros j Hj. apply Hall. lia.
Qed.

Lemma authenticate_Cancelled_Failed_witness :
  authenticate (ossl := Sample.openssl) Sample.handler40 3 Sample.guessOnce
  = (Some (Ok (Cancelled, AuthorizationData_default)), 2%nat) /\
  authenticate (ossl := Sample.openssl) Sample.handler5 1 Sample.guessOnce
  = (Some (Ok (Failed, AuthorizationData_default)), 0%nat).
Proof.
  split.
  - apply (proj1 (authenticate_Cancelled_Failed (ossl := Sample.openssl)
                    Sample.handler40 Sample.guessOnce)).
    exists 1%nat. split; [reflexivity|]. split; [lia|]. split; [reflexivity|].
    split; [intros j Hj; assert (j = 0%nat) as -> by lia; reflexivity|].
    split; [|reflexivity].
    intros j Hj. destruct j as [|[|j]]; [vm_compute; reflexivity|vm_compute; reflexivity|lia].
  - apply (proj2 (proj2 (authenticate_Cancelled_Failed (ossl := Sample.openssl)
                           Sample.handler5 Sample.guessOnce))).
    simpl. lia.
Defined.

(** C2 against the code.  A revision 6 dictionary that
    [createSecurityHandler] accepts, with different [OE] and [UE] and with
    the empty password as user password: the owner check fails, the user
    check succeeds, [authenticate] returns [UserAuthorized] without asking
    for a password, and the key it stores is the decryption of [OE] under
    the key derived from the password and the user key salt, which is not
    the decryption of [UE]. *)
Theorem authenticate_r6_user_key_from_OE :
  let h := Sample.handler6 in
  let decryptionKey :=
    createHash_r6 (ossl := Sample.openssl) (m_U h) ([] ++ keySalt (parseParts (m_U h))) [] false in
  createSecurityHandler (defaults := Sample.defaults) (PDFDictionaryObject Sample.encrypt6) []
  = Ok (PDFStandardSecurityHandlerPointer h) /\
  createHash_r6 (ossl := Sample.openssl) (m_U h)
    ([] ++ validationSalt (parseParts (m_O h)) ++ m_U h) [] true
  <> hash (parseParts (m_O h)) /\
  createHash_r6 (ossl := Sample.openssl) (m_U h)
    ([] ++ validationSalt (parseParts (m_U h))) [] false
  = hash (parseParts (m_U h)) /\
  authenticate (ossl := Sample.openssl) h 1 Sample.decline
  = (Some (Ok (UserAuthorized,
               {| authorizationResult := UserAuthorized;
                  fileEncryptionKey :=
                    AES_cbc_decrypt (OpenSSL := Sample.openssl) decryptionKey
                      (replicate 16 x00) (m_OE h) |})),
     0%nat) /\
  AES_cbc_decrypt (OpenSSL := Sample.openssl) decryptionKey (replicate 16 x00) (m_OE h)
  <> AES_cbc_decrypt (OpenSSL := Sample.openssl) decryptionKey (replicate 16 x00) (m_UE h).
Proof.
  intros h decryptionKey.
  assert (Howner : createHash_r6 (ossl := Sample.openssl) (m_U h)
                     ([] ++ validationSalt (parseParts (m_O h)) ++ m_U h) [] true
                   <> hash (parseParts (m_O h))).
  { vm_compute. intros Hc. discriminate Hc. }
  assert (Huser : createHash_r6 (ossl := Sample.openssl) (m_U h)
                    ([] ++ validationSalt (parseParts (m_U h))) [] false
                  = hash (parseParts (m_U h))).
  { vm_compute. reflexivity. }
  split; [vm_compute; reflexivity|]. split; [exact Howner|]. split; [exact Huser|].
  split.
  - unfold authenticate. cbn [authenticateLoop].
    rewrite (attempt_r6_user (ossl := Sample.openssl) h AuthorizationData_default []
               eq_refl eq_refl Howner Huser).
    reflexivity.
  - subst decryptionKey. vm_compute. intros Hc. discriminate Hc.
Qed.

(** ** Slots of the vector [objects] *)

Lemma slot_setSlotObject_ne (objs : PDFObjects) (n n' : Z) (o : PDFObject) :
  n <> n' -> slot (setSlotObject objs n' o) n = slot objs n.
Proof.
  intros Hne. unfold setSlotObject, setSlot, slot.
  destruct (Z.ltb_spec n' 0); [reflexivity|].
  destruct (Z.ltb_spec n 0); [reflexivity|].
  rewrite list_lookup_insert_ne by lia. reflexivity.
Qed.

Lemma slot_setSlotObject_generation (objs : PDFObjects) (n n' : Z) (o : PDFObject) :
  entryGeneration (slot (setSlotObject objs n' o) n) = entryGeneration (slot objs n).
Proof.
  destruct (decide (n = n')) as [->|Hne]; [|rewrite slot_setSlotObject_ne by exact Hne; reflexivity].
  unfold setSlotObject, setSlot, slot.
  destruct (Z.ltb_spec n' 0); [reflexivity|].
  destruct (objs !! Z.to_nat n') as [e|] eqn:He.
  - rewrite list_lookup_insert_eq by (apply lookup_lt_Some in He; exact He). reflexivity.
  - rewrite list_insert_ge by (apply lookup_ge_None in He; exact He).
    rewrite He. reflexivity.
Qed.

(** ** The parallel loops *)

Section ForEach_facts.
Context {A : Type}.
Variable plan : PDFObjects -> A -> list Action.
Variable tasks : list A.

Lemma move_inv (loop loop' : Loop) (i : nat) :
  move plan tasks loop i = Returns loop' ->
  loop' = loop \/
  (exists a, tasks !! i = Some a /\ statuses loop !! i = Some NotStarted /\
             loop' = setStatus loop i
                       (if m_successfull (loopReader loop) then Started else Running [])) \/
  (exists a, tasks !! i = Some a /\ statuses loop !! i = Some Started /\
             loop' = setStatus loop i (Running (plan (loopObjects loop) a))) \/
  (exists a action rest reader objs,
      tasks !! i = Some a /\ statuses loop !! i = Some (Running (action :: rest)) /\
      perform action (loopReader loop, loopObjects loop) = Returns (reader, objs) /\
      loop' = {| loopReader := reader;
                 loopObjects := objs;
                 recorded := match action with
                             | Record m => m :: recorded loop
                             | _ => recorded loop
                             end;
                 statuses := <[i := Running rest]> (statuses loop) |}).
Proof.
  unfold move. intros Hmove.
  destruct (tasks !! i) as [a|] eqn:Htask; [|left; injection Hmove as <-; reflexivity].
  destruct (statuses loop !! i) as [[| |[|action rest]]|] eqn:Hstatus.
  - injection Hmove as <-. right. left. exists a. auto.
  - injection Hmove as <-. right. right. left. exists a. auto.
  - injection Hmove as <-. left. reflexivity.
  - destruct (perform action (loopReader loop, loopObjects loop)) as [[reader objs]|e]
      eqn:Hperform; [|discriminate Hmove].
    injection Hmove as <-. right. right. right.
    exists a, action, rest, reader, objs. auto.
  - injection Hmove as <-. left. reflexivity.
Qed.

Lemma move_NotStarted (loop : Loop) (i : nat) (a : A) :
  tasks !! i = Some a -> statuses loop !! i = Some NotStarted ->
  move plan tasks loop i
  = Returns (setStatus loop i
               (if m_successfull (loopReader loop) then Started else Running [])).
Proof. intros Ha Hs. unfold move. rewrite Ha, Hs. reflexivity. Qed.

Lemma move_Started (loop : Loop) (i : nat) (a : A) :
  tasks !! i = Some a -> statuses loop !! i = Some Started ->
  move plan tasks loop i = Returns (setStatus loop i (Running (plan (loopObjects loop) a))).
Proof. intros Ha Hs. unfold move. rewrite Ha, Hs. reflexivity. Qed.

Lemma move_done (loop : Loop) (i : nat) :
  statuses loop !! i = Some (Running []) -> move plan tasks loop i = Returns loop.
Proof. intros Hs. unfold move. rewrite Hs. destruct (tasks !! i); reflexivity. Qed.

Lemma move_Running (loop : Loop) (i : nat) (a : A) (action : Action) (rest : list Action) :
  tasks !! i = Some a -> statuses loop !! i = Some (Running (action :: rest)) ->
  move plan tasks loop i
  = '(reader, objs) ← perform action (loopReader loop, loopObjects loop);
    Returns {| loopReader := reader;
               loopObjects := objs;
               recorded := match action with
                           | Record m => m :: recorded loop
                           | _ => recorded loop
                           end;
               statuses := <[i := Running rest]> (statuses loop) |}.
Proof. intros Ha Hs. unfold move. rewrite Ha, Hs. reflexivity. Qed.

Lemma perform_inv (action : Action) (reader reader' : PDFDocumentReader)
    (objs objs' : PDFObjects) :
  perform action (reader, objs) = Returns (reader', objs') ->
  (exists n entry, action = Store n entry /\ reader' = reader /\ objs' = setSlot objs n entry) \/
  (exists n o, action = StoreObject n o /\ reader' = reader /\
               objs' = setSlotObject objs n o) \/
  (exists m, action = Record m /\ reader' = fail reader m /\ objs' = objs).
Proof.
  destruct action as [n entry|n o|m|e]; cbn [perform]; intros Hperform;
    [|  | |discriminate Hperform]; injection Hperform as <- <-.
  - left. eauto.
  - right. left. eauto.
  - right. right. eauto.
Qed.

Lemma length_statuses_move (loop loop' : Loop) (i : nat) :
  move plan tasks loop i = Returns loop' ->
  length (statuses loop') = length (statuses loop).
Proof.
  intros Hmove.
  destruct (move_inv _ _ _ Hmove)
    as [->|[(a & _ & _ & ->)|[(a & _ & _ & ->)|(a & action & rest & reader & objs & _ & _ & _ & ->)]]];
    cbn [setStatus statuses]; rewrite ?length_insert; reflexivity.
Qed.

Lemma done_move (loop loop' : Loop) (i j : nat) :
  statuses loop !! j = Some (Running []) ->
  move plan tasks loop i = Returns loop' ->
  statuses loop' !! j = Some (Running []).
Proof.
  intros Hdone Hmove.
  destruct (decide (i = j)) as [->|Hne].
  - unfold move in Hmove. rewrite Hdone in Hmove.
    destruct (tasks !! j); injection Hmove as <-; exact Hdone.
  - destruct (move_inv _ _ _ Hmove)
      as [->|[(a & _ & _ & ->)|[(a & _ & _ & ->)|(a & action & rest & reader & objs & _ & _ & _ & ->)]]];
      cbn [setStatus statuses]; rewrite ?list_lookup_insert_ne by exact Hne; exact Hdone.
Qed.

(** A property of the loop that every move keeps holds when the loop has
    ended, and then every task is done. *)
Section Invariant.
Variable I : Loop -> Prop.
Hypothesis I_move :
  forall loop i loop', I loop -> move plan tasks loop i = Returns loop' -> I loop'.

Lemma moves_invariant (schedule : list nat) :
  forall loop loop', I loop -> moves plan tasks schedule loop = Returns loop' -> I loop'.
Proof.
  induction schedule as [|i schedule IH]; intros loop loop' HI Hmoves; cbn [moves] in Hmoves.
  - injection Hmoves as <-. exact HI.
  - destruct (move plan tasks loop i) as [loop1|e] eqn:Hmove; [|discriminate Hmoves].
    exact (IH _ _ (I_move _ _ _ HI Hmove) Hmoves).
Qed.

Lemma finish_invariant (loop loop' : Loop) (i : nat) :
  I loop -> finish plan tasks loop i = Returns loop' -> I loop'.
Proof.
  unfold finish. intros HI Hfinish.
  destruct (moves plan tasks [i; i] loop) as [loop1|e] eqn:Hfirst; [|discriminate Hfinish].
  exact (moves_invariant _ _ _ (moves_invariant _ _ _ HI Hfirst) Hfinish).
Qed.

Lemma join_invariant (positions : list nat) :
  forall loop loop', I loop -> join plan tasks positions loop = Returns loop' -> I loop'.
Proof.
  induction positions as [|i positions IH]; intros loop loop' HI Hjoin; cbn [join] in Hjoin.
  - injection Hjoin as <-. exact HI.
  - destruct (finish plan tasks loop i) as [loop1|e] eqn:Hfinish; [|discriminate Hjoin].
    exact (IH _ _ (finish_invariant _ _ _ HI Hfinish) Hjoin).
Qed.
End Invariant.

Lemma moves_replicate_done (i : nat) (queue : list Action) :
  forall loop loop',
    (i < length tasks)%nat ->
    length (statuses loop) = length tasks ->
    statuses loop !! i = Some (Running queue) ->
    moves plan tasks (replicate (length queue) i) loop = Returns loop' ->
    statuses loop' !! i = Some (Running []).
Proof.
  induction queue as [|action rest IH]; intros loop loop' Hi Hlen Hstatus Hmoves;
    cbn [length replicate moves] in Hmoves.
  - injection Hmoves as <-. exact Hstatus.
  - destruct (move plan tasks loop i) as [loop1|e] eqn:Hmove; [|discriminate Hmoves].
    apply (IH loop1 loop' Hi); [|  |exact Hmoves].
    + rewrite (length_statuses_move _ _ _ Hmove). exact Hlen.
    + unfold move in Hmove. rewrite Hstatus in Hmove.
      destruct (tasks !! i) as [a|] eqn:Htask.
      * destruct (perform action _) as [[reader objs]|e]; [|discriminate Hmove].
        injection Hmove as <-. cbn [statuses].
        apply list_lookup_insert_eq. lia.
      * apply lookup_ge_None in Htask. lia.
Qed.

Lemma moves_twice_running (loop loop' : Loop) (i : nat) :
  (i < length tasks)%nat ->
  length (statuses loop) = length tasks ->
  moves plan tasks [i; i] loop = Returns loop' ->
  exists queue, statuses loop' !! i = Some (Running queue).
Proof.
  intros Hi Hlen Hmoves. cbn [moves] in Hmoves.
  destruct (move plan tasks loop i) as [loop1|e] eqn:Hfirst; [|discriminate Hmoves].
  cbn [mbind Outcome_bind] in Hmoves.
  destruct (move plan tasks loop1 i) as [loop2|e] eqn:Hsecond; [|discriminate Hmoves].
  cbn [mbind Outcome_bind] in Hmoves. injection Hmoves as <-.
  pose proof (length_statuses_move _ _ _ Hfirst) as Hlen1.
  assert (Hstep : forall l l', length (statuses l) = length tasks ->
                     move plan tasks l i = Returns l' ->
                     (exists queue, statuses l' !! i = Some (Running queue)) \/
                     (statuses l !! i = Some NotStarted /\
                      statuses l' !! i = Some Started)).
  { intros l l' Hl Hmove.
    destruct (lookup_lt_is_Some_2 (statuses l) i) as [status Hstatus]; [lia|].
    destruct (move_inv _ _ _ Hmove)
      as [->|[(a & _ & Hs & ->)|[(a & _ & Hs & ->)|(a & action & rest & reader & objs & _ & Hs & _ & ->)]]];
      cbn [setStatus statuses]; rewrite ?list_lookup_insert_eq by lia.
    - unfold move in Hmove. rewrite Hstatus in Hmove.
      destruct (lookup_lt_is_Some_2 tasks i Hi) as [a Ha]. rewrite Ha in Hmove.
      destruct status as [| |[|action rest]]; try (left; eauto; fail).
      + injection Hmove as Heq. apply (f_equal statuses) in Heq.
        cbn [setStatus statuses] in Heq.
        apply (f_equal (fun l => l !! i)) in Heq.
        rewrite list_lookup_insert_eq, Hstatus in Heq by lia.
        destruct (m_successfull (loopReader l)); discriminate Heq.
      + injection Hmove as Heq. apply (f_equal statuses) in Heq.
        cbn [setStatus statuses] in Heq.
        apply (f_equal (fun l => l !! i)) in Heq.
        rewrite list_lookup_insert_eq, Hstatus in Heq by lia. discriminate Heq.
    - destruct (m_successfull (loopReader l)); [right; auto|left; eauto].
    - left. eauto.
    - left. eauto. }
  destruct (Hstep _ _ Hlen Hfirst) as [[queue Hqueue]|[_ Hstarted]].
  - unfold move in Hsecond. rewrite Hqueue in Hsecond.
    destruct (lookup_lt_is_Some_2 tasks i Hi) as [a Ha]. rewrite Ha in Hsecond.
    destruct queue as [|action rest].
    + injection Hsecond as <-. eauto.
    + destruct (perform action _) as [[reader objs]|e]; [|discriminate Hsecond].
      injection Hsecond as <-. cbn [statuses].
      rewrite list_lookup_insert_eq by lia. eauto.
  - destruct (Hstep _ _ (eq_trans Hlen1 Hlen) Hsecond) as [Hqueue|[Hc _]]; [exact Hqueue|].
    rewrite Hstarted in Hc. discriminate Hc.
Qed.

Lemma finish_done (loop loop' : Loop) (i : nat) :
  (i < length tasks)%nat ->
  length (statuses loop) = length tasks ->
  finish plan tasks loop i = Returns loop' ->
  statuses loop' !! i = Some (Running []).
Proof.
  unfold finish. intros Hi Hlen Hfinish.
  destruct (moves plan tasks [i; i] loop) as [loop1|e] eqn:Hfirst; [|discriminate Hfinish].
  cbn [mbind Outcome_bind] in Hfinish.
  destruct (moves_twice_running _ _ _ Hi Hlen Hfirst) as [queue Hqueue].
  assert (Hlen1 : length (statuses loop1) = length tasks).
  { apply (moves_invariant (fun l => length (statuses l) = length tasks)) in Hfirst;
      [exact Hfirst| |exact Hlen].
    intros l k l' Hl Hmove. rewrite (length_statuses_move _ _ _ Hmove). exact Hl. }
  unfold queueOf in Hfinish. rewrite Hqueue in Hfinish.
  exact (moves_replicate_done i queue _ _ Hi Hlen1 Hqueue Hfinish).
Qed.

Lemma join_done (positions : list nat) :
  forall loop loop',
    Forall (fun i => (i < length tasks)%nat) positions ->
    length (statuses loop) = length tasks ->
    join plan tasks positions loop = Returns loop' ->
    length (statuses loop') = length tasks /\
    forall i, (i ∈ positions \/ statuses loop !! i = Some (Running [])) ->
              statuses loop' !! i = Some (Running []).
Proof.
  induction positions as [|k positions IH]; intros loop loop' Hin Hlen Hjoin;
    cbn [join] in Hjoin.
  - injection Hjoin as <-. split; [exact Hlen|].
    intros i [Hi|Hi]; [apply elem_of_nil in Hi; destruct Hi|exact Hi].
  - destruct (finish plan tasks loop k) as [loop1|e] eqn:Hfinish; [|discriminate Hjoin].
    cbn [mbind Outcome_bind] in Hjoin.
    apply Forall_cons in Hin as [Hk Hin].
    assert (Hlen1 : length (statuses loop1) = length tasks).
    { apply (finish_invariant (fun l => length (statuses l) = length tasks)) in Hfinish;
        [exact Hfinish| |exact Hlen].
      intros l j l' Hl Hmove. rewrite (length_statuses_move _ _ _ Hmove). exact Hl. }
    destruct (IH _ _ Hin Hlen1 Hjoin) as [Hlen' Hdone]. split; [exact Hlen'|].
    intros i [Hi|Hi].
    + apply elem_of_cons in Hi as [->|Hi]; [|apply Hdone; left; exact Hi].
      apply Hdone. right. exact (finish_done _ _ _ Hk Hlen Hfinish).
    + apply Hdone. right.
      apply (finish_invariant (fun l => statuses l !! i = Some (Running []))) in Hfinish;
        [exact Hfinish| |exact Hi].
      intros l j l' Hl Hmove. exact (done_move _ _ _ _ Hl Hmove).
Qed.

(** What a loop that returns has come through: a state of the loop in
    which every task is done and every property that the moves keep
    holds. *)
Lemma forEach_invariant (I : Loop -> Prop) (schedule : list nat)
    (reader reader' : PDFDocumentReader) (objs objs' : PDFObjects) (log : list Message) :
  (forall loop i loop', I loop -> move plan tasks loop i = Returns loop' -> I loop') ->
  I {| loopReader := reader; loopObjects := objs; recorded := [];
       statuses := replicate (length tasks) NotStarted |} ->
  forEach plan tasks schedule (reader, objs) = Returns (reader', objs', log) ->
  exists loop',
    I loop' /\ loopReader loop' = reader' /\ loopObjects loop' = objs' /\
    recorded loop' = log /\
    forall i, (i < length tasks)%nat -> statuses loop' !! i = Some (Running []).
Proof.
  intros I_move Hinit Hrun. unfold forEach in Hrun. cbn [fst snd] in Hrun.
  destruct (moves plan tasks schedule _) as [loop1|e] eqn:Hmoves; [|discriminate Hrun].
  cbn [mbind Outcome_bind] in Hrun.
  destruct (join plan tasks (seq 0 (length tasks)) loop1) as [loop2|e] eqn:Hjoin;
    [|discriminate Hrun].
  cbn [mbind Outcome_bind mret Outcome_ret] in Hrun. injection Hrun as <- <- <-.
  exists loop2.
  pose proof (moves_invariant I I_move _ _ _ Hinit Hmoves) as HI1.
  split; [exact (join_invariant I I_move _ _ _ HI1 Hjoin)|].
  split; [reflexivity|]. split; [reflexivity|]. split; [reflexivity|].
  assert (Hlen1 : length (statuses loop1) = length tasks).
  { apply (moves_invariant (fun l => length (statuses l) = length tasks)) in Hmoves.
    - exact Hmoves.
    - intros l k l' Hl Hmove. rewrite (length_statuses_move _ _ _ Hmove). exact Hl.
    - cbn [statuses]. apply length_replicate. }
  assert (Hin : Forall (fun i => (i < length tasks)%nat) (seq 0 (length tasks))).
  { apply Forall_forall. intros i Hi. apply elem_of_seq in Hi. lia. }
  destruct (join_done _ _ _ Hin Hlen1 Hjoin) as [_ Hdone].
  intros i Hi. apply Hdone. left. apply elem_of_seq. lia.
Qed.

(** The vector keeps its size. *)
Lemma forEach_length (schedule : list nat)
    (reader reader' : PDFDocumentReader) (objs objs' : PDFObjects) (log : list Message) :
  forEach plan tasks schedule (reader, objs) = Returns (reader', objs', log) ->
  length objs' = length objs.
Proof.
  intros Hrun.
  apply (forEach_invariant (fun loop => length (loopObjects loop) = length objs)) in Hrun
    as (loop' & HI & _ & <- & _); [exact HI| |reflexivity].
  intros loop i loop' HI Hmove.
  destruct (move_inv _ _ _ Hmove)
    as [->|[(a & _ & _ & ->)|[(a & _ & _ & ->)|(a & action & rest & r & o & _ & _ & Hperform & ->)]]];
    cbn [setStatus loopObjects]; try exact HI.
  destruct (perform_inv _ _ _ _ _ Hperform)
    as [(n & entry & _ & _ & ->)|[(n & ob & _ & _ & ->)|(m & _ & _ & ->)]];
    [unfold setSlot|unfold setSlotObject, setSlot|exact HI];
    destruct (_ <? 0); rewrite ?length_insert; exact HI.
Qed.

(** The reader after the loop: untouched when no task has recorded a
    failure, and else failed with the message recorded last. *)
Lemma forEach_recorded (schedule : list nat)
    (reader reader' : PDFDocumentReader) (objs objs' : PDFObjects) (log : list Message) :
  forEach plan tasks schedule (reader, objs) = Returns (reader', objs', log) ->
  match log with
  | [] => reader' = reader
  | m :: _ => m_successfull reader' = false /\ m_errorMessage reader' = Some m /\
              m_version reader' = m_version reader
  end.
Proof.
  intros Hrun.
  apply (forEach_invariant
           (fun loop => match recorded loop with
                        | [] => loopReader loop = reader
                        | m :: _ => m_successfull (loopReader loop) = false /\
                                    m_errorMessage (loopReader loop) = Some m /\
                                    m_version (loopReader loop) = m_version reader
                        end)) in Hrun
    as (loop' & HI & <- & _ & <- & _); [exact HI| |reflexivity].
  intros loop i loop' HI Hmove.
  destruct (move_inv _ _ _ Hmove)
    as [->|[(a & _ & _ & ->)|[(a & _ & _ & ->)|(a & action & rest & r & o & _ & _ & Hperform & ->)]]];
    cbn [setStatus loopReader recorded]; try exact HI.
  destruct (perform_inv _ _ _ _ _ Hperform)
    as [(n & entry & -> & -> & _)|[(n & ob & -> & -> & _)|(m & -> & -> & _)]];
    [exact HI|exact HI|].
  cbn [fail m_successfull m_errorMessage m_version].
  split; [reflexivity|]. split; [reflexivity|].
  destruct (recorded loop) as [|m' log']; [rewrite HI; reflexivity|exact (proj2 (proj2 HI))].
Qed.

(** A flag that is false stays false. *)
Lemma forEach_failed (schedule : list nat)
    (reader reader' : PDFDocumentReader) (objs objs' : PDFObjects) (log : list Message) :
  m_successfull reader = false ->
  forEach plan tasks schedule (reader, objs) = Returns (reader', objs', log) ->
  reader' = reader /\ objs' = objs /\ log = [].
Proof.
  intros Hflag Hrun.
  apply (forEach_invariant
           (fun loop => loopReader loop = reader /\ loopObjects loop = objs /\
                        recorded loop = [] /\
                        Forall (fun status => status = NotStarted \/ status = Running [])
                               (statuses loop))) in Hrun
    as (loop' & (Hr & Ho & Hl & _) & <- & <- & <- & _); [auto| |].
  - intros loop i loop' (Hr & Ho & Hl & Hall) Hmove.
    destruct (move_inv _ _ _ Hmove)
      as [->|[(a & _ & _ & ->)|[(a & _ & Hs & ->)|(a & action & rest & r & o & _ & Hs & _ & ->)]]];
      cbn [setStatus loopReader loopObjects recorded statuses].
    + auto.
    + rewrite Hr, Hflag. split; [reflexivity|]. split; [exact Ho|]. split; [exact Hl|].
      apply Forall_insert; [exact Hall|right; reflexivity].
    + destruct (proj1 (Forall_lookup _ _) Hall _ _ Hs) as [Hc|Hc]; discriminate Hc.
    + destruct (proj1 (Forall_lookup _ _) Hall _ _ Hs) as [Hc|Hc]; discriminate Hc.
  - cbn. split; [reflexivity|]. split; [reflexivity|]. split; [reflexivity|].
    apply Forall_replicate. left. reflexivity.
Qed.

(** Tasks that make no [Store] leave every generation as it is. *)
Lemma forEach_generation (schedule : list nat)
    (reader reader' : PDFDocumentReader) (objs objs' : PDFObjects) (log : list Message) :
  (forall o a n entry, Store n entry ∉ plan o a) ->
  forEach plan tasks schedule (reader, objs) = Returns (reader', objs', log) ->
  forall n, entryGeneration (slot objs' n) = entryGeneration (slot objs n).
Proof.
  intros Hplan Hrun.
  apply (forEach_invariant
           (fun loop =>
              (forall n, entryGeneration (slot (loopObjects loop) n)
                         = entryGeneration (slot objs n)) /\
              Forall (fun status => forall queue n entry,
                          status = Running queue -> Store n entry ∉ queue)
                     (statuses loop))) in Hrun
    as (loop' & (Hgen & _) & _ & <- & _); [exact Hgen| |].
  - intros loop i loop' (Hgen & Hall) Hmove.
    destruct (move_inv _ _ _ Hmove)
      as [->|[(a & _ & _ & ->)|[(a & _ & Hs & ->)|(a & action & rest & r & o & _ & Hs & Hperform & ->)]]];
      cbn [setStatus loopObjects statuses].
    + auto.
    + split; [exact Hgen|]. apply Forall_insert; [exact Hall|].
      intros queue n entry Hq.
      destruct (m_successfull (loopReader loop)); [discriminate Hq|].
      injection Hq as <-. apply not_elem_of_nil.
    + split; [exact Hgen|]. apply Forall_insert; [exact Hall|].
      intros queue n entry Hq. injection Hq as <-. apply Hplan.
    + pose proof (proj1 (Forall_lookup _ _) Hall _ _ Hs) as Hqueue.
      split.
      * destruct (perform_inv _ _ _ _ _ Hperform)
          as [(n & entry & -> & _ & _)|[(n & ob & _ & _ & ->)|(m & _ & _ & ->)]].
        -- destruct (Hqueue _ n entry eq_refl). apply list_elem_of_here.
        -- intros k. rewrite slot_setSlotObject_generation. apply Hgen.
        -- exact Hgen.
      * apply Forall_insert; [exact Hall|].
        intros queue n entry Hq. injection Hq as <-. intros Hin.
        apply (Hqueue _ n entry eq_refl). apply list_elem_of_further, Hin.
  - cbn. split; [reflexivity|]. apply Forall_replicate.
    intros queue n entry Hq. discriminate Hq.
Qed.

(** For tasks whose writes do not depend on the vector: a loop that
    starts and ends with the flag set has run every task, and no task had
    a failure to record. *)
Lemma forEach_succeeded (schedule : list nat)
    (reader reader' : PDFDocumentReader) (objs objs' : PDFObjects) (log : list Message) :
  (forall o o' a, plan o a = plan o' a) ->
  forEach plan tasks schedule (reader, objs) = Returns (reader', objs', log) ->
  m_successfull reader' = true ->
  Forall (fun a => forall m, Record m ∉ plan objs a) tasks.
Proof.
  intros Hfixed Hrun Hflag.
  apply (forEach_invariant
           (fun loop =>
              m_successfull (loopReader loop) = true ->
              forall i a queue,
                tasks !! i = Some a -> statuses loop !! i = Some (Running queue) ->
                exists done, plan objs a = done ++ queue /\
                             forall m, Record m ∉ done)) in Hrun
    as (loop' & HI & <- & _ & _ & Hdone).
  - apply Forall_lookup. intros i a Ha.
    destruct (HI Hflag i a [] Ha (Hdone i (lookup_lt_Some _ _ _ Ha))) as (done & Hplan & Hnone).
    rewrite app_nil_r in Hplan. rewrite Hplan. exact Hnone.
  - intros loop i loop' HI Hmove.
    destruct (move_inv _ _ _ Hmove)
      as [->|[(a & Ha & Hs & ->)|[(a & Ha & Hs & ->)|(a & action & rest & r & o & Ha & Hs & Hperform & ->)]]];
      cbn [setStatus loopReader statuses].
    + exact HI.
    + intros Hf j b queue Hb Hq. rewrite Hf in Hq.
      destruct (decide (i = j)) as [->|Hne].
      * rewrite list_lookup_insert_eq in Hq by (apply lookup_lt_Some in Hs; exact Hs).
        discriminate Hq.
      * rewrite list_lookup_insert_ne in Hq by exact Hne. exact (HI Hf _ _ _ Hb Hq).
    + intros Hf j b queue Hb Hq.
      destruct (decide (i = j)) as [->|Hne].
      * rewrite list_lookup_insert_eq in Hq by (apply lookup_lt_Some in Hs; exact Hs).
        injection Hq as <-. rewrite Ha in Hb. injection Hb as <-.
        exists []. split; [apply Hfixed|]. intros m. apply not_elem_of_nil.
      * rewrite list_lookup_insert_ne in Hq by exact Hne. exact (HI Hf _ _ _ Hb Hq).
    + intros Hf j b queue Hb Hq.
      assert (Hkept : r = loopReader loop /\ forall m, action <> Record m).
      { destruct (perform_inv _ _ _ _ _ Hperform)
          as [(n & entry & -> & -> & _)|[(n & ob & -> & -> & _)|(m & -> & -> & _)]].
        - split; [reflexivity|]. intros m Hc. discriminate Hc.
        - split; [reflexivity|]. intros m Hc. discriminate Hc.
        - discriminate Hf. }
      destruct Hkept as [-> Haction].
      destruct (decide (i = j)) as [->|Hne].
      * rewrite list_lookup_insert_eq in Hq by (apply lookup_lt_Some in Hs; exact Hs).
        injection Hq as <-.
        destruct (HI Hf _ _ _ Hb Hs) as (done & Hplan & Hnone).
        exists (done ++ [action]). split; [rewrite <- app_assoc; exact Hplan|].
        intros m Hin. apply elem_of_app in Hin as [Hin|Hin]; [exact (Hnone m Hin)|].
        apply list_elem_of_singleton in Hin. exact (Haction m (eq_sym Hin)).
      * rewrite list_lookup_insert_ne in Hq by exact Hne. exact (HI Hf _ _ _ Hb Hq).
  - cbn. intros _ i a queue _ Hq.
    apply lookup_replicate in Hq as [Hq _]. discriminate Hq.
Qed.

(** Tasks that no exception leaves: the loop returns. *)
Lemma forEach_returns (schedule : list nat) (state : PDFDocumentReader * PDFObjects) :
  (forall o a e, Leave e ∉ plan o a) ->
  exists result, forEach plan tasks schedule state = Returns result.
Proof.
  intros Hplan.
  set (Q := fun loop : Loop =>
              Forall (fun status => forall queue e,
                          status = Running queue -> Leave e ∉ queue) (statuses loop)).
  assert (Hmove : forall loop i, Q loop ->
                    exists loop', move plan tasks loop i = Returns loop' /\ Q loop').
  { intros loop i HQ. unfold move.
    destruct (tasks !! i) as [a|]; [|eauto].
    destruct (statuses loop !! i) as [[| |[|action rest]]|] eqn:Hs; [| | | |eauto].
    - eexists. split; [reflexivity|]. apply Forall_insert; [exact HQ|].
      intros queue e Hq. destruct (m_successfull (loopReader loop)); [discriminate Hq|].
      injection Hq as <-. apply not_elem_of_nil.
    - eexists. split; [reflexivity|]. apply Forall_insert; [exact HQ|].
      intros queue e Hq. injection Hq as <-. apply Hplan.
    - eauto.
    - pose proof (proj1 (Forall_lookup _ _) HQ _ _ Hs) as Hqueue.
      destruct action as [n entry|n o|m|e];
        [| | |destruct (Hqueue _ e eq_refl); apply list_elem_of_here];
        (eexists; split; [reflexivity|]; apply Forall_insert; [exact HQ|];
         intros queue e Hq; injection Hq as <-; intros Hin;
         apply (Hqueue _ e eq_refl); apply list_elem_of_further, Hin). }
  assert (Hmoves : forall sched loop, Q loop ->
                     exists loop', moves plan tasks sched loop = Returns loop' /\ Q loop').
  { induction sched as [|i sched IH]; intros loop HQ; cbn [moves]; [eauto|].
    destruct (Hmove loop i HQ) as (loop1 & -> & HQ1). exact (IH loop1 HQ1). }
  assert (Hjoin : forall positions loop, Q loop ->
                    exists loop', join plan tasks positions loop = Returns loop').
  { induction positions as [|i positions IH]; intros loop HQ; cbn [join]; [eauto|].
    unfold finish.
    destruct (Hmoves [i; i] loop HQ) as (loop1 & -> & HQ1). cbn [mbind Outcome_bind].
    destruct (Hmoves (replicate (length (queueOf loop1 i)) i) loop1 HQ1) as (loop2 & -> & HQ2).
    exact (IH loop2 HQ2). }
  unfold forEach.
  destruct (Hmoves schedule
              {| loopReader := fst state; loopObjects := snd state; recorded := [];
                 statuses := replicate (length tasks) NotStarted |}) as (loop1 & -> & HQ1).
  { apply Forall_replicate. intros queue e Hq. discriminate Hq. }
  cbn [mbind Outcome_bind].
  destruct (Hjoin (seq 0 (length tasks)) loop1 HQ1) as (loop2 & ->).
  eexists. reflexivity.
Qed.

(** An exception that ends the loop has left one of its tasks. *)
Lemma forEach_escapes (schedule : list nat) (state : PDFDocumentReader * PDFObjects)
    (e : StdException) :
  forEach plan tasks schedule state = Escapes e ->
  exists a o, a ∈ tasks /\ Leave e ∈ plan o a.
Proof.
  set (P := fun e' : StdException => exists a o, a ∈ tasks /\ Leave e' ∈ plan o a).
  set (Q := fun loop : Loop =>
              Forall (fun status => forall queue e',
                          status = Running queue -> Leave e' ∈ queue -> P e')
                     (statuses loop)).
  set (after := fun outcome : Outcome Loop =>
                  match outcome with
                  | Returns loop' => Q loop'
                  | Escapes e' => P e'
                  end).
  assert (Hmove : forall loop i, Q loop -> after (move plan tasks loop i)).
  { intros loop i HQ. unfold move.
    destruct (tasks !! i) as [a|] eqn:Ha; [|exact HQ].
    destruct (statuses loop !! i) as [[| |[|action rest]]|] eqn:Hs;
      [| | | |exact HQ]; cbn [after].
    - apply Forall_insert; [exact HQ|].
      intros queue e' Hq Hin. destruct (m_successfull (loopReader loop)); [discriminate Hq|].
      injection Hq as <-. apply elem_of_nil in Hin. destruct Hin.
    - apply Forall_insert; [exact HQ|].
      intros queue e' Hq Hin. injection Hq as <-.
      exists a, (loopObjects loop). split; [exact (list_elem_of_lookup_2 _ _ _ Ha)|exact Hin].
    - exact HQ.
    - pose proof (proj1 (Forall_lookup _ _) HQ _ _ Hs) as Hqueue.
      destruct action as [n entry|n o|m|e'];
        [| | |exact (Hqueue _ e' eq_refl (list_elem_of_here _ _))];
        (cbn; apply Forall_insert; [exact HQ|];
         intros queue e' Hq Hin; injection Hq as <-;
         exact (Hqueue _ e' eq_refl (list_elem_of_further _ _ _ Hin))). }
  assert (Hmoves : forall sched loop, Q loop -> after (moves plan tasks sched loop)).
  { induction sched as [|i sched IH]; intros loop HQ; cbn [moves]; [exact HQ|].
    pose proof (Hmove loop i HQ) as Hi.
    destruct (move plan tasks loop i) as [loop1|e']; [exact (IH loop1 Hi)|exact Hi]. }
  assert (Hjoin : forall positions loop, Q loop -> after (join plan tasks positions loop)).
  { induction positions as [|i positions IH]; intros loop HQ; cbn [join]; [exact HQ|].
    unfold finish.
    pose proof (Hmoves [i; i] loop HQ) as H1.
    destruct (moves plan tasks [i; i] loop) as [loop1|e']; [|exact H1].
    cbn [mbind Outcome_bind].
    pose proof (Hmoves (replicate (length (queueOf loop1 i)) i) loop1 H1) as H2.
    destruct (moves plan tasks (replicate (length (queueOf loop1 i)) i) loop1) as [loop2|e'];
      [exact (IH loop2 H2)|exact H2]. }
  unfold forEach. intros Hrun.
  assert (Hinit : Q {| loopReader := fst state; loopObjects := snd state; recorded := [];
                       statuses := replicate (length tasks) NotStarted |}).
  { apply Forall_replicate. intros queue e' Hq. discriminate Hq. }
  pose proof (Hmoves schedule _ Hinit) as H1.
  destruct (moves plan tasks schedule _) as [loop1|e1].
  - cbn [mbind Outcome_bind] in Hrun.
    pose proof (Hjoin (seq 0 (length tasks)) loop1 H1) as H2.
    destruct (join plan tasks (seq 0 (length tasks)) loop1) as [loop2|e2].
    + discriminate Hrun.
    + cbn [mbind Outcome_bind] in Hrun. injection Hrun as <-. exact H2.
  - cbn [mbind Outcome_bind] in Hrun. injection Hrun as <-. exact H1.
Qed.
End ForEach_facts.
(** ** The task of an object stream *)

Section ObjectStream_facts.
Context `{collab : Collaborators}.
Variable buffer : QByteArray.
Variable xrefTable : PDFXRefTable.
Variable objectStreamEntries : list XRefEntry.
Variable objectStreamReference : PDFObjectReference.

Local Abbreviation declared :=
  (declaredInStream objectStreamEntries objectStreamReference).

Lemma existsb_predicate (n : Z) :
  existsb (predicate n objectStreamReference) objectStreamEntries = true
  <-> declaredInStream objectStreamEntries objectStreamReference n.
Proof.
  rewrite existsb_exists. unfold declaredInStream, predicate. split.
  - intros (entry & Hin & Hp). apply andb_true_iff in Hp as [Hn Hs].
    apply bool_decide_eq_true in Hn, Hs. apply list_elem_of_In in Hin. eauto.
  - intros (entry & Hin & Hn & Hs). exists entry. split; [apply list_elem_of_In, Hin|].
    rewrite !bool_decide_eq_true_2 by assumption. reflexivity.
Qed.

(** The second loop: a write for each pair, in the order of the header,
    as long as the object of the pair parses and its number is declared
    for the container; the first pair that fails one of the two ends the
    loop with an exception. *)
Lemma storeActions_shape (objectNumberAndOffset : list (Z * Z)) :
  forall parser : PDFParser,
    exists written : list Action,
      Forall2 (fun action pair => exists o, action = StoreObject (fst pair) o /\
                                            declared (fst pair))
              written (take (length written) objectNumberAndOffset) /\
      ((storeActions objectStreamEntries objectStreamReference objectNumberAndOffset parser
        = written /\ length written = length objectNumberAndOffset) \/
       exists m,
         storeActions objectStreamEntries objectStreamReference objectNumberAndOffset parser
         = written ++ [Record m] /\
         (length written < length objectNumberAndOffset)%nat /\
         ((m = MsgObjectStreamInvalid (objectNumber objectStreamReference) /\
           exists pair, objectNumberAndOffset !! length written = Some pair /\
                        ~ declared (fst pair)) \/
          exists p, PDFParser_getObject p = Throw m)).
Proof.
  induction objectNumberAndOffset as [|[n off] rest IH]; intros parser; cbn [storeActions].
  - exists []. split; [constructor|left; split; reflexivity].
  - destruct (PDFParser_getObject (PDFParser_seek parser off)) as [[obj parser']|m] eqn:Hparse.
    + destruct (existsb _ _) eqn:Hdeclared.
      * apply existsb_predicate in Hdeclared.
        destruct (IH parser') as (written & Hwritten & Hend).
        exists (StoreObject n obj :: written). split.
        -- cbn [length take]. constructor; [exists obj; auto|exact Hwritten].
        -- destruct Hend as [[-> Hlen]|(m & -> & Hlen & Hm)].
           ++ left. split; [reflexivity|cbn [length]; lia].
           ++ right. exists m. split; [reflexivity|]. split; [cbn [length]; lia|].
              destruct Hm as [[-> (pair & Hpair & Hundeclared)]|Hthrown]; [left|right; exact Hthrown].
              split; [reflexivity|]. exists pair. split; [exact Hpair|exact Hundeclared].
      * exists []. split; [constructor|]. right.
        exists (MsgObjectStreamInvalid (objectNumber objectStreamReference)).
        split; [reflexivity|]. split; [cbn [length]; lia|]. left. split; [reflexivity|].
        exists (n, off). split; [reflexivity|].
        intros Hc. apply existsb_predicate in Hc. cbn [fst] in Hc. rewrite Hc in Hdeclared.
        discriminate Hdeclared.
    + exists []. split; [constructor|]. right. exists m.
      split; [reflexivity|]. split; [cbn [length]; lia|]. right. eauto.
Qed.

Lemma readObjectNumbersAndOffsets_length (n : nat) (first streamNumber : Z) :
  forall (parser parser' : PDFParser) (pairs : list (Z * Z)),
    readObjectNumbersAndOffsets n first streamNumber parser = Ok (pairs, parser') ->
    length pairs = n.
Proof.
  induction n as [|n IH]; intros parser parser' pairs Hread;
    cbn [readObjectNumbersAndOffsets] in Hread.
  - injection Hread as <- _. reflexivity.
  - destruct (PDFParser_getObject parser) as [[number parser1]|m]; [|discriminate Hread].
    cbn [mbind Result_bind] in Hread.
    destruct (PDFParser_getObject parser1) as [[position parser2]|m]; [|discriminate Hread].
    cbn [mbind Result_bind] in Hread.
    destruct (negb (isInt number) || negb (isInt position)); [discriminate Hread|].
    destruct (readObjectNumbersAndOffsets n first streamNumber parser2)
      as [[rest parser3]|m] eqn:Hrest; [|discriminate Hread].
    cbn [mbind Result_bind] in Hread. injection Hread as <- _.
    cbn [length]. f_equal. exact (IH _ _ _ Hrest).
Qed.

(** The header of a container that is a stream of type [ObjStm] with
    integers [N] and [First], for an [N] that [reserve] accepts. *)
Lemma readStreamHeader_pairs (objs : PDFObjects)
    (objectStreamDictionary : PDFDictionary) (content data : QByteArray) (n first : Z) :
  objectNumber objectStreamReference < Z.of_nat (length objs) ->
  object (slot objs (objectNumber objectStreamReference))
  = PDFStreamObject objectStreamDictionary content ->
  get objectStreamDictionary "Type" = PDFName "ObjStm" ->
  get objectStreamDictionary "N" = PDFInt n ->
  get objectStreamDictionary "First" = PDFInt first ->
  getDecodedStream objectStreamDictionary content = Ok data ->
  readStreamHeader buffer xrefTable objs objectStreamReference
  = if (n <? 0) || (vector_max_size <? n) then Escapes std_length_error
    else Returns (readObjectNumbersAndOffsets (Z.to_nat n) first
                    (objectNumber objectStreamReference)
                    (newParser data
                       (PDFParsingContextGuard (newContext buffer xrefTable)
                          objectStreamReference))).
Proof.
  intros Hrange Hobject Htype HN Hfirst Hdecoded. unfold readStreamHeader.
  destruct (Z.geb_spec (objectNumber objectStreamReference) (Z.of_nat (length objs)));
    [lia|].
  rewrite Hobject, Htype. cbn [String.eqb Ascii.eqb Bool.eqb negb].
  rewrite HN, Hfirst. cbn [isInt negb orb getInteger]. rewrite Hdecoded. reflexivity.
Qed.

(** What the task of an object stream does: writes of objects with
    declared numbers, and then nothing more, or the [catch] block, or an
    exception that leaves the task. *)
Lemma streamActions_shape (objs : PDFObjects) :
  exists (written tail : list Action),
    streamActions buffer xrefTable objectStreamEntries objs objectStreamReference
    = written ++ tail /\
    Forall (fun action => exists n o, action = StoreObject n o /\ declared n) written /\
    (tail = [] \/ (exists m, tail = [Record m]) \/ (exists e, tail = [Leave e])).
Proof.
  unfold streamActions.
  destruct (readStreamHeader buffer xrefTable objs objectStreamReference)
    as [[[pairs parser]|m]|e].
  - destruct (storeActions_shape pairs parser) as (written & Hwritten & Hend).
    assert (Hall : Forall (fun action => exists n o, action = StoreObject n o /\ declared n)
                          written).
    { clear Hend. induction Hwritten as [|action pair written taken (o & -> & Hd) _ IH];
        constructor; eauto. }
    destruct Hend as [[-> _]|(m & -> & _)].
    + exists written, []. rewrite app_nil_r. auto.
    + exists written, [Record m]. eauto 6.
  - exists [], [Record m]. split; [reflexivity|]. split; [constructor|eauto].
  - exists [], [Leave e]. split; [reflexivity|]. split; [constructor|eauto].
Qed.

Lemma streamActions_Store (objs : PDFObjects) (n : Z) (entry : StorageEntry) :
  Store n entry ∉ streamActions buffer xrefTable objectStreamEntries objs
                    objectStreamReference.
Proof.
  destruct (streamActions_shape objs) as (written & tail & -> & Hwritten & Htail).
  intros Hin. apply elem_of_app in Hin as [Hin|Hin].
  - destruct (proj1 (Forall_forall _ _) Hwritten _ Hin) as (k & o & Hc & _). discriminate Hc.
  - destruct Htail as [->|[[m ->]|[e ->]]];
      [apply elem_of_nil in Hin; destruct Hin| |];
      apply list_elem_of_singleton in Hin; discriminate Hin.
Qed.

(** The writes of a task, made one after the other, change slots of the
    written numbers only. *)
Lemma performAll_written (written tail : list Action) :
  Forall (fun action => exists n o, action = StoreObject n o /\ declared n) written ->
  forall (reader : PDFDocumentReader) (objs : PDFObjects),
    exists objs' : PDFObjects,
      performAll (written ++ tail) (reader, objs) = performAll tail (reader, objs') /\
      forall n, slot objs' n <> slot objs n -> declared n.
Proof.
  induction 1 as [|action written (k & o & -> & Hk) _ IH]; intros reader objs.
  - exists objs. split; [reflexivity|]. intros n Hn. destruct (Hn eq_refl).
  - destruct (IH reader (setSlotObject objs k o)) as (objs' & Hrun & Hslots).
    exists objs'. split; [exact Hrun|].
    intros n Hn. destruct (decide (n = k)) as [->|Hne]; [exact Hk|].
    apply Hslots. rewrite slot_setSlotObject_ne by exact Hne. exact Hn.
Qed.
End ObjectStream_facts.



(** ** [readFromBuffer] and the failures of the tasks *)

(** C1, as the code has it.  When a task of phase 5 or of phase 9 records
    a failure, [readFromBuffer] ends with the success flag of the reader
    false.  The failure is reported by the reader, not by the document:
    either a later step raised an exception and the default document is
    returned, or the document returned holds the object table as the tasks
    left it, with the trailer and a security handler, and the message of
    the reader is the one that a task recorded last: tasks that have read
    the flag before the first failure record theirs as well, and each
    [catch] block overwrites the message. *)
Theorem readFromBuffer_records_failure `{ossl : OpenSSL} `{defaults : HandlerDefaults} `{collab : Collaborators}
    (entryOrder : ExecutionOrder XRefEntry)
    (streamOrder : ExecutionOrder PDFObjectReference)
    (m_getPasswordCallback : PasswordCallback) (fuel : nat)
    (reader reader1 reader' : PDFDocumentReader) (buffer : QByteArray)
    (firstXrefTableOffset : Z) (xrefTable : PDFXRefTable)
    (reader5 : PDFDocumentReader) (objs5 : PDFObjects) (log5 : list Message)
    (document : PDFDocument) :
  readFooter buffer = Ok firstXrefTableOffset ->
  readHeader reader buffer = (reader1, Ok ()) ->
  readXRefTable buffer firstXrefTableOffset = Ok xrefTable ->
  let occupiedEntries := getOccupiedEntries xrefTable in
  forEach (entryActions buffer xrefTable) occupiedEntries (entryOrder occupiedEntries)
    (reader1, replicate (getSize xrefTable) StorageEntry_default)
  = Returns (reader5, objs5, log5) ->
  let objectStreamEntries := getObjectStreamEntries xrefTable in
  let objectStreams := remove_dups (map objectStream objectStreamEntries) in
  let phase9 :=
    forEach (streamActions buffer xrefTable objectStreamEntries) objectStreams
      (streamOrder objectStreams) (reader5, objs5) in
  (log5 <> [] \/
   exists reader9 objs9 log9, phase9 = Returns (reader9, objs9, log9) /\ log9 <> []) ->
  readFromBuffer entryOrder streamOrder m_getPasswordCallback fuel reader buffer
  = Some (document, reader') ->
  m_successfull reader' = false /\
  ((document = PDFDocument_default /\ exists m', reader' = fail reader5 m') \/
   exists reader9 objs9 log9,
     phase9 = Returns (reader9, objs9, log9) /\
     objects document = objs9 /\
     trailerDictionary document = getTrailerDictionary xrefTable /\
     is_Some (securityHandler document) /\
     reader' = reader9 /\
     m_errorMessage reader' = head (log9 ++ log5)).
Proof.
  intros Hfooter Hheader Hxref occupiedEntries Hphase5 objectStreamEntries objectStreams
    phase9 Hrecorded Hread.
  unfold readFromBuffer, readFromBufferBody in Hread.
  rewrite Hfooter, Hheader, Hxref in Hread. unfold readObjects in Hread.
  fold occupiedEntries in Hread. rewrite Hphase5 in Hread.
  destruct (match getTrailerDictionary xrefTable with
            | PDFDictionaryObject d | PDFStreamObject d _ => Some d
            | _ => None
            end) as [trailer|].
  2: { injection Hread as <- <-. split; [reflexivity|]. left. eauto. }
  destruct (createSecurityHandler _ _) as [handler|m'].
  2: { injection Hread as <- <-. split; [reflexivity|]. left. eauto. }
  destruct (authenticateHandler _ _ _) as [[[authorization data]|m']|].
  3: { discriminate Hread. }
  2: { injection Hread as <- <-. split; [reflexivity|]. left. eauto. }
  destruct (bool_decide _).
  { injection Hread as <- <-. split; [reflexivity|]. left. eauto. }
  fold objectStreamEntries objectStreams phase9 in Hread.
  destruct phase9 as [[[reader9 objs9] log9]|e] eqn:Hphase9; [|discriminate Hread].
  injection Hread as <- <-.
  pose proof (forEach_recorded _ _ _ _ _ _ _ _ Hphase5) as Hlog5.
  pose proof (forEach_recorded _ _ _ _ _ _ _ _ Hphase9) as Hlog9.
  assert (Hend : m_successfull reader9 = false /\
                 m_errorMessage reader9 = head (log9 ++ log5)).
  { destruct log9 as [|m9 log9].
    - subst reader9. destruct log5 as [|m5 log5].
      + destruct Hrecorded as [Hc|(r & o & l & Heq & Hc)]; [destruct (Hc eq_refl)|].
        injection Heq as _ _ <-. destruct (Hc eq_refl).
      + destruct Hlog5 as (Hflag & Hmessage & _). split; [exact Hflag|exact Hmessage].
    - destruct Hlog9 as (Hflag & Hmessage & _). split; [exact Hflag|exact Hmessage]. }
  split; [exact (proj1 Hend)|]. right.
  exists reader9, objs9, log9. cbn [objects trailerDictionary securityHandler].
  split; [reflexivity|]. split; [reflexivity|]. split; [reflexivity|].
  split; [eexists; reflexivity|]. split; [reflexivity|exact (proj2 Hend)].
Qed.

(** C1, as stated, fails.  The table of [Sample.corrupted] expects object
    2 at offset 20, where the header reads [9 0 obj]: the task of object 2
    records the failure, and [readFromBuffer] still returns a document, with
    the slot of object 1 filled, the slot of object 2 empty, the trailer and
    a security handler.  Only the reader tells: its flag is false. *)
Lemma readFromBuffer_partial_document :
  exists (xrefTable : PDFXRefTable) (reader1 reader5 reader' : PDFDocumentReader)
         (objs5 : PDFObjects) (document : PDFDocument),
    readFooter (collab := Sample.collaborators) Sample.corrupted = Ok 32 /\
    readHeader (collab := Sample.collaborators) Sample.readerAfterReset Sample.corrupted
    = (reader1, Ok ()) /\
    readXRefTable (Collaborators := Sample.collaborators) Sample.corrupted 32 = Ok xrefTable /\
    forEach (entryActions (collab := Sample.collaborators) Sample.corrupted xrefTable)
      (getOccupiedEntries xrefTable) (sequential (getOccupiedEntries xrefTable))
      (reader1, replicate (getSize xrefTable) StorageEntry_default)
    = Returns (reader5, objs5, [MsgCantReadObject 20]) /\
    readFromBuffer (ossl := Sample.openssl) (defaults := Sample.defaults) (collab := Sample.collaborators)
      sequential sequential Sample.decline 1
      Sample.readerAfterReset Sample.corrupted
    = Some (document, reader') /\
    objects document
    = [StorageEntry_default;
       {| entryGeneration := 0; object := PDFInt 7 |};
       StorageEntry_default] /\
    document <> PDFDocument_default /\
    m_successfull reader' = false /\
    m_errorMessage reader' = Some (MsgCantReadObject 20).
Proof.
  eexists _, _, _, _, _, _.
  split; [vm_compute; reflexivity|]. split; [vm_compute; reflexivity|].
  split; [vm_compute; reflexivity|].
  split; [vm_compute; reflexivity|].
  split; [vm_compute; reflexivity|]. split; [reflexivity|].
  split; [intros Hc; discriminate Hc|]. split; reflexivity.
Qed.

(** Two tasks of phase 5 that fail, in an execution in which both have
    read the flag before either records: the reader ends with the message
    of the task that recorded last. *)
Lemma readFromBuffer_records_failure_witness :
  exists (document : PDFDocument) (reader' : PDFDocumentReader),
    readFromBuffer (ossl := Sample.openssl) (defaults := Sample.defaults)
      (collab := Sample.collaborators)
      SampleMore.bothStarted sequential Sample.decline 1
      Sample.readerAfterReset SampleMore.corruptedTwice
    = Some (document, reader') /\
    m_successfull reader' = false /\
    document <> PDFDocument_default /\
    m_errorMessage reader' = head ([] ++ [MsgCantReadObject 20; MsgCantReadObject 8]).
Proof.
  destruct (readFromBuffer (ossl := Sample.openssl) (defaults := Sample.defaults)
              (collab := Sample.collaborators)
              SampleMore.bothStarted sequential Sample.decline 1
              Sample.readerAfterReset SampleMore.corruptedTwice)
    as [[document reader']|] eqn:Hread; [|vm_compute in Hread; discriminate Hread].
  exists document, reader'. split; [reflexivity|].
  assert (Hdocument : document <> PDFDocument_default).
  { pose proof Hread as Hcopy. vm_compute in Hcopy. injection Hcopy as Hd _.
    rewrite <- Hd. intros Hc. discriminate Hc. }
  destruct (readFromBuffer_records_failure
              (ossl := Sample.openssl) (defaults := Sample.defaults)
              (collab := Sample.collaborators)
              SampleMore.bothStarted sequential Sample.decline 1
              Sample.readerAfterReset
              (setVersion Sample.readerAfterReset {| major := 1; minor := 4 |})
              reader' SampleMore.corruptedTwice 32 SampleMore.wellFormedTable
              (fail (fail (setVersion Sample.readerAfterReset {| major := 1; minor := 4 |})
                       (MsgCantReadObject 8)) (MsgCantReadObject 20))
              (replicate 3 StorageEntry_default)
              [MsgCantReadObject 20; MsgCantReadObject 8] document)
    as (Hflag & [[Hdefault _]|(reader9 & objs9 & log9 & Hphase9 & _ & _ & _ & _ & Hmessage)]).
  - vm_compute. reflexivity.
  - vm_compute. reflexivity.
  - vm_compute. reflexivity.
  - vm_compute. reflexivity.
  - left. intros Hc. discriminate Hc.
  - exact Hread.
  - destruct (Hdocument Hdefault).
  - split; [exact Hflag|]. split; [exact Hdocument|].
    vm_compute in Hphase9. injection Hphase9 as _ _ <-. exact Hmessage.
Defined.

(** * Further properties of the two files *)

(** ** Revision 6 hash: the digest of a round and the buffer it encrypts *)

Lemma accumulateByte_nonneg (b : uint8_t) (acc : Z) :
  0 <= acc -> 0 <= accumulateByte b acc.
Proof.
  intros Hacc. rewrite accumulateByte_add.
  destruct (accumulateByte_mod3 b) as [Hb _]. lia.
Qed.

Lemma remainderModulo3_range (E : QByteArray) : 0 <= remainderModulo3 E < 3.
Proof.
  unfold remainderModulo3.
  assert (Hpos : forall (indices : list nat) (acc : Z), 0 <= acc ->
             0 <= foldl (fun acc i => accumulateByte (nth i E x00) acc) acc indices).
  { induction indices as [|i indices IH]; intros acc Hacc; simpl; [exact Hacc|].
    apply IH, accumulateByte_nonneg, Hacc. }
  specialize (Hpos (seq 0 16) 0 ltac:(lia)).
  rewrite Z.rem_mod_nonneg by lia. apply Z.mod_pos_bound. lia.
Qed.

(** X1.  In every round of the revision 6 hash the remainder is 0, 1 or 2,
    so the [default] case of the switch is never taken: the new [K] is the
    SHA-256, SHA-384 or SHA-512 digest of [E], never the old [K], and it has
    32, 48 or 64 bytes. *)
Theorem hashRound_r6_digest `{ossl : OpenSSL} `{sizes : !OpenSSLSizes}
    (password userKey K : QByteArray) :
  let E := snd (hashRound_r6 password userKey K) in
  let K' := fst (hashRound_r6 password userKey K) in
  (remainderModulo3 E = 0 /\ K' = SHA256 E /\ length K' = 32%nat) \/
  (remainderModulo3 E = 1 /\ K' = SHA384 E /\ length K' = 48%nat) \/
  (remainderModulo3 E = 2 /\ K' = SHA512 E /\ length K' = 64%nat).
Proof.
  intros E K'. subst E K'. unfold hashRound_r6. cbn [fst snd].
  pose proof (remainderModulo3_range
                (AES_cbc_encrypt (take 16 K) (take 16 (drop 16 K))
                   (mjoin (replicate 64 (password ++ K ++ userKey))))) as Hrange.
  destruct (remainderModulo3 _) as [|p|p]; [| |lia].
  - left. rewrite SHA256_DIGEST_LENGTH. auto.
  - destruct p as [p|p|]; [lia| |].
    + destruct p as [p|p|]; [lia|lia|].
      right. right. rewrite SHA512_DIGEST_LENGTH. auto.
    + right. left. rewrite SHA384_DIGEST_LENGTH. auto.
Qed.

Lemma hashRound_r6_digest_witness :
  exists n : nat,
    length (fst (hashRound_r6 (ossl := Sample.openssl) [x70] []
                   (SHA256 (OpenSSL := Sample.openssl) [x01]))) = n /\
    (n = 32 \/ n = 48 \/ n = 64)%nat.
Proof.
  eexists. split; [reflexivity|].
  destruct (hashRound_r6_digest (ossl := Sample.openssl) [x70] []
              (SHA256 (OpenSSL := Sample.openssl) [x01]))
    as [(_ & _ & Hl)|[(_ & _ & Hl)|(_ & _ & Hl)]]; rewrite Hl; auto.
Defined.

Lemma length_sequence_r6 (password userKey K : QByteArray) :
  length (sequence_r6 password userKey K)
  = (64 * (length password + length K + length userKey))%nat.
Proof.
  unfold sequence_r6.
  rewrite length_join, fmap_replicate, sum_list_replicate, !length_app. lia.
Qed.

(** X2.  The buffers of every round of the revision 6 hash.  [K] has at
    least 32 bytes at the start of each round, so the AES key and the
    initialization vector, its first and second 16 bytes, are 16 bytes
    each.  The buffer that is encrypted, 64 copies of the password, [K] and
    the user key, is a whole number of cipher blocks; with an
    [AES_cbc_encrypt] that writes as many bytes as it reads, [E] has
    [64 * (|password| + |K| + |userKey|)] bytes, at least 2048: the bytes
    [E[0] .. E[15]] of step c) and the byte [E.back()] of the loop test
    are bytes of [E]. *)
Theorem hashRound_r6_buffer `{ossl : OpenSSL} `{sizes : !OpenSSLSizes} `{blocks : !AESBlocks}
    (password userKey input : QByteArray) (n : nat) :
  let K := fst (stateAfter_r6 n password userKey (SHA256 input)) in
  let E := snd (stateAfter_r6 (S n) password userKey (SHA256 input)) in
  (32 <= length K)%nat /\
  length (take 16 K) = 16%nat /\
  length (take 16 (drop 16 K)) = 16%nat /\
  Nat.divide 16 (length (sequence_r6 password userKey K)) /\
  length E = (64 * (length password + length K + length userKey))%nat /\
  (2048 <= length E)%nat /\
  (forall i, (i < 16)%nat -> exists b, E !! i = Some b /\ nth i E x00 = b) /\
  (exists b, last E = Some b /\ List.last E x00 = b).
Proof.
  intros K E.
  assert (HK : (32 <= length K)%nat).
  { apply (stateAfter_r6_length password userKey (SHA256 input) n).
    rewrite SHA256_DIGEST_LENGTH. lia. }
  assert (Hblocks : Nat.divide 16 (length (sequence_r6 password userKey K))).
  { rewrite length_sequence_r6.
    exists (4 * (length password + length K + length userKey))%nat. lia. }
  assert (HE : length E = (64 * (length password + length K + length userKey))%nat).
  { subst E. cbn [stateAfter_r6]. fold K. unfold hashRound_r6. cbn [snd].
    fold (sequence_r6 password userKey K).
    rewrite AES_cbc_encrypt_length by exact Hblocks. apply length_sequence_r6. }
  split; [exact HK|].
  split; [rewrite length_take; lia|].
  split; [rewrite length_take, length_drop; lia|].
  split; [exact Hblocks|]. split; [exact HE|]. split; [lia|]. split.
  - intros i Hi. destruct (lookup_lt_is_Some_2 E i) as [b Hb]; [lia|].
    exists b. split; [exact Hb|]. apply nth_lookup_Some with (d := x00). exact Hb.
  - destruct (E) as [|b0 E'] eqn:HEq using rev_ind; [cbn in HE; lia|].
    exists b0. split; [apply last_snoc|apply List.last_last].
Qed.

Lemma hashRound_r6_buffer_witness :
  (2048 <= length (snd (stateAfter_r6 (ossl := Sample.openssl) 3 [x70] []
                          (SHA256 (OpenSSL := Sample.openssl) [x01]))))%nat.
Proof.
  exact (proj1 (proj2 (proj2 (proj2 (proj2 (proj2
           (hashRound_r6_buffer (ossl := Sample.openssl) [x70] [] [x01] 2))))))).
Defined.

(** X3.  [parseParts] cuts a 48-byte [O] or [U] entry into a 32-byte hash,
    an 8-byte validation salt and an 8-byte key salt that together are the
    entry again. *)
Theorem parseParts_parts (data : QByteArray) :
  length data = 48%nat ->
  hash (parseParts data) ++ validationSalt (parseParts data) ++ keySalt (parseParts data)
  = data /\
  length (hash (parseParts data)) = 32%nat /\
  length (validationSalt (parseParts data)) = 8%nat /\
  length (keySalt (parseParts data)) = 8%nat.
Proof.
  intros Hlen. unfold parseParts, left, mid. cbn [hash validationSalt keySalt].
  split.
  - assert (Hsalt : take 8 (drop 40 data) = drop 8 (drop 32 data)).
    { rewrite drop_drop. change (32 + 8)%nat with 40%nat.
      apply take_ge. rewrite length_drop. lia. }
    rewrite Hsalt, (take_drop 8 (drop 32 data)). apply take_drop.
  - rewrite !length_take, !length_drop. lia.
Qed.

Lemma parseParts_parts_witness :
  length Sample.entryU6 = 48%nat /\
  length (hash (parseParts Sample.entryU6)) = 32%nat.
Proof.
  assert (Hlen : length Sample.entryU6 = 48%nat) by reflexivity.
  split; [exact Hlen|].
  exact (proj1 (proj2 (parseParts_parts Sample.entryU6 Hlen))).
Defined.

(** ** [createSecurityHandler]: what a handler holds, and what is refused *)

Section CreateSecurityHandler_more.
Context `{defaults : HandlerDefaults}.

Lemma createSecurityHandler_fields (dictionary : PDFDictionary) (id : QByteArray)
    (h : PDFStandardSecurityHandler) :
  createSecurityHandler (PDFDictionaryObject dictionary) id
  = Ok (PDFStandardSecurityHandlerPointer h) ->
  (m_V h = 1 -> m_keyLength h = 40) /\
  (m_V h = 4 -> m_keyLength h = 128) /\
  (m_V h = 5 -> m_keyLength h = 256) /\
  0 <= m_permissions h < 2 ^ 32 /\
  (m_R h = 6 -> length (m_OE h) = 32%nat /\ length (m_UE h) = 32%nat /\
                length (m_Perms h) = 16%nat) /\
  (~ (m_V h = 4 \/ m_V h = 5) -> m_cryptFilters h = identityFilters).
Proof.
  intros Hcreate. unfold createSecurityHandler in Hcreate.
  repeat ok_step Hcreate.
  injection Hcreate as <-. cbn.
  match goal with
  | Hx : (if _ =? 1 then _ else _) = Ok _ |- _ => rename Hx into HLength
  end.
  match goal with
  | Hx : (if (_ =? 4) || (_ =? 5) then _ else _) = Ok _ |- _ => rename Hx into Hfilters
  end.
  match goal with
  | Hx : (if _ =? 6 then _ else _) = Ok (_, _, _) |- _ => rename Hx into Hentries
  end.
  split; [intros ->; cbn in HLength; congruence|].
  split; [intros ->; cbn in HLength; congruence|].
  split; [intros ->; cbn in HLength; congruence|].
  split; [unfold toUInt32; apply Z.mod_pos_bound; lia|].
  split.
  - intros ->. cbn in Hentries. repeat ok_step Hentries.
    injection Hentries as <- <- <-.
    repeat match goal with
           | Hx : readByteArray _ _ _ = Ok _ |- _ => apply readByteArray_Ok in Hx
           end.
    repeat split; lia.
  - intros HV. rewrite (proj2 (orb_false_iff _ _)) in Hfilters by lia.
    injection Hfilters as <- _ _ _. reflexivity.
Qed.

Lemma parseCryptFilters_lookup (cryptFilters : PDFDictionary) :
  forall filters result : gmap string CryptFilter,
    parseCryptFilters cryptFilters filters = Ok result ->
    (forall key, (forall value, (key, value) ∉ cryptFilters) ->
                 result !! key = filters !! key) /\
    (forall pre key value post,
        cryptFilters = pre ++ (key, value) :: post ->
        (forall value', (key, value') ∉ post) ->
        exists filter, parseCryptFilter value = Ok filter /\ result !! key = Some filter).
Proof.
  induction cryptFilters as [|[key0 value0] rest IH]; intros filters result Hparse;
    cbn [parseCryptFilters] in Hparse.
  - injection Hparse as <-. split; [reflexivity|].
    intros pre key value post Heq. destruct pre; discriminate Heq.
  - ok_step Hparse. destruct (IH _ _ Hparse) as [Hother Hlast]. split.
    + intros key Hkey. rewrite Hother.
      * apply lookup_insert_ne. intros ->. apply (Hkey value0). left.
      * intros value Hin. apply (Hkey value). right. exact Hin.
    + intros pre key value post Heq Hpost. destruct pre as [|x pre].
      * injection Heq as -> -> ->. exists a. split; [assumption|].
        rewrite (Hother key Hpost). apply lookup_insert_eq.
      * injection Heq as _ ->. exact (Hlast pre key value post eq_refl Hpost).
Qed.

Lemma parseCryptFilters_keeps (cryptFilters : PDFDictionary) :
  forall (filters result : gmap string CryptFilter) (key : string),
    parseCryptFilters cryptFilters filters = Ok result ->
    is_Some (filters !! key) -> is_Some (result !! key).
Proof.
  induction cryptFilters as [|[key0 value0] rest IH]; intros filters result key Hparse Hkey;
    cbn [parseCryptFilters] in Hparse.
  - injection Hparse as <-. exact Hkey.
  - ok_step Hparse. apply (IH _ _ key Hparse).
    destruct (decide (key0 = key)) as [->|Hne].
    + rewrite lookup_insert_eq. eauto.
    + rewrite lookup_insert_ne by exact Hne. exact Hkey.
Qed.
End CreateSecurityHandler_more.

(** X4.  Every Standard handler that [createSecurityHandler] returns has
    [V] from 1 to 5 and [R] in 2, 3, 4, 6; [O] and [U] of 32 bytes, or of 48
    bytes for revision 6, which then also has [OE] and [UE] of 32 bytes and
    [Perms] of 16 bytes; a key length of 40, 128 or 256 bits for [V] 1, 4
    or 5; permissions that fit 32 bits; and the document id it was given. *)
Theorem createSecurityHandler_invariants `{defaults : HandlerDefaults}
    (dictionary : PDFDictionary) (id : QByteArray) (h : PDFStandardSecurityHandler) :
  createSecurityHandler (PDFDictionaryObject dictionary) id
  = Ok (PDFStandardSecurityHandlerPointer h) ->
  1 <= m_V h <= 5 /\
  (m_R h = 2 \/ m_R h = 3 \/ m_R h = 4 \/ m_R h = 6) /\
  Z.of_nat (length (m_O h)) = (if m_R h =? 6 then 48 else 32) /\
  Z.of_nat (length (m_U h)) = (if m_R h =? 6 then 48 else 32) /\
  (m_R h = 6 -> length (m_OE h) = 32%nat /\ length (m_UE h) = 32%nat /\
                length (m_Perms h) = 16%nat) /\
  (m_V h = 1 -> m_keyLength h = 40) /\
  (m_V h = 4 -> m_keyLength h = 128) /\
  (m_V h = 5 -> m_keyLength h = 256) /\
  0 <= m_permissions h < 2 ^ 32 /\
  m_ID h = id.
Proof.
  intros Hcreate.
  destruct (createSecurityHandler_inv dictionary id h Hcreate)
    as (HV & HR & HO & HU & HID & _).
  destruct (createSecurityHandler_fields dictionary id h Hcreate)
    as (H1 & H4 & H5 & HP & H6 & _).
  repeat (split; [assumption|]). assumption.
Qed.

Lemma createSecurityHandler_invariants_witness :
  createSecurityHandler (defaults := Sample.defaults)
    (PDFDictionaryObject Sample.encrypt6) []
  = Ok (PDFStandardSecurityHandlerPointer Sample.handler6) /\
  length (m_UE Sample.handler6) = 32%nat.
Proof.
  assert (Hcreate : createSecurityHandler (defaults := Sample.defaults)
                      (PDFDictionaryObject Sample.encrypt6) []
                    = Ok (PDFStandardSecurityHandlerPointer Sample.handler6))
    by (vm_compute; reflexivity).
  split; [exact Hcreate|].
  destruct (createSecurityHandler_invariants (defaults := Sample.defaults)
              Sample.encrypt6 [] Sample.handler6 Hcreate)
    as (_ & _ & _ & _ & H6 & _).
  exact (proj1 (proj2 (H6 eq_refl))).
Defined.

(** X5.  The crypt filters of [CF] are added in the order of the
    dictionary: a name that [CF] does not hold keeps the filter the table
    had, and a name that [CF] holds gets the filter parsed from its last
    entry of that name. *)
Theorem parseCryptFilters_last_wins `{defaults : HandlerDefaults}
    (cryptFilters : PDFDictionary) (filters result : gmap string CryptFilter) :
  parseCryptFilters cryptFilters filters = Ok result ->
  (forall key, (forall value, (key, value) ∉ cryptFilters) ->
               result !! key = filters !! key) /\
  (forall pre key value post,
      cryptFilters = pre ++ (key, value) :: post ->
      (forall value', (key, value') ∉ post) ->
      exists filter, parseCryptFilter value = Ok filter /\ result !! key = Some filter).
Proof.
  apply parseCryptFilters_lookup.
Qed.

Lemma parseCryptFilters_last_wins_witness :
  let first := PDFDictionaryObject [("CFM"%string, PDFName "V2")] in
  let second := PDFDictionaryObject [("CFM"%string, PDFName "AESV2")] in
  exists result : gmap string CryptFilter,
    parseCryptFilters [("A"%string, first); ("A"%string, second)] ∅ = Ok result /\
    result !! "A"%string = Some {| type := FilterAESV2; authEvent := DocOpen |}.
Proof.
  intros first second.
  destruct (parseCryptFilters [("A"%string, first); ("A"%string, second)] ∅)
    as [result|m] eqn:Hparse; [|vm_compute in Hparse; discriminate Hparse].
  exists result. split; [reflexivity|].
  destruct (proj2 (parseCryptFilters_last_wins (defaults := Sample.defaults) _ _ _ Hparse)
              [("A"%string, first)] "A"%string second [] eq_refl)
    as (filter & Hfilter & Hlookup).
  - intros value Hin. apply not_elem_of_nil in Hin. exact Hin.
  - rewrite Hlookup. vm_compute in Hfilter. injection Hfilter as <-. reflexivity.
Defined.

Section UnknownCryptFilter.
Context `{defaults : HandlerDefaults}.

Lemma getName_Throw (dictionary : PDFDictionary) (key : string) (required : bool)
    (defaultValue : option string) (m : Message) :
  getName dictionary key required defaultValue = Throw m -> m = MsgNameExpected key.
Proof.
  unfold getName. destruct (get dictionary key); destruct required;
    intros Hname; try discriminate Hname; injection Hname as <-; reflexivity.
Qed.

Lemma getInt_Throw (dictionary : PDFDictionary) (key : string) (required : bool)
    (defaultValue : Z) (m : Message) :
  toInt <$> getInt dictionary key required defaultValue = Throw m ->
  m = MsgIntegerExpected key.
Proof.
  unfold getInt. destruct (get dictionary key); destruct required;
    intros Hint; try discriminate Hint; injection Hint as <-; reflexivity.
Qed.

Lemma parseCryptFilter_Throw (object : PDFObject) (m : Message) :
  parseCryptFilter object = Throw m -> forall name, m <> MsgUnknownCryptFilter name.
Proof.
  intros Hparse name ->. unfold parseCryptFilter in Hparse.
  destruct object; try discriminate Hparse.
  destruct (getName _ "CFM" false _) as [CFMName|m] eqn:HCFM;
    [|apply getName_Throw in HCFM; subst m; discriminate Hparse].
  cbn [mbind Result_bind] in Hparse.
  destruct (if String.eqb CFMName "None" then _ else _) as [filterType|m] eqn:Htype.
  2: { cbn [mbind Result_bind] in Hparse. injection Hparse as ->.
       repeat match type of Htype with
              | context [if ?c then _ else _] => destruct c
              end; discriminate Htype. }
  cbn [mbind Result_bind] in Hparse.
  destruct (getName _ "AuthEvent" false _) as [authEventName|m] eqn:Hevent;
    [|apply getName_Throw in Hevent; subst m; discriminate Hparse].
  cbn [mbind Result_bind] in Hparse.
  repeat match type of Hparse with
         | context [if ?c then _ else _] => destruct c
         end; discriminate Hparse.
Qed.

Lemma parseCryptFilters_Throw (cryptFilters : PDFDictionary) :
  forall (filters : gmap string CryptFilter) (m : Message),
    parseCryptFilters cryptFilters filters = Throw m ->
    forall name, m <> MsgUnknownCryptFilter name.
Proof.
  induction cryptFilters as [|[key value] rest IH]; intros filters m Hparse;
    cbn [parseCryptFilters] in Hparse; [discriminate Hparse|].
  destruct (parseCryptFilter value) as [filter|m'] eqn:Hfilter;
    cbn [mbind Result_bind] in Hparse.
  - exact (IH _ _ Hparse).
  - injection Hparse as <-. exact (parseCryptFilter_Throw _ _ Hfilter).
Qed.

Lemma readByteArray_Throw (dictionary : PDFDictionary) (key : string) (size : Z)
    (m : Message) :
  readByteArray dictionary key size = Throw m -> forall name, m <> MsgUnknownCryptFilter name.
Proof.
  unfold readByteArray. intros Hread name ->.
  destruct (get dictionary key); try discriminate Hread.
  destruct (bool_decide _); discriminate Hread.
Qed.

Lemma readCryptFilters_Identity (dictionary : PDFDictionary)
    (filters : gmap string CryptFilter) :
  readCryptFilters dictionary identityFilters = Ok filters ->
  is_Some (filters !! "Identity"%string).
Proof.
  assert (Hidentity : is_Some (identityFilters !! "Identity"%string)).
  { unfold identityFilters. rewrite lookup_insert_eq. eauto. }
  unfold readCryptFilters.
  destruct (get dictionary "CF"); intros Htable;
    try (injection Htable as <-; exact Hidentity).
  exact (parseCryptFilters_keeps _ _ _ _ Htable Hidentity).
Qed.

(** The only step of [createSecurityHandler] that raises the unknown crypt
    filter error is [resolveFilter], for the name that [StmF], [StrF] or
    [EFF] gives. *)
Lemma createSecurityHandler_UnknownCryptFilter (dictionary : PDFDictionary)
    (id : QByteArray) (name : string) :
  createSecurityHandler (PDFDictionaryObject dictionary) id
  = Throw (MsgUnknownCryptFilter name) ->
  exists filters : gmap string CryptFilter,
    readCryptFilters dictionary identityFilters = Ok filters /\
    filters !! name = None /\
    (getName dictionary "StmF" false (Some "Identity"%string) = Ok name \/
     getName dictionary "StrF" false (Some "Identity"%string) = Ok name \/
     (hasKey dictionary "EFF" = true /\ getName dictionary "EFF" true None = Ok name)).
Proof.
  unfold createSecurityHandler. intros Hcreate.
  destruct (getName dictionary "Filter" true None) as [filterName|m] eqn:HFilter;
    [|apply getName_Throw in HFilter; subst m; discriminate Hcreate].
  cbn [mbind Result_bind] in Hcreate.
  destruct (negb (String.eqb filterName "Standard")); [discriminate Hcreate|].
  destruct (toInt <$> getInt dictionary "V" true (-1)) as [V|m] eqn:HV;
    [|apply getInt_Throw in HV; subst m; discriminate Hcreate].
  cbn [mbind Result_bind] in Hcreate.
  destruct ((V <? 1) || (V >? 5)); [discriminate Hcreate|].
  destruct (if V =? 1 then Ok 40 else _) as [Length|m] eqn:HLength.
  2: { cbn [mbind Result_bind] in Hcreate; injection Hcreate as ->.
       destruct (V =? 1); [discriminate HLength|].
       destruct ((V =? 2) || (V =? 3));
         [apply getInt_Throw in HLength; discriminate HLength|].
       destruct (V =? 4); discriminate HLength. }
  cbn [mbind Result_bind] in Hcreate.
  destruct (if (V =? 4) || (V =? 5) then _ else _)
    as [[[[filters filterStreams] filterStrings] filterEmbeddedFiles]|m] eqn:Hfilters.
  - exfalso. cbn [mbind Result_bind] in Hcreate.
    destruct (toInt <$> getInt dictionary "R" true (-1)) as [R|m] eqn:HR;
      [|apply getInt_Throw in HR; subst m; discriminate Hcreate].
    cbn [mbind Result_bind] in Hcreate.
    destruct ((R <? 2) || (R >? 6) || (R =? 5)); [discriminate Hcreate|].
    destruct (readByteArray dictionary "O" _) as [O|m] eqn:HO;
      [|cbn [mbind Result_bind] in Hcreate; injection Hcreate as ->; exact (readByteArray_Throw _ _ _ _ HO name eq_refl)].
    cbn [mbind Result_bind] in Hcreate.
    destruct (readByteArray dictionary "U" _) as [U|m] eqn:HU;
      [|cbn [mbind Result_bind] in Hcreate; injection Hcreate as ->; exact (readByteArray_Throw _ _ _ _ HU name eq_refl)].
    cbn [mbind Result_bind] in Hcreate.
    destruct (getInt dictionary "P" true (-1)) as [P|m] eqn:HP.
    2: { cbn [mbind Result_bind] in Hcreate; injection Hcreate as ->. unfold getInt in HP.
         destruct (get dictionary "P"); discriminate HP. }
    cbn [mbind Result_bind] in Hcreate.
    destruct (if R =? 6 then _ else _) as [[[OE UE] Perms]|m] eqn:Hentries;
      [discriminate Hcreate|].
    cbn [mbind Result_bind] in Hcreate; injection Hcreate as ->.
    destruct (R =? 6); [|discriminate Hentries].
    destruct (readByteArray dictionary "OE" 32) as [OE|m] eqn:HOE;
      [|cbn [mbind Result_bind] in Hentries; injection Hentries as ->; exact (readByteArray_Throw _ _ _ _ HOE name eq_refl)].
    cbn [mbind Result_bind] in Hentries.
    destruct (readByteArray dictionary "UE" 32) as [UE|m] eqn:HUE;
      [|cbn [mbind Result_bind] in Hentries; injection Hentries as ->; exact (readByteArray_Throw _ _ _ _ HUE name eq_refl)].
    cbn [mbind Result_bind] in Hentries.
    destruct (readByteArray dictionary "Perms" 16) as [Perms|m] eqn:HPerms;
      [discriminate Hentries|].
    cbn [mbind Result_bind] in Hentries; injection Hentries as ->. exact (readByteArray_Throw _ _ _ _ HPerms name eq_refl).
  - cbn [mbind Result_bind] in Hcreate; injection Hcreate as ->.
    destruct ((V =? 4) || (V =? 5)); [|discriminate Hfilters].
    destruct (readCryptFilters dictionary identityFilters) as [filters|m] eqn:Htable.
    2: { cbn [mbind Result_bind] in Hfilters; injection Hfilters as ->. unfold readCryptFilters in Htable.
         destruct (get dictionary "CF"); try discriminate Htable.
         destruct (parseCryptFilters_Throw _ _ _ Htable name eq_refl). }
    cbn [mbind Result_bind] in Hfilters. exists filters. split; [reflexivity|].
    destruct (getName dictionary "StmF" false _) as [StmF|m] eqn:HStmF;
      [|apply getName_Throw in HStmF; subst m; discriminate Hfilters].
    cbn [mbind Result_bind] in Hfilters.
    destruct (resolveFilter filters StmF) as [filterStreams|m] eqn:Hstreams.
    2: { cbn [mbind Result_bind] in Hfilters; injection Hfilters as ->. unfold resolveFilter in Hstreams.
         destruct (filters !! StmF) eqn:Hlookup; [discriminate Hstreams|].
         injection Hstreams as ->. auto. }
    cbn [mbind Result_bind] in Hfilters.
    destruct (getName dictionary "StrF" false _) as [StrF|m] eqn:HStrF;
      [|apply getName_Throw in HStrF; subst m; discriminate Hfilters].
    cbn [mbind Result_bind] in Hfilters.
    destruct (resolveFilter filters StrF) as [filterStrings|m] eqn:Hstrings.
    2: { cbn [mbind Result_bind] in Hfilters; injection Hfilters as ->. unfold resolveFilter in Hstrings.
         destruct (filters !! StrF) eqn:Hlookup; [discriminate Hstrings|].
         injection Hstrings as ->. auto. }
    cbn [mbind Result_bind] in Hfilters.
    destruct (hasKey dictionary "EFF") eqn:HhasEFF.
    + destruct (getName dictionary "EFF" true None) as [EFF|m] eqn:HEFF;
        [|apply getName_Throw in HEFF; subst m; discriminate Hfilters].
      cbn [mbind Result_bind] in Hfilters.
      destruct (resolveFilter filters EFF) as [filterEmbeddedFiles|m] eqn:Hembedded;
        [discriminate Hfilters|].
      cbn [mbind Result_bind] in Hfilters. cbn [mbind Result_bind] in Hfilters; injection Hfilters as ->.
      unfold resolveFilter in Hembedded.
      destruct (filters !! EFF) eqn:Hlookup; [discriminate Hembedded|].
      injection Hembedded as ->. auto.
    + discriminate Hfilters.
Qed.
End UnknownCryptFilter.

(** X6.  The table of every handler holds a filter under the name
    [Identity]; for [V] 4 or 5 a dictionary without [StmF] (or [StrF]) gets
    that entry as its filter for streams (or strings).  A missing
    assignment never raises the unknown crypt filter error: when
    [createSecurityHandler] raises it, it is for a name other than
    [Identity] that the dictionary itself gives as [StmF], [StrF] or
    [EFF] and that the table read from [CF] does not hold; a dictionary
    with none of the three entries never raises it. *)
Theorem createSecurityHandler_Identity `{defaults : HandlerDefaults}
    (dictionary : PDFDictionary) (id : QByteArray) :
  (forall h : PDFStandardSecurityHandler,
      createSecurityHandler (PDFDictionaryObject dictionary) id
      = Ok (PDFStandardSecurityHandlerPointer h) ->
      is_Some (m_cryptFilters h !! "Identity"%string) /\
      (m_V h = 4 \/ m_V h = 5 ->
       (get dictionary "StmF" = PDFNull ->
        m_cryptFilters h !! "Identity"%string = Some (m_filterStreams h)) /\
       (get dictionary "StrF" = PDFNull ->
        m_cryptFilters h !! "Identity"%string = Some (m_filterStrings h)))) /\
  (forall name : string,
      createSecurityHandler (PDFDictionaryObject dictionary) id
      = Throw (MsgUnknownCryptFilter name) ->
      name <> "Identity"%string /\
      (exists filters : gmap string CryptFilter,
          readCryptFilters dictionary identityFilters = Ok filters /\
          filters !! name = None) /\
      (get dictionary "StmF" = PDFName name \/
       get dictionary "StrF" = PDFName name \/
       (hasKey dictionary "EFF" = true /\ getName dictionary "EFF" true None = Ok name))) /\
  (get dictionary "StmF" = PDFNull ->
   get dictionary "StrF" = PDFNull ->
   hasKey dictionary "EFF" = false ->
   forall name : string,
     createSecurityHandler (PDFDictionaryObject dictionary) id
     <> Throw (MsgUnknownCryptFilter name)).
Proof.
  assert (Hraised : forall name : string,
            createSecurityHandler (PDFDictionaryObject dictionary) id
            = Throw (MsgUnknownCryptFilter name) ->
            name <> "Identity"%string /\
            (exists filters : gmap string CryptFilter,
                readCryptFilters dictionary identityFilters = Ok filters /\
                filters !! name = None) /\
            (get dictionary "StmF" = PDFName name \/
             get dictionary "StrF" = PDFName name \/
             (hasKey dictionary "EFF" = true /\
              getName dictionary "EFF" true None = Ok name))).
  { intros name Hcreate.
    destruct (createSecurityHandler_UnknownCryptFilter dictionary id name Hcreate)
      as (filters & Htable & Hnone & Hgiven).
    assert (Hname : name <> "Identity"%string).
    { intros ->. destruct (readCryptFilters_Identity dictionary filters Htable) as [f Hf].
      rewrite Hf in Hnone. discriminate Hnone. }
    split; [exact Hname|]. split; [eauto|].
    assert (Hexplicit : forall key,
              getName dictionary key false (Some "Identity"%string) = Ok name ->
              get dictionary key = PDFName name).
    { intros key Hkey. unfold getName in Hkey.
      destruct (get dictionary key); cbn in Hkey; injection Hkey as Heq;
        try (destruct (Hname (eq_sym Heq))). rewrite Heq. reflexivity. }
    destruct Hgiven as [HStmF|[HStrF|HEFF]]; auto. }
  split; [|split; [exact Hraised|]].
  - intros h Hcreate.
    destruct (createSecurityHandler_inv dictionary id h Hcreate)
      as (_ & _ & _ & _ & _ & Hfilters).
    destruct (createSecurityHandler_fields dictionary id h Hcreate)
      as (_ & _ & _ & _ & _ & Hplain).
    assert (Hidentity : is_Some (identityFilters !! "Identity"%string)).
    { unfold identityFilters. rewrite lookup_insert_eq. eauto. }
    split.
    + destruct (decide (m_V h = 4 \/ m_V h = 5)) as [HV|HV].
      * destruct (Hfilters HV) as (Htable & _).
        exact (readCryptFilters_Identity dictionary _ Htable).
      * rewrite (Hplain HV). exact Hidentity.
    + intros HV. destruct (Hfilters HV) as (_ & (StmF & HStmF & Hstreams)
                                             & (StrF & HStrF & Hstrings) & _).
      split; intros Hnull.
      * unfold getName in HStmF. rewrite Hnull in HStmF. injection HStmF as <-.
        exact Hstreams.
      * unfold getName in HStrF. rewrite Hnull in HStrF. injection HStrF as <-.
        exact Hstrings.
  - intros HStmF HStrF HEFF name Hcreate.
    destruct (Hraised name Hcreate) as (_ & _ & [Hc|[Hc|[Hc _]]]).
    + rewrite HStmF in Hc. discriminate Hc.
    + rewrite HStrF in Hc. discriminate Hc.
    + rewrite HEFF in Hc. discriminate Hc.
Qed.

Lemma createSecurityHandler_Identity_witness :
  createSecurityHandler (defaults := Sample.defaults)
    (PDFDictionaryObject Sample.encrypt6) []
  = Ok (PDFStandardSecurityHandlerPointer Sample.handler6) /\
  m_cryptFilters Sample.handler6 !! "Identity"%string
  = Some (m_filterStreams Sample.handler6).
Proof.
  assert (Hcreate : createSecurityHandler (defaults := Sample.defaults)
                      (PDFDictionaryObject Sample.encrypt6) []
                    = Ok (PDFStandardSecurityHandlerPointer Sample.handler6))
    by (vm_compute; reflexivity).
  split; [exact Hcreate|].
  apply (proj2 (proj1 (createSecurityHandler_Identity (defaults := Sample.defaults)
                         Sample.encrypt6 []) Sample.handler6 Hcreate));
    [right; reflexivity|reflexivity].
Defined.

(** X7.  [createSecurityHandler] returns the handler for unencrypted
    documents for the null object and for nothing else: an object that is
    neither null nor a dictionary is refused as an invalid encryption
    dictionary, and a dictionary never yields that handler; a dictionary
    without [Filter] is refused as an unknown security handler. *)
Theorem createSecurityHandler_None `{defaults : HandlerDefaults}
    (encryptionDictionaryObject : PDFObject) (id : QByteArray) :
  (createSecurityHandler encryptionDictionaryObject id = Ok PDFNoneSecurityHandler
   <-> encryptionDictionaryObject = PDFNull) /\
  (encryptionDictionaryObject <> PDFNull ->
   (forall dictionary, encryptionDictionaryObject <> PDFDictionaryObject dictionary) ->
   createSecurityHandler encryptionDictionaryObject id
   = Throw MsgInvalidEncryptionDictionary) /\
  (forall dictionary,
      encryptionDictionaryObject = PDFDictionaryObject dictionary ->
      get dictionary "Filter" = PDFNull ->
      createSecurityHandler encryptionDictionaryObject id
      = Throw MsgUnknownSecurityHandler).
Proof.
  split; [|split].
  - split.
    + intros Hcreate.
      destruct encryptionDictionaryObject; try reflexivity; try discriminate Hcreate.
      unfold createSecurityHandler in Hcreate.
      repeat ok_step Hcreate. discriminate Hcreate.
    + intros ->. reflexivity.
  - intros Hnull Hdict.
    destruct encryptionDictionaryObject; try reflexivity; [destruct (Hnull eq_refl)|].
    destruct (Hdict _ eq_refl).
  - intros dictionary -> Hfilter. unfold createSecurityHandler, getName.
    rewrite Hfilter. reflexivity.
Qed.

(** ** Passwords and keys of revisions 2, 3 and 4 *)

Lemma createPaddedPassword32_prefix (password : QByteArray) :
  createPaddedPassword32 (take 32 password) = createPaddedPassword32 password.
Proof.
  rewrite !createPaddedPassword32_take.
  destruct (Nat.le_gt_cases 32 (length password)) as [Hlong|Hshort].
  - rewrite (take_app_le password) by exact Hlong.
    rewrite take_app_le by (rewrite length_take; lia).
    apply take_take.
  - rewrite (take_ge password) by lia. reflexivity.
Qed.

(** X8.  Only the first 32 bytes of a password count for revisions 2, 3
    and 4: the padded password, the file encryption key, the user password
    recovered from an owner password and the outcome of a pass of
    [authenticate] are those of the password cut to 32 bytes. *)
Theorem password_first_32_bytes `{ossl : OpenSSL}
    (h : PDFStandardSecurityHandler) (data : AuthorizationData) (password : QByteArray) :
  createPaddedPassword32 (take 32 password) = createPaddedPassword32 password /\
  length (createPaddedPassword32 password) = 32%nat /\
  createFileEncryptionKey h (take 32 password) = createFileEncryptionKey h password /\
  createUserPasswordFromOwnerPassword h (take 32 password)
  = createUserPasswordFromOwnerPassword h password /\
  (m_R h = 2 \/ m_R h = 3 \/ m_R h = 4 ->
   attempt h data (take 32 password) = attempt h data password).
Proof.
  assert (Hkey : createFileEncryptionKey h (take 32 password)
                 = createFileEncryptionKey h password).
  { unfold createFileEncryptionKey. rewrite createPaddedPassword32_prefix. reflexivity. }
  assert (Huser : createUserPasswordFromOwnerPassword h (take 32 password)
                  = createUserPasswordFromOwnerPassword h password).
  { unfold createUserPasswordFromOwnerPassword.
    rewrite createPaddedPassword32_prefix. reflexivity. }
  split; [apply createPaddedPassword32_prefix|].
  split; [apply createPaddedPassword32_length|].
  split; [exact Hkey|]. split; [exact Huser|].
  intros HR. unfold attempt. rewrite bool_decide_eq_true_2 by exact HR.
  unfold attempt_r234. rewrite Huser, Hkey. reflexivity.
Qed.

Section KeyLength_facts.
Context `{ossl : OpenSSL} `{sizes : !OpenSSLSizes}.
Variable h : PDFStandardSecurityHandler.

Lemma rehash50_length (digest : QByteArray) : length (rehash50 h digest) = 16%nat.
Proof.
  unfold rehash50. change 50%nat with (S 49). cbn [Nat.iter]. apply MD5_DIGEST_LENGTH.
Qed.

Lemma createFileEncryptionKey_length (password key : QByteArray) :
  m_R h = 2 \/ m_R h = 3 \/ m_R h = 4 ->
  0 <= m_keyLength h ->
  createFileEncryptionKey h password = Ok key ->
  m_keyLength h / 8 <= 16 /\ length key = Z.to_nat (m_keyLength h / 8).
Proof.
  intros HR Hlen. unfold createFileEncryptionKey, keyByteLength.
  rewrite bool_decide_eq_true_2 by exact HR.
  rewrite Z.quot_div_nonneg by lia.
  destruct (Z.gtb_spec (m_keyLength h / 8) 16) as [Hgt|Hle]; [intros Hf; discriminate Hf|].
  intros Hkey. apply Ok_inj in Hkey. subst key. split; [exact Hle|].
  rewrite length_take.
  destruct (m_R h >=? 3); rewrite ?rehash50_length, ?MD5_DIGEST_LENGTH; lia.
Qed.

Lemma decryptPasses_O_length (digest buffer : QByteArray) :
  length (decryptPasses_O h digest buffer) = length buffer.
Proof.
  unfold decryptPasses_O. generalize (rev (seq 0 20)). intros passes.
  revert buffer. induction passes as [|i passes IH]; intros buffer; simpl.
  - reflexivity.
  - rewrite IH. apply RC4_length.
Qed.

Lemma createUserPasswordFromOwnerPassword_length (password userPassword : QByteArray) :
  createUserPasswordFromOwnerPassword h password = Ok userPassword ->
  length userPassword = length (m_O h).
Proof.
  unfold createUserPasswordFromOwnerPassword. intros Huser.
  repeat ok_step Huser; apply Ok_inj in Huser; subst userPassword.
  - apply RC4_length.
  - apply decryptPasses_O_length.
Qed.
End KeyLength_facts.

(** X9.  For revisions 2, 3 and 4 the file encryption key that
    [createFileEncryptionKey] returns has exactly [keyLength / 8] bytes,
    and it returns one only for a key length of at most 128 bits. *)
Theorem createFileEncryptionKey_key_length `{ossl : OpenSSL} `{sizes : !OpenSSLSizes}
    (h : PDFStandardSecurityHandler) (password key : QByteArray) :
  m_R h = 2 \/ m_R h = 3 \/ m_R h = 4 ->
  0 <= m_keyLength h ->
  createFileEncryptionKey h password = Ok key ->
  m_keyLength h / 8 <= 16 /\ length key = Z.to_nat (m_keyLength h / 8).
Proof.
  apply createFileEncryptionKey_length.
Qed.

Lemma createFileEncryptionKey_key_length_witness :
  exists key : QByteArray,
    createFileEncryptionKey (ossl := Sample.openssl) Sample.handler40 [x70] = Ok key /\
    length key = 5%nat.
Proof.
  destruct (createFileEncryptionKey (ossl := Sample.openssl) Sample.handler40 [x70])
    as [key|m] eqn:Hkey; [|vm_compute in Hkey; discriminate Hkey].
  exists key. split; [reflexivity|].
  exact (proj2 (createFileEncryptionKey_key_length (ossl := Sample.openssl)
                  Sample.handler40 [x70] key
                  (or_intror (or_introl eq_refl)) ltac:(simpl; lia) Hkey)).
Defined.

(** X10.  The user password that the owner check recovers from an owner
    password has the size of [O]; for a handler built by
    [createSecurityHandler] that is 32 bytes, and the key derivation uses
    it as it is, without padding. *)
Theorem createUserPasswordFromOwnerPassword_unpadded
    `{ossl : OpenSSL} `{sizes : !OpenSSLSizes} `{defaults : HandlerDefaults}
    (dictionary : PDFDictionary) (id : QByteArray) (h : PDFStandardSecurityHandler)
    (password userPassword : QByteArray) :
  createSecurityHandler (PDFDictionaryObject dictionary) id
  = Ok (PDFStandardSecurityHandlerPointer h) ->
  createUserPasswordFromOwnerPassword h password = Ok userPassword ->
  (m_R h = 2 \/ m_R h = 3 \/ m_R h = 4) /\
  length userPassword = 32%nat /\
  createPaddedPassword32 userPassword = userPassword.
Proof.
  intros Hcreate Huser.
  assert (HR : m_R h = 2 \/ m_R h = 3 \/ m_R h = 4).
  { unfold createUserPasswordFromOwnerPassword in Huser.
    repeat ok_step Huser; lia. }
  destruct (createSecurityHandler_inv dictionary id h Hcreate) as (_ & _ & HO & _).
  pose proof (createUserPasswordFromOwnerPassword_length h _ _ Huser) as Hlen.
  destruct (Z.eqb_spec (m_R h) 6) as [H6|_]; [lia|].
  assert (Hlen32 : length userPassword = 32%nat) by lia.
  split; [exact HR|]. split; [exact Hlen32|].
  rewrite createPaddedPassword32_take, take_app_le by lia.
  apply take_ge. lia.
Qed.

Lemma createUserPasswordFromOwnerPassword_unpadded_witness :
  exists (h : PDFStandardSecurityHandler) (userPassword : QByteArray),
    createSecurityHandler (defaults := Sample.defaults)
      (PDFDictionaryObject (Sample.encrypt false)) []
    = Ok (PDFStandardSecurityHandlerPointer h) /\
    createUserPasswordFromOwnerPassword (ossl := Sample.openssl) h [x70] = Ok userPassword /\
    createPaddedPassword32 userPassword = userPassword.
Proof.
  assert (Hcreate : exists h : PDFStandardSecurityHandler,
             createSecurityHandler (defaults := Sample.defaults)
               (PDFDictionaryObject (Sample.encrypt false)) []
             = Ok (PDFStandardSecurityHandlerPointer h)).
  { eexists. vm_compute. reflexivity. }
  destruct Hcreate as (h & Hcreate).
  destruct (createUserPasswordFromOwnerPassword (ossl := Sample.openssl) h [x70])
    as [userPassword|m] eqn:Huser.
  - exists h, userPassword. split; [exact Hcreate|]. split; [exact Huser|].
    exact (proj2 (proj2 (createUserPasswordFromOwnerPassword_unpadded
                           (ossl := Sample.openssl) (defaults := Sample.defaults)
                           (Sample.encrypt false) [] h [x70] userPassword Hcreate Huser))).
  - vm_compute in Hcreate. apply Ok_inj in Hcreate. injection Hcreate as <-.
    vm_compute in Huser. discriminate Huser.
Defined.

(** ** [authenticate]: what a pass and the loop end with *)

Section Authenticate_more.
Context `{ossl : OpenSSL}.
Variable h : PDFStandardSecurityHandler.

Lemma createFileEncryptionKey_guard (password key : QByteArray) :
  createFileEncryptionKey h password = Ok key ->
  m_R h = 2 \/ m_R h = 3 \/ m_R h = 4 ->
  (keyByteLength h >? 16) = false.
Proof.
  unfold createFileEncryptionKey. intros Hkey HR.
  rewrite bool_decide_eq_true_2 in Hkey by exact HR.
  destruct (keyByteLength h >? 16); [discriminate Hkey|reflexivity].
Qed.

Lemma createFileEncryptionKey_Ok (password : QByteArray) :
  m_R h = 2 \/ m_R h = 3 \/ m_R h = 4 ->
  (keyByteLength h >? 16) = false ->
  exists key, createFileEncryptionKey h password = Ok key.
Proof.
  intros HR Hguard. unfold createFileEncryptionKey.
  rewrite bool_decide_eq_true_2 by exact HR. rewrite Hguard. eauto.
Qed.

Lemma createUserPasswordFromOwnerPassword_Ok (password : QByteArray) :
  m_R h = 2 \/ m_R h = 3 \/ m_R h = 4 ->
  (keyByteLength h >? 16) = false ->
  exists userPassword, createUserPasswordFromOwnerPassword h password = Ok userPassword.
Proof.
  intros HR Hguard. unfold createUserPasswordFromOwnerPassword. rewrite Hguard.
  destruct (Z.eqb_spec (m_R h) 2); [eauto|].
  rewrite (proj2 (orb_true_iff _ _)) by lia. eauto.
Qed.

Lemma createEntryValueU_r234_Ok (key : QByteArray) :
  m_R h = 2 \/ m_R h = 3 \/ m_R h = 4 ->
  exists U, createEntryValueU_r234 h key = Ok U.
Proof.
  intros HR. unfold createEntryValueU_r234.
  destruct (Z.eqb_spec (m_R h) 2); [eauto|].
  rewrite (proj2 (orb_true_iff _ _)) by lia. eauto.
Qed.

Lemma attempt_r234_stored_U (password key : QByteArray) :
  m_R h = 2 \/ m_R h = 3 \/ m_R h = 4 ->
  createFileEncryptionKey h password = Ok key ->
  createEntryValueU_r234 h key = Ok (m_U h) ->
  exists (r : AuthorizationResult) (key' : QByteArray),
    (r = OwnerAuthorized \/ (r = UserAuthorized /\ key' = key)) /\
    forall data : AuthorizationData,
      attempt h data password
      = Ok (Return r {| authorizationResult := r; fileEncryptionKey := key' |}).
Proof.
  intros HR Hkey HU.
  pose proof (createFileEncryptionKey_guard _ _ Hkey HR) as Hguard.
  destruct (createUserPasswordFromOwnerPassword_Ok password HR Hguard) as (up & Hup).
  destruct (createFileEncryptionKey_Ok up HR Hguard) as (ownerKey & HownerKey).
  destruct (createEntryValueU_r234_Ok ownerKey HR) as (ownerU & HownerU).
  assert (Hunfold : forall data, attempt h data password
            = if bool_decide (ownerU = m_U h)
              then Ok (Return OwnerAuthorized
                         {| authorizationResult := OwnerAuthorized;
                            fileEncryptionKey := ownerKey |})
              else Ok (Return UserAuthorized
                         {| authorizationResult := UserAuthorized;
                            fileEncryptionKey := key |})).
  { intros data. unfold attempt. rewrite bool_decide_eq_true_2 by exact HR.
    unfold attempt_r234. rewrite Hup. cbn [mbind Result_bind].
    rewrite HownerKey. cbn [mbind Result_bind].
    rewrite HownerU. cbn [mbind Result_bind].
    case_bool_decide as Howner; [reflexivity|].
    rewrite Hkey. cbn [mbind Result_bind]. rewrite HU. cbn [mbind Result_bind].
    rewrite bool_decide_eq_true_2 by reflexivity. reflexivity. }
  destruct (bool_decide (ownerU = m_U h)).
  - exists OwnerAuthorized, ownerKey. split; [left; reflexivity|exact Hunfold].
  - exists UserAuthorized, key. split; [right; split; reflexivity|exact Hunfold].
Qed.

Variable getPasswordCallback : PasswordCallback.

Let notAuthorized (password : QByteArray) : Prop :=
  attempt h AuthorizationData_default password = Ok (Break AuthorizationData_default).

Lemma authenticateLoop_Return (fuel : nat) :
  forall (invocations : nat) (r : AuthorizationResult) (data : AuthorizationData) (n : nat),
    r <> Cancelled ->
    authenticateLoop h fuel getPasswordCallback invocations AuthorizationData_default
      (candidate getPasswordCallback invocations)
    = (Some (Ok (r, data)), n)
    <->
    (invocations <= n < invocations + fuel)%nat /\
    (forall j, (invocations <= j < n)%nat ->
               snd (getPasswordCallback j) = true /\
               notAuthorized (candidate getPasswordCallback j)) /\
    attempt h AuthorizationData_default (candidate getPasswordCallback n)
    = Ok (Return r data).
Proof.
  unfold notAuthorized.
  induction fuel as [|fuel IH]; intros invocations r data n Hr; cbn [authenticateLoop].
  - split; [intros Hf; discriminate Hf|intros (Hn & _); lia].
  - destruct (attempt h AuthorizationData_default (candidate getPasswordCallback invocations))
      as [[r' d'|d']|m] eqn:Hattempt.
    + split.
      * intros Hres. injection Hres as -> -> <-.
        split; [lia|]. split; [intros j Hj; lia|exact Hattempt].
      * intros (Hn & Hbefore & Hlast).
        destruct (decide (n = invocations)) as [->|Hne].
        -- rewrite Hattempt in Hlast. injection Hlast as -> ->. reflexivity.
        -- destruct (Hbefore invocations ltac:(lia)) as [_ Hf].
           rewrite Hattempt in Hf. discriminate Hf.
    + destruct (attempt_Break h _ _ _ Hattempt) as [-> _].
      destruct (getPasswordCallback invocations) as [answer passwordObtained] eqn:Hcb.
      assert (Hnext : toUtf8 answer = candidate getPasswordCallback (S invocations))
        by (cbn [candidate]; rewrite Hcb; reflexivity).
      destruct passwordObtained.
      * rewrite Hnext, (IH (S invocations) r data n Hr). split.
        -- intros (Hn & Hbefore & Hlast). split; [lia|]. split; [|exact Hlast].
           intros j Hj. destruct (decide (j = invocations)) as [->|Hne].
           ++ rewrite Hcb. split; [reflexivity|exact Hattempt].
           ++ apply Hbefore. lia.
        -- intros (Hn & Hbefore & Hlast).
           assert (n <> invocations).
           { intros ->. rewrite Hattempt in Hlast. discriminate Hlast. }
           split; [lia|]. split; [|exact Hlast].
           intros j Hj. apply Hbefore. lia.
      * split.
        -- intros Hres. injection Hres as <- _ _. destruct (Hr eq_refl).
        -- intros (Hn & Hbefore & Hlast).
           destruct (decide (n = invocations)) as [->|Hne].
           ++ rewrite Hattempt in Hlast. discriminate Hlast.
           ++ destruct (Hbefore invocations ltac:(lia)) as [Hf _].
              rewrite Hcb in Hf. discriminate Hf.
    + split.
      * intros Hf. discriminate Hf.
      * intros (Hn & Hbefore & Hlast).
        destruct (decide (n = invocations)) as [->|Hne].
        -- rewrite Hattempt in Hlast. discriminate Hlast.
        -- destruct (Hbefore invocations ltac:(lia)) as [_ Hf].
           rewrite Hattempt in Hf. discriminate Hf.
Qed.

Lemma authenticateLoop_outcome (fuel : nat) :
  forall (invocations : nat) (password : QByteArray)
         (r : AuthorizationResult) (data : AuthorizationData) (n : nat),
    authenticateLoop h fuel getPasswordCallback invocations AuthorizationData_default password
    = (Some (Ok (r, data)), n) ->
    (r = Cancelled /\ data = AuthorizationData_default) \/
    exists tried, attempt h AuthorizationData_default tried = Ok (Return r data).
Proof.
  induction fuel as [|fuel IH]; intros invocations password r data n; cbn [authenticateLoop].
  - intros Hf. discriminate Hf.
  - destruct (attempt h AuthorizationData_default password) as [[r' d'|d']|m] eqn:Hattempt.
    + intros Hres. injection Hres as -> -> _. right. eauto.
    + destruct (attempt_Break h _ _ _ Hattempt) as [-> _].
      destruct (getPasswordCallback invocations) as [answer passwordObtained].
      destruct passwordObtained.
      * apply IH.
      * intros Hres. injection Hres as <- <- _. left. auto.
    + intros Hf. discriminate Hf.
Qed.

Lemma authenticate_key_too_long (fuel : nat) :
  m_R h = 2 \/ m_R h = 3 \/ m_R h = 4 ->
  (keyByteLength h >? 16) = true ->
  authenticate h (S fuel) getPasswordCallback
  = (Some (Throw (MsgKeyLengthExceeded (keyByteLength h))), 0%nat).
Proof.
  intros HR Hguard. unfold authenticate. cbn [authenticateLoop].
  unfold attempt. rewrite bool_decide_eq_true_2 by exact HR.
  unfold attempt_r234, createUserPasswordFromOwnerPassword. rewrite Hguard.
  reflexivity.
Qed.
End Authenticate_more.

(** X11.  Revisions 2, 3 and 4: a password whose file encryption key
    reproduces the stored entry [U] authorizes, as owner when the owner
    check matches as well and else as user with that key; the empty
    password of this kind ends [authenticate] in its first pass, before the
    callback is invoked. *)
Theorem authenticate_stored_U `{ossl : OpenSSL}
    (h : PDFStandardSecurityHandler) (password key : QByteArray) :
  m_R h = 2 \/ m_R h = 3 \/ m_R h = 4 ->
  createFileEncryptionKey h password = Ok key ->
  createEntryValueU_r234 h key = Ok (m_U h) ->
  exists (r : AuthorizationResult) (key' : QByteArray),
    (r = OwnerAuthorized \/ (r = UserAuthorized /\ key' = key)) /\
    (forall data : AuthorizationData,
        attempt h data password
        = Ok (Return r {| authorizationResult := r; fileEncryptionKey := key' |})) /\
    (password = [] ->
     forall (fuel : nat) (getPasswordCallback : PasswordCallback),
       authenticate h (S fuel) getPasswordCallback
       = (Some (Ok (r, {| authorizationResult := r; fileEncryptionKey := key' |})), 0%nat)).
Proof.
  intros HR Hkey HU.
  destruct (attempt_r234_stored_U h password key HR Hkey HU) as (r & key' & Hr & Hattempt).
  exists r, key'. split; [exact Hr|]. split; [exact Hattempt|].
  intros -> fuel getPasswordCallback. unfold authenticate. cbn [authenticateLoop].
  rewrite Hattempt. reflexivity.
Qed.

Lemma authenticate_stored_U_witness :
  exists (r : AuthorizationResult) (key' : QByteArray),
    createFileEncryptionKey (ossl := Sample.openssl) SampleMore.handlerSecret
      SampleMore.secret = Ok SampleMore.secretKey /\
    attempt (ossl := Sample.openssl) SampleMore.handlerSecret AuthorizationData_default
      SampleMore.secret
    = Ok (Return r {| authorizationResult := r; fileEncryptionKey := key' |}).
Proof.
  assert (Hkey : createFileEncryptionKey (ossl := Sample.openssl) SampleMore.handlerSecret
                   SampleMore.secret = Ok SampleMore.secretKey)
    by (vm_compute; reflexivity).
  destruct (authenticate_stored_U (ossl := Sample.openssl) SampleMore.handlerSecret
              SampleMore.secret SampleMore.secretKey
              (or_introl eq_refl) Hkey ltac:(vm_compute; reflexivity))
    as (r & key' & _ & Hattempt & _).
  exists r, key'. split; [exact Hkey|]. apply Hattempt.
Defined.

(** X12.  [authenticate] returns the authorization of the first password
    that a pass accepts: a result other than [Cancelled] after [n]
    invocations of the callback means that the first [n] passwords (the
    empty one, then the answers) were rejected, each followed by an answer
    with a true flag, and that the pass on the [n]-th answer returned that
    result. *)
Theorem authenticate_first_accepted `{ossl : OpenSSL}
    (h : PDFStandardSecurityHandler) (getPasswordCallback : PasswordCallback)
    (fuel : nat) (r : AuthorizationResult) (data : AuthorizationData) (n : nat) :
  r <> Cancelled ->
  authenticate h fuel getPasswordCallback = (Some (Ok (r, data)), n)
  <->
  (n < fuel)%nat /\
  (forall j, (j < n)%nat ->
             snd (getPasswordCallback j) = true /\
             attempt h AuthorizationData_default (candidate getPasswordCallback j)
             = Ok (Break AuthorizationData_default)) /\
  attempt h AuthorizationData_default (candidate getPasswordCallback n)
  = Ok (Return r data).
Proof.
  intros Hr. unfold authenticate.
  change [] with (candidate getPasswordCallback 0).
  rewrite (authenticateLoop_Return h getPasswordCallback fuel 0 r data n Hr).
  split; intros (Hn & Hbefore & Hlast); (split; [lia|]); (split; [|exact Hlast]);
    intros j Hj; apply Hbefore; lia.
Qed.

Lemma authenticate_first_accepted_witness :
  exists (r : AuthorizationResult) (data : AuthorizationData),
    r <> Cancelled /\
    authenticate (ossl := Sample.openssl) SampleMore.handlerSecret 3 SampleMore.knowsSecret
    = (Some (Ok (r, data)), 1%nat).
Proof.
  destruct (attempt (ossl := Sample.openssl) SampleMore.handlerSecret
              AuthorizationData_default (candidate SampleMore.knowsSecret 1))
    as [[r data|data]|m] eqn:Hattempt;
    [|vm_compute in Hattempt; discriminate Hattempt
     |vm_compute in Hattempt; discriminate Hattempt].
  assert (Hr : r <> Cancelled).
  { vm_compute in Hattempt. apply Ok_inj in Hattempt. injection Hattempt as <- _.
    intros Hc. discriminate Hc. }
  exists r, data. split; [exact Hr|].
  apply (proj2 (authenticate_first_accepted (ossl := Sample.openssl)
                  SampleMore.handlerSecret SampleMore.knowsSecret 3 r data 1 Hr)).
  split; [lia|]. split; [|exact Hattempt].
  intros j Hj. assert (j = 0%nat) as -> by lia. split; vm_compute; reflexivity.
Defined.

(** X13.  A handler built by [createSecurityHandler] never makes
    [authenticate] return [Failed]: a result is [Cancelled], with cleared
    authorization data, or [OwnerAuthorized] or [UserAuthorized], with
    authorization data that say the same. *)
Theorem authenticate_never_Failed `{ossl : OpenSSL} `{defaults : HandlerDefaults}
    (dictionary : PDFDictionary) (id : QByteArray) (h : PDFStandardSecurityHandler)
    (getPasswordCallback : PasswordCallback) (fuel : nat)
    (r : AuthorizationResult) (data : AuthorizationData) (n : nat) :
  createSecurityHandler (PDFDictionaryObject dictionary) id
  = Ok (PDFStandardSecurityHandlerPointer h) ->
  authenticate h fuel getPasswordCallback = (Some (Ok (r, data)), n) ->
  (r = Cancelled /\ data = AuthorizationData_default) \/
  ((r = OwnerAuthorized \/ r = UserAuthorized) /\
   authorizationResult data = r /\ isAuthorized data = true).
Proof.
  intros Hcreate Hauth.
  destruct (createSecurityHandler_inv dictionary id h Hcreate) as (_ & HR & _).
  destruct (authenticateLoop_outcome h getPasswordCallback fuel _ _ _ _ _ Hauth)
    as [Hcancelled|(tried & Hattempt)]; [left; exact Hcancelled|].
  right. destruct (attempt_Return_authorized h _ _ _ _ HR Hattempt) as [Hr Hdata].
  split; [exact Hr|]. split; [exact Hdata|].
  unfold isAuthorized. rewrite Hdata. destruct Hr as [->| ->]; reflexivity.
Qed.

Lemma authenticate_never_Failed_witness :
  exists (h : PDFStandardSecurityHandler) (r : AuthorizationResult)
         (data : AuthorizationData) (n : nat),
    createSecurityHandler (defaults := Sample.defaults)
      (PDFDictionaryObject (Sample.encrypt false)) []
    = Ok (PDFStandardSecurityHandlerPointer h) /\
    authenticate (ossl := Sample.openssl) h 3 Sample.guessOnce
    = (Some (Ok (r, data)), n) /\
    ((r = Cancelled /\ data = AuthorizationData_default) \/
     ((r = OwnerAuthorized \/ r = UserAuthorized) /\
      authorizationResult data = r /\ isAuthorized data = true)).
Proof.
  assert (Hcreate : exists h, createSecurityHandler (defaults := Sample.defaults)
                      (PDFDictionaryObject (Sample.encrypt false)) []
                    = Ok (PDFStandardSecurityHandlerPointer h))
    by (eexists; vm_compute; reflexivity).
  destruct Hcreate as (h & Hcreate).
  destruct (authenticate (ossl := Sample.openssl) h 3 Sample.guessOnce)
    as [[[[r data]|m]|] n] eqn:Hauth.
  2,3: vm_compute in Hcreate; apply Ok_inj in Hcreate; injection Hcreate as <-;
       vm_compute in Hauth; discriminate Hauth.
  exists h, r, data, n. split; [exact Hcreate|]. split; [exact Hauth|].
  exact (authenticate_never_Failed (ossl := Sample.openssl)
           (defaults := Sample.defaults) (Sample.encrypt false) [] h
           Sample.guessOnce 3 r data n Hcreate Hauth).
Defined.

(** X14.  Revisions 2, 3 and 4 with a key longer than 128 bits:
    [authenticate] raises the key length exception in its first pass and
    has not invoked the callback; it returns no result, not even
    [Cancelled]. *)
Theorem authenticate_long_key `{ossl : OpenSSL}
    (h : PDFStandardSecurityHandler) (getPasswordCallback : PasswordCallback)
    (fuel : nat) :
  m_R h = 2 \/ m_R h = 3 \/ m_R h = 4 ->
  0 <= m_keyLength h ->
  16 < m_keyLength h / 8 ->
  authenticate h (S fuel) getPasswordCallback
  = (Some (Throw (MsgKeyLengthExceeded (m_keyLength h / 8))), 0%nat).
Proof.
  intros HR Hlen Hlong.
  rewrite (authenticate_key_too_long h getPasswordCallback fuel HR).
  - unfold keyByteLength. rewrite Z.quot_div_nonneg by lia. reflexivity.
  - unfold keyByteLength. rewrite Z.quot_div_nonneg by lia. lia.
Qed.

Lemma authenticate_long_key_witness :
  authenticate (ossl := Sample.openssl) Sample.handlerLongKey 1 Sample.guessOnce
  = (Some (Throw (MsgKeyLengthExceeded 32)), 0%nat).
Proof.
  apply (authenticate_long_key (ossl := Sample.openssl) Sample.handlerLongKey
           Sample.guessOnce 0).
  - right. left. reflexivity.
  - simpl. lia.
  - vm_compute. reflexivity.
Defined.

(** ** [findFromEnd] and the footer of the document *)

Lemma findFromEnd_cases (NOT_FOUND : Z) (what byteArray : QByteArray) (limit : Z) :
  findFromEnd NOT_FOUND what byteArray limit = NOT_FOUND \/
  (what <> [] /\ byteArray <> [] /\ 0 < limit /\
   0 <= findFromEnd NOT_FOUND what byteArray limit /\
   occursAt what byteArray limit (findFromEnd NOT_FOUND what byteArray limit)).
Proof.
  unfold findFromEnd.
  case_bool_decide as Hnil; [left; reflexivity|].
  destruct (Z.ltb_spec (Z.min (Z.of_nat (length byteArray)) limit) (Z.of_nat (length what)))
    as [Hshort|Hfits]; [left; reflexivity|].
  destruct (decide (what = [])) as [->|Hne].
  { left. cbn [find_end]. rewrite bool_decide_eq_true_2 by reflexivity. reflexivity. }
  assert (Hlen : (0 < length what)%nat) by (destruct what; simpl; [congruence|lia]).
  destruct (find_end_spec byteArray what Hne
              (Z.to_nat (Z.of_nat (length byteArray) - Z.min (Z.of_nat (length byteArray)) limit)))
    as [[Hr _]|(Hr & Hm & _)].
  - left. rewrite Hr, bool_decide_eq_true_2 by reflexivity. reflexivity.
  - right. rewrite bool_decide_eq_false_2 by lia. cbn [negb].
    split; [exact Hne|]. split; [exact Hnil|]. split; [lia|]. split; [lia|].
    pose proof (matchesAt_inside byteArray what Hne _ Hm) as Hinside.
    unfold occursAt, windowStart. rewrite Nat2Z.id.
    split; [lia|]. split; [lia|]. apply matchesAt_true. exact Hm.
Qed.

(** X15.  [findFromEnd] answers [FIND_NOT_FOUND_RESULT] for an empty
    pattern, for an empty buffer and for a limit that is not positive; any
    other answer is an index inside the buffer, not before the start of
    the trailing window, at which the whole pattern lies inside the buffer:
    the position after the pattern, where [readFromBuffer] starts the
    lexical analyzer, is never beyond the end of the buffer. *)
Theorem findFromEnd_inside (NOT_FOUND : Z) (what byteArray : QByteArray) (limit : Z) :
  let r := findFromEnd NOT_FOUND what byteArray limit in
  (what = [] \/ byteArray = [] \/ limit <= 0 -> r = NOT_FOUND) /\
  (r <> NOT_FOUND ->
   0 <= r /\ windowStart byteArray limit <= r /\
   r + Z.of_nat (length what) <= Z.of_nat (length byteArray) /\
   take (length what) (drop (Z.to_nat r) byteArray) = what).
Proof.
  intros r. subst r.
  destruct (findFromEnd_cases NOT_FOUND what byteArray limit)
    as [Hnone|(Hwhat & Hbytes & Hlimit & Hpos & Hstart & Hend & Hmatch)].
  - split; [intros _; exact Hnone|intros Hf; destruct (Hf Hnone)].
  - split; [intros [Hc|[Hc|Hc]]; [destruct (Hwhat Hc)|destruct (Hbytes Hc)|lia]|].
    intros _. auto.
Qed.

Lemma findFromEnd_absent (NOT_FOUND : Z) (what byteArray : QByteArray) (limit : Z) :
  (forall i, ~ occursAt what byteArray limit i) ->
  findFromEnd NOT_FOUND what byteArray limit = NOT_FOUND.
Proof.
  intros Habsent.
  destruct (findFromEnd_cases NOT_FOUND what byteArray limit)
    as [Hnone|(_ & _ & _ & _ & Hocc)]; [exact Hnone|].
  destruct (Habsent _ Hocc).
Qed.

(** X16.  A buffer that is empty, or that has no end of file mark in its
    trailing window, is refused at once: [readFromBuffer] returns the
    default document and leaves the reader failed with the message of the
    missing mark and its version untouched, whatever the rest of the
    buffer, the callback and the execution orders. *)
Theorem readFromBuffer_no_end_of_file
    `{ossl : OpenSSL} `{defaults : HandlerDefaults} `{collab : Collaborators}
    (entryOrder : ExecutionOrder XRefEntry)
    (streamOrder : ExecutionOrder PDFObjectReference)
    (m_getPasswordCallback : PasswordCallback) (fuel : nat)
    (reader : PDFDocumentReader) (buffer : QByteArray) :
  buffer = [] \/
  (forall i, ~ occursAt PDF_END_OF_FILE_MARK buffer PDF_FOOTER_SCAN_LIMIT i) ->
  readFromBuffer entryOrder streamOrder m_getPasswordCallback fuel reader buffer
  = Some (PDFDocument_default, fail reader MsgEndOfFileNotFound) /\
  m_version (fail reader MsgEndOfFileNotFound) = m_version reader.
Proof.
  intros Hbuffer. split; [|reflexivity].
  assert (Hnone : findFromEnd FIND_NOT_FOUND_RESULT PDF_END_OF_FILE_MARK buffer
                    PDF_FOOTER_SCAN_LIMIT = FIND_NOT_FOUND_RESULT).
  { destruct Hbuffer as [->|Habsent]; [reflexivity|].
    apply findFromEnd_absent, Habsent. }
  unfold readFromBuffer, readFromBufferBody, readFooter.
  rewrite Hnone, bool_decide_eq_true_2 by reflexivity. reflexivity.
Qed.

Lemma readFromBuffer_no_end_of_file_witness :
  readFromBuffer (ossl := Sample.openssl) (defaults := Sample.defaults)
    (collab := Sample.collaborators) sequential sequential
    Sample.decline 1 Sample.readerAfterReset []
  = Some (PDFDocument_default, fail Sample.readerAfterReset MsgEndOfFileNotFound).
Proof.
  apply (readFromBuffer_no_end_of_file (ossl := Sample.openssl)
           (defaults := Sample.defaults) (collab := Sample.collaborators)).
  left. reflexivity.
Defined.

(** X17.  [readFromBuffer] does not reset the reader.  Called on a reader
    whose success flag is already false, every task of both phases skips
    its work: the reader stays failed, and the document returned, if it is
    not the default document, holds nothing but empty slots. *)
Theorem readFromBuffer_stale_failure
    `{ossl : OpenSSL} `{defaults : HandlerDefaults} `{collab : Collaborators}
    (entryOrder : ExecutionOrder XRefEntry)
    (streamOrder : ExecutionOrder PDFObjectReference)
    (m_getPasswordCallback : PasswordCallback) (fuel : nat)
    (reader reader' : PDFDocumentReader) (buffer : QByteArray) (document : PDFDocument) :
  m_successfull reader = false ->
  readFromBuffer entryOrder streamOrder m_getPasswordCallback fuel reader buffer
  = Some (document, reader') ->
  m_successfull reader' = false /\
  Forall (fun entry => entry = StorageEntry_default) (objects document).
Proof.
  intros Hflag Hread.
  unfold readFromBuffer, readFromBufferBody in Hread.
  destruct (readFooter buffer) as [firstXrefTableOffset|m].
  2: { injection Hread as <- <-. split; [reflexivity|constructor]. }
  assert (Hheader : m_successfull (fst (readHeader reader buffer)) = false).
  { unfold readHeader. destruct (headerSearch _) as [[c1 c2]|]; [|exact Hflag].
    cbn. destruct (isValid _); exact Hflag. }
  destruct (readHeader reader buffer) as [reader1 [[]|m]]; cbn [fst] in Hheader.
  2: { injection Hread as <- <-. split; [reflexivity|constructor]. }
  destruct (readXRefTable buffer firstXrefTableOffset) as [xrefTable|m].
  2: { injection Hread as <- <-. split; [reflexivity|constructor]. }
  unfold readObjects in Hread.
  destruct (forEach (entryActions buffer xrefTable) _ _ _)
    as [[[reader5 objs5] log5]|e] eqn:Hphase5; [|discriminate Hread].
  apply (forEach_failed _ _ _ _ _ _ _ _ Hheader) in Hphase5 as (-> & -> & _).
  destruct (match getTrailerDictionary xrefTable with
            | PDFDictionaryObject d | PDFStreamObject d _ => Some d
            | _ => None
            end) as [trailer|].
  2: { injection Hread as <- <-. split; [reflexivity|constructor]. }
  destruct (createSecurityHandler _ _) as [handler|m].
  2: { injection Hread as <- <-. split; [reflexivity|constructor]. }
  destruct (authenticateHandler _ _ _) as [[[authorization data]|m]|].
  3: { discriminate Hread. }
  2: { injection Hread as <- <-. split; [reflexivity|constructor]. }
  destruct (bool_decide _).
  { injection Hread as <- <-. split; [reflexivity|constructor]. }
  destruct (forEach (streamActions buffer xrefTable _) _ _ _)
    as [[[reader9 objs9] log9]|e] eqn:Hphase9; [|discriminate Hread].
  apply (forEach_failed _ _ _ _ _ _ _ _ Hheader) in Hphase9 as (-> & -> & _).
  injection Hread as <- <-. split; [exact Hheader|].
  cbn [objects]. apply Forall_replicate. reflexivity.
Qed.

Lemma readFromBuffer_stale_failure_witness :
  exists (document : PDFDocument) (reader' : PDFDocumentReader),
    readFromBuffer (ossl := Sample.openssl) (defaults := Sample.defaults)
      (collab := Sample.collaborators) sequential sequential
      Sample.decline 1 SampleMore.readerAfterFailure SampleMore.wellFormed
    = Some (document, reader') /\
    m_successfull reader' = false /\
    Forall (fun entry => entry = StorageEntry_default) (objects document).
Proof.
  destruct (readFromBuffer (ossl := Sample.openssl) (defaults := Sample.defaults)
              (collab := Sample.collaborators) sequential
              sequential Sample.decline 1 SampleMore.readerAfterFailure
              SampleMore.wellFormed)
    as [[document reader']|] eqn:Hread; [|vm_compute in Hread; discriminate Hread].
  exists document, reader'. split; [reflexivity|].
  exact (readFromBuffer_stale_failure (ossl := Sample.openssl) (defaults := Sample.defaults)
           (collab := Sample.collaborators) sequential
           sequential Sample.decline 1 SampleMore.readerAfterFailure reader'
           SampleMore.wellFormed document eq_refl Hread).
Defined.

(** ** Phase 5: the run of [processEntry] over the occupied entries

    [processEntry] applied to the entries one after the other is the loop
    of phase 5 in an execution that runs the tasks in order; the lemma
    [forEach_processEntry] below says so for the execution [sequential]. *)

Section Tasks_facts.
Context `{collab : Collaborators}.
Variable buffer : QByteArray.
Variable xrefTable : PDFXRefTable.

Lemma processEntry_skip (s : PDFDocumentReader * PDFObjects) (entry : XRefEntry) :
  m_successfull (fst s) = false -> processEntry buffer xrefTable s entry = s.
Proof.
  destruct s as [reader objs]. cbn [fst]. intros Hflag.
  unfold processEntry. rewrite Hflag. reflexivity.
Qed.

End Tasks_facts.

Section Runs_facts.
Context {A : Type}.
Variable task : PDFDocumentReader * PDFObjects -> A -> PDFDocumentReader * PDFObjects.
Hypothesis task_skip : forall s a, m_successfull (fst s) = false -> task s a = s.

(** Once the flag is cleared the remaining tasks do nothing. *)
Lemma foldl_skip (order : list A) (s : PDFDocumentReader * PDFObjects) :
  m_successfull (fst s) = false -> foldl task s order = s.
Proof.
  revert s. induction order as [|a order IH]; intros s Hflag; simpl.
  - reflexivity.
  - rewrite (task_skip s a Hflag). apply IH, Hflag.
Qed.

End Runs_facts.

Section Entries_facts.
Context `{collab : Collaborators}.
Variable buffer : QByteArray.
Variable xrefTable : PDFXRefTable.

(** The entry can be read: [getObject] returns an object for it. *)
Local Abbreviation parses :=
  (fun entry : XRefEntry =>
     exists obj : PDFObject,
       getObject buffer (newContext buffer xrefTable) (offset entry) (reference entry)
       = Ok obj).

(** What a task writes when the flag is set. *)
Local Abbreviation written reader :=
  (fun (objs : PDFObjects) (entry : XRefEntry) =>
     snd (processEntry buffer xrefTable (reader, objs) entry)).

Lemma length_setSlot (objs : PDFObjects) (n : Z) (e : StorageEntry) :
  length (setSlot objs n e) = length objs.
Proof. unfold setSlot. destruct (n <? 0); [reflexivity|apply length_insert]. Qed.

Lemma slot_setSlot_ne (objs : PDFObjects) (n n' : Z) (e : StorageEntry) :
  n <> n' -> slot (setSlot objs n' e) n = slot objs n.
Proof.
  intros Hne. unfold setSlot, slot.
  destruct (Z.ltb_spec n' 0); [reflexivity|].
  destruct (Z.ltb_spec n 0); [reflexivity|].
  rewrite list_lookup_insert_ne by lia. reflexivity.
Qed.

Lemma slot_setSlot_eq (objs : PDFObjects) (n : Z) (e : StorageEntry) :
  0 <= n < Z.of_nat (length objs) -> slot (setSlot objs n e) n = e.
Proof.
  intros Hn. unfold setSlot, slot.
  destruct (Z.ltb_spec n 0); [lia|].
  rewrite list_lookup_insert_eq by lia. reflexivity.
Qed.

Lemma setSlot_commute (objs : PDFObjects) (n n' : Z) (e e' : StorageEntry) :
  n <> n' -> setSlot (setSlot objs n e) n' e' = setSlot (setSlot objs n' e') n e.
Proof.
  intros Hne. unfold setSlot.
  destruct (Z.ltb_spec n 0), (Z.ltb_spec n' 0); try reflexivity.
  apply list_insert_insert_ne. lia.
Qed.

Lemma length_processEntry (s : PDFDocumentReader * PDFObjects) (entry : XRefEntry) :
  length (snd (processEntry buffer xrefTable s entry)) = length (snd s).
Proof.
  destruct s as [reader objs]. unfold processEntry.
  destruct (m_successfull reader); [|reflexivity].
  destruct (getObject _ _ _ _); [apply length_setSlot|reflexivity].
Qed.

Lemma length_foldl_processEntry (order : list XRefEntry) :
  forall s : PDFDocumentReader * PDFObjects,
    length (snd (foldl (processEntry buffer xrefTable) s order)) = length (snd s).
Proof.
  induction order as [|entry order IH]; intros s; cbn [foldl]; [reflexivity|].
  rewrite IH. apply length_processEntry.
Qed.

Lemma processEntry_Ok (reader : PDFDocumentReader) (objs : PDFObjects)
    (entry : XRefEntry) (obj : PDFObject) :
  m_successfull reader = true ->
  getObject buffer (newContext buffer xrefTable) (offset entry) (reference entry) = Ok obj ->
  processEntry buffer xrefTable (reader, objs) entry
  = (reader,
     setSlot objs (objectNumber (reference entry))
       {| entryGeneration := generation (reference entry); object := obj |}).
Proof. intros Hflag Hobj. unfold processEntry. rewrite Hflag, Hobj. reflexivity. Qed.

Lemma processEntry_Throw (reader : PDFDocumentReader) (objs : PDFObjects)
    (entry : XRefEntry) (m : Message) :
  m_successfull reader = true ->
  getObject buffer (newContext buffer xrefTable) (offset entry) (reference entry) = Throw m ->
  processEntry buffer xrefTable (reader, objs) entry = (fail reader m, objs).
Proof. intros Hflag Hobj. unfold processEntry. rewrite Hflag, Hobj. reflexivity. Qed.

Lemma foldl_processEntry_flag (order : list XRefEntry) :
  forall (reader : PDFDocumentReader) (objs : PDFObjects),
    m_successfull reader = true ->
    (m_successfull (fst (foldl (processEntry buffer xrefTable) (reader, objs) order)) = true
     <-> Forall parses order) /\
    (Forall parses order ->
     foldl (processEntry buffer xrefTable) (reader, objs) order
     = (reader, foldl (written reader) objs order)).
Proof.
  induction order as [|entry order IH]; intros reader objs Hflag; cbn [foldl].
  - split; [split; [constructor|intros _; exact Hflag]|reflexivity].
  - destruct (getObject buffer (newContext buffer xrefTable) (offset entry)
                (reference entry)) as [obj|m] eqn:Hobj.
    + rewrite (processEntry_Ok reader objs entry obj Hflag Hobj). cbn [snd].
      destruct (IH reader
                  (setSlot objs (objectNumber (reference entry))
                     {| entryGeneration := generation (reference entry); object := obj |})
                  Hflag) as [Hiff Hrun].
      split.
      * rewrite Hiff. split; [intros Hall; constructor; [exists obj; exact Hobj|exact Hall]|].
        intros Hall. apply Forall_cons in Hall as [_ Hall]. exact Hall.
      * intros Hall. apply Forall_cons in Hall as [_ Hall]. apply Hrun, Hall.
    + rewrite (processEntry_Throw reader objs entry m Hflag Hobj). cbn [snd].
      rewrite (foldl_skip _ (processEntry_skip buffer xrefTable)) by reflexivity.
      cbn [fst fail m_successfull].
      split; [split; [intros Hc; discriminate Hc|]|].
      * intros Hall. apply Forall_cons in Hall as [[obj' Hobj'] _].
        rewrite Hobj in Hobj'. discriminate Hobj'.
      * intros Hall. apply Forall_cons in Hall as [[obj' Hobj'] _].
        rewrite Hobj in Hobj'. discriminate Hobj'.
Qed.

Lemma written_commute (reader : PDFDocumentReader) (objs : PDFObjects)
    (entry entry' : XRefEntry) :
  objectNumber (reference entry) <> objectNumber (reference entry') ->
  written reader (written reader objs entry) entry'
  = written reader (written reader objs entry') entry.
Proof.
  intros Hne. unfold processEntry.
  destruct (m_successfull reader); [|reflexivity].
  destruct (getObject buffer (newContext buffer xrefTable) (offset entry) (reference entry)),
           (getObject buffer (newContext buffer xrefTable) (offset entry')
              (reference entry')); cbn [snd]; try reflexivity.
  apply setSlot_commute. exact Hne.
Qed.

Lemma foldl_written_Permutation (reader : PDFDocumentReader) (order order' : list XRefEntry) :
  order ≡ₚ order' ->
  NoDup (map (fun entry => objectNumber (reference entry)) order) ->
  forall objs : PDFObjects,
    foldl (written reader) objs order = foldl (written reader) objs order'.
Proof.
  induction 1 as [|entry order order' Hperm IH|entry entry' order
                  |order order' order'' Hperm IH Hperm' IH'];
    intros Hnodup objs.
  - reflexivity.
  - cbn [map] in Hnodup. apply NoDup_cons in Hnodup as [_ Hnodup].
    cbn [foldl]. apply IH, Hnodup.
  - cbn [map] in Hnodup. apply NoDup_cons in Hnodup as [Hnotin _].
    cbn [foldl]. f_equal. apply written_commute.
    intros Heq. apply Hnotin. rewrite Heq. apply list_elem_of_here.
  - rewrite IH by exact Hnodup. apply IH'.
    rewrite <- Hperm. exact Hnodup.
Qed.

Lemma slot_foldl_written_other (reader : PDFDocumentReader) (n : Z)
    (order : list XRefEntry) :
  n ∉ map (fun entry => objectNumber (reference entry)) order ->
  forall objs : PDFObjects, slot (foldl (written reader) objs order) n = slot objs n.
Proof.
  induction order as [|entry order IH]; intros Hnotin objs; cbn [foldl]; [reflexivity|].
  cbn [map] in Hnotin. apply not_elem_of_cons in Hnotin as [Hne Hnotin].
  rewrite IH by exact Hnotin. unfold processEntry.
  destruct (m_successfull reader); [|reflexivity].
  destruct (getObject _ _ _ _); [|reflexivity].
  cbn [snd]. apply slot_setSlot_ne. exact Hne.
Qed.

Lemma slot_foldl_written (reader : PDFDocumentReader) (order : list XRefEntry) :
  m_successfull reader = true ->
  NoDup (map (fun entry => objectNumber (reference entry)) order) ->
  forall (objs : PDFObjects) (entry : XRefEntry) (obj : PDFObject),
    entry ∈ order ->
    0 <= objectNumber (reference entry) < Z.of_nat (length objs) ->
    getObject buffer (newContext buffer xrefTable) (offset entry) (reference entry) = Ok obj ->
    slot (foldl (written reader) objs order) (objectNumber (reference entry))
    = {| entryGeneration := generation (reference entry); object := obj |}.
Proof.
  intros Hflag. induction order as [|first order IH];
    intros Hnodup objs entry obj Hin Hrange Hobj.
  - apply elem_of_nil in Hin. destruct Hin.
  - cbn [map] in Hnodup. apply NoDup_cons in Hnodup as [Hnotin Hnodup].
    cbn [foldl]. apply elem_of_cons in Hin as [->|Hin].
    + rewrite slot_foldl_written_other by exact Hnotin.
      unfold processEntry. rewrite Hflag, Hobj. cbn [snd].
      apply slot_setSlot_eq, Hrange.
    + apply IH; [exact Hnodup|exact Hin| |exact Hobj].
      pose proof (length_processEntry (reader, objs) first) as Hlen.
      cbn [snd] in Hlen. rewrite Hlen. exact Hrange.
Qed.


End Entries_facts.




(** ** The loop of phase 5 run in order *)

Section Entries_in_order.
Context `{collab : Collaborators}.
Variable buffer : QByteArray.
Variable xrefTable : PDFXRefTable.

Lemma finish_processEntry (tasks : list XRefEntry) (loop : Loop) (k : nat)
    (entry : XRefEntry) :
  tasks !! k = Some entry ->
  statuses loop !! k = Some NotStarted ->
  exists loop' : Loop,
    finish (entryActions buffer xrefTable) tasks loop k = Returns loop' /\
    (loopReader loop', loopObjects loop')
    = processEntry buffer xrefTable (loopReader loop, loopObjects loop) entry /\
    length (statuses loop') = length (statuses loop) /\
    forall i, i <> k -> statuses loop' !! i = statuses loop !! i.
Proof.
  intros Htask Hstatus.
  assert (Hk : (k < length (statuses loop))%nat)
    by (apply lookup_lt_Some in Hstatus; exact Hstatus).
  unfold finish. cbn [moves].
  rewrite (move_NotStarted _ _ _ _ _ Htask Hstatus). cbn [mbind Outcome_bind].
  unfold processEntry.
  destruct (m_successfull (loopReader loop)) eqn:Hflag.
  - rewrite (move_Started _ _ _ _ entry Htask)
      by (cbn [setStatus statuses]; apply list_lookup_insert_eq; exact Hk).
    cbn [mbind Outcome_bind]. unfold queueOf, setStatus.
    cbn [loopObjects loopReader statuses recorded].
    rewrite list_lookup_insert_eq by (rewrite length_insert; exact Hk).
    unfold entryActions.
    destruct (getObject buffer (newContext buffer xrefTable) (offset entry)
                (reference entry)) as [obj|m];
      cbn [length replicate moves];
      (erewrite (move_Running _ _ _ _ entry _ [] Htask)
         by (cbn [statuses]; apply list_lookup_insert_eq; rewrite length_insert; exact Hk));
      cbn [perform mbind Outcome_bind loopReader loopObjects statuses recorded];
      (eexists; split; [reflexivity|]; cbn [loopReader loopObjects statuses];
       split; [reflexivity|]; split; [rewrite !length_insert; reflexivity|];
       intros i Hi; rewrite !list_lookup_insert_ne by (intros Hc; exact (Hi (eq_sym Hc)));
       reflexivity).
  - rewrite move_done
      by (cbn [setStatus statuses]; apply list_lookup_insert_eq; exact Hk).
    cbn [mbind Outcome_bind]. unfold queueOf, setStatus.
    cbn [loopObjects loopReader statuses recorded].
    rewrite list_lookup_insert_eq by exact Hk. cbn [length replicate moves].
    eexists. split; [reflexivity|]. cbn [loopReader loopObjects statuses].
    split; [reflexivity|]. split; [rewrite length_insert; reflexivity|].
    intros i Hi. rewrite list_lookup_insert_ne by (intros Hc; exact (Hi (eq_sym Hc))).
    reflexivity.
Qed.

Lemma join_processEntry (tasks rest : list XRefEntry) :
  forall (done : list XRefEntry) (loop : Loop),
    tasks = done ++ rest ->
    (forall i, (length done <= i < length tasks)%nat ->
               statuses loop !! i = Some NotStarted) ->
    exists loop' : Loop,
      join (entryActions buffer xrefTable) tasks (seq (length done) (length rest)) loop
      = Returns loop' /\
      (loopReader loop', loopObjects loop')
      = foldl (processEntry buffer xrefTable) (loopReader loop, loopObjects loop) rest.
Proof.
  induction rest as [|entry rest IH]; intros done loop Htasks Hstatuses.
  - exists loop. split; reflexivity.
  - cbn [length seq join foldl].
    assert (Htask : tasks !! length done = Some entry).
    { rewrite Htasks. apply list_lookup_middle. reflexivity. }
    assert (Hlen : (length done < length tasks)%nat).
    { apply lookup_lt_Some in Htask. exact Htask. }
    destruct (finish_processEntry tasks loop (length done) entry Htask
                (Hstatuses (length done) (conj (le_n _) Hlen))) as (loop1 & -> & Hstate & _ & Hother).
    cbn [mbind Outcome_bind].
    destruct (IH (done ++ [entry]) loop1) as (loop' & Hjoin & Hresult).
    + rewrite <- app_assoc. exact Htasks.
    + intros i Hi. rewrite length_app in Hi. cbn [length] in Hi.
      rewrite Hother by lia. apply Hstatuses. lia.
    + rewrite length_app in Hjoin. cbn [length] in Hjoin.
      replace (length done + 1)%nat with (S (length done)) in Hjoin by lia.
      exists loop'. split; [exact Hjoin|]. rewrite Hresult, Hstate. reflexivity.
Qed.

(** The loop of phase 5 in the execution [sequential] is the run of
    [processEntry] over the entries in their order. *)
Lemma forEach_processEntry (tasks : list XRefEntry) (state : PDFDocumentReader * PDFObjects) :
  exists log : list Message,
    forEach (entryActions buffer xrefTable) tasks (sequential tasks) state
    = Returns (foldl (processEntry buffer xrefTable) state tasks, log).
Proof.
  unfold forEach, sequential. cbn [moves mbind Outcome_bind].
  destruct (join_processEntry tasks tasks []
              {| loopReader := fst state; loopObjects := snd state; recorded := [];
                 statuses := replicate (length tasks) NotStarted |} eq_refl)
    as (loop' & Hjoin & Hresult).
  { intros i Hi. cbn [statuses]. apply lookup_replicate_2. lia. }
  cbn [length] in Hjoin. rewrite Hjoin. cbn [mbind Outcome_bind mret Outcome_ret].
  cbn [loopReader loopObjects] in Hresult. destruct state as [reader objs].
  cbn [fst snd] in Hresult. rewrite <- Hresult. eexists. reflexivity.
Qed.
End Entries_in_order.

(** ** Phase 9: the loop of [processObjectStream] over the object streams *)

Section Streams_facts.
Context `{collab : Collaborators}.
Variable buffer : QByteArray.
Variable xrefTable : PDFXRefTable.
Variable objectStreamEntries : list XRefEntry.


(** A task that an exception leaves ends the loop in which it runs
    alone. *)
Lemma forEach_Leave (objectStreamReference : PDFObjectReference) (schedule : list nat)
    (reader : PDFDocumentReader) (objs : PDFObjects) (e : StdException) :
  m_successfull reader = true ->
  streamActions buffer xrefTable objectStreamEntries objs objectStreamReference = [Leave e] ->
  forEach (streamActions buffer xrefTable objectStreamEntries) [objectStreamReference]
    schedule (reader, objs) = Escapes e.
Proof.
  intros Hflag Hplan.
  destruct (forEach (streamActions buffer xrefTable objectStreamEntries)
              [objectStreamReference] schedule (reader, objs))
    as [[[reader' objs'] log]|e'] eqn:Hrun; [|destruct e, e'; reflexivity].
  exfalso.
  apply (forEach_invariant _ _
           (fun loop =>
              m_successfull (loopReader loop) = true /\ loopObjects loop = objs /\
              (statuses loop !! 0%nat = Some NotStarted \/
               statuses loop !! 0%nat = Some Started \/
               statuses loop !! 0%nat = Some (Running [Leave e])))) in Hrun
    as (loop' & (_ & _ & Hstatus) & _ & _ & _ & Hdone).
  - rewrite (Hdone 0%nat) in Hstatus by (cbn; lia).
    destruct Hstatus as [Hc|[Hc|Hc]]; discriminate Hc.
  - intros loop i loop' (Hf & Ho & Hstatus) Hmove.
    destruct (move_inv _ _ _ _ _ Hmove)
      as [->|[(a & Ha & Hs & ->)|[(a & Ha & Hs & ->)|(a & action & rest & r & o & Ha & Hs & Hperform & ->)]]];
      cbn [setStatus loopReader loopObjects statuses].
    + auto.
    + destruct i as [|i]; [|destruct i; discriminate Ha].
      split; [exact Hf|]. split; [exact Ho|]. rewrite Hf.
      rewrite list_lookup_insert_eq by (apply lookup_lt_Some in Hs; exact Hs). auto.
    + destruct i as [|i]; [|destruct i; discriminate Ha].
      split; [exact Hf|]. split; [exact Ho|].
      rewrite list_lookup_insert_eq by (apply lookup_lt_Some in Hs; exact Hs).
      injection Ha as <-. rewrite Ho, Hplan. auto.
    + destruct i as [|i]; [|destruct i; discriminate Ha].
      rewrite Hs in Hstatus.
      destruct Hstatus as [Hc|[Hc|Hc]]; try discriminate Hc.
      injection Hc as -> ->. discriminate Hperform.
  - cbn. auto.
Qed.

(** X21.  The entry [N] of an object stream at its edges.  A stream with
    [N] zero is processed without an error and without a write, whatever
    the cross-reference table declares to be inside it: the task does not
    check that the objects the table places in the stream were found
    there.  For a negative [N], or one above the largest size of a vector,
    [reserve] throws [std::length_error]: the [catch] of the task does not
    handle it, the reader records no failure, and the loop in which the
    task runs does not return. *)
Theorem processObjectStream_no_members (objectStreamReference : PDFObjectReference)
    (reader : PDFDocumentReader) (objs : PDFObjects)
    (objectStreamDictionary : PDFDictionary) (content data : QByteArray) (n first : Z) :
  m_successfull reader = true ->
  objectNumber objectStreamReference < Z.of_nat (length objs) ->
  object (slot objs (objectNumber objectStreamReference))
  = PDFStreamObject objectStreamDictionary content ->
  get objectStreamDictionary "Type" = PDFName "ObjStm" ->
  get objectStreamDictionary "N" = PDFInt n ->
  get objectStreamDictionary "First" = PDFInt first ->
  getDecodedStream objectStreamDictionary content = Ok data ->
  (n = 0 -> 0 <= vector_max_size ->
   processObjectStream buffer xrefTable objectStreamEntries (reader, objs)
     objectStreamReference
   = Returns (reader, objs)) /\
  (n < 0 \/ vector_max_size < n ->
   processObjectStream buffer xrefTable objectStreamEntries (reader, objs)
     objectStreamReference
   = Escapes std_length_error /\
   forall schedule : list nat,
     forEach (streamActions buffer xrefTable objectStreamEntries) [objectStreamReference]
       schedule (reader, objs)
     = Escapes std_length_error).
Proof.
  intros Hflag Hrange Hobject Htype HN Hfirst Hdecoded.
  pose proof (readStreamHeader_pairs buffer xrefTable objectStreamReference objs
                objectStreamDictionary content data n first
                Hrange Hobject Htype HN Hfirst Hdecoded) as Hheader.
  split.
  - intros -> Hmax. unfold processObjectStream, streamActions.
    rewrite Hflag, Hheader. cbn [negb Z.ltb Z.compare orb].
    destruct (Z.ltb_spec vector_max_size 0); [lia|]. reflexivity.
  - intros Hn.
    assert (Hplan : streamActions buffer xrefTable objectStreamEntries objs
                      objectStreamReference = [Leave std_length_error]).
    { unfold streamActions. rewrite Hheader.
      destruct Hn as [Hn|Hn].
      - destruct (Z.ltb_spec n 0); [reflexivity|lia].
      - destruct (Z.ltb_spec vector_max_size n); [|lia].
        rewrite orb_true_r. reflexivity. }
    split.
    + unfold processObjectStream. rewrite Hflag, Hplan. reflexivity.
    + intros schedule. exact (forEach_Leave _ schedule _ _ _ Hflag Hplan).
Qed.
End Streams_facts.


Lemma processObjectStream_no_members_witness :
  processObjectStream (collab := Sample.collaborators) [] Sample.tableWithStream
    [Sample.declaredAtIndex1]
    (Sample.readerAfterReset,
     <[3%nat := {| entryGeneration := 0;
                   object := PDFStreamObject
                               [("Type"%string, PDFName "ObjStm"); ("N"%string, PDFInt (-1));
                                ("First"%string, PDFInt 0)] [] |}]>
       (replicate 6 StorageEntry_default))
    Sample.container
  = Escapes std_length_error.
Proof.
  apply (processObjectStream_no_members (collab := Sample.collaborators) []
           Sample.tableWithStream [Sample.declaredAtIndex1] Sample.container
           Sample.readerAfterReset _
           [("Type"%string, PDFName "ObjStm"); ("N"%string, PDFInt (-1));
            ("First"%string, PDFInt 0)] [] [] (-1) 0);
    try reflexivity.
  left. reflexivity.
Defined.

(** ** [readFromBuffer]: what a returned document and a success say *)

Section ReadFromBuffer_facts.
Context `{ossl : OpenSSL} `{defaults : HandlerDefaults} `{collab : Collaborators}.
Variable entryOrder : ExecutionOrder XRefEntry.
Variable streamOrder : ExecutionOrder PDFObjectReference.
Variable m_getPasswordCallback : PasswordCallback.
Variable fuel : nat.

Lemma readHeader_Ok (reader reader1 : PDFDocumentReader) (buffer : QByteArray) :
  readHeader reader buffer = (reader1, Ok ()) ->
  exists c1 c2 : uint8_t,
    headerSearch
      (take (Z.to_nat (Z.min (Z.of_nat (length buffer)) PDF_HEADER_SCAN_LIMIT)) buffer)
    = Some (c1, c2) /\
    reader1 = setVersion reader {| major := u8 c1 - 48; minor := u8 c2 - 48 |} /\
    isValid {| major := u8 c1 - 48; minor := u8 c2 - 48 |} = true.
Proof.
  unfold readHeader. destruct (headerSearch _) as [[c1 c2]|]; [|intros Hf; discriminate Hf].
  cbn [setVersion m_version].
  destruct (isValid _) eqn:Hvalid; cbn [negb]; [|intros Hf; discriminate Hf].
  intros Hheader. injection Hheader as <-. exists c1, c2.
  split; [reflexivity|]. split; [reflexivity|exact Hvalid].
Qed.

Lemma entryActions_Leave (buffer : QByteArray) (xrefTable : PDFXRefTable)
    (objs : PDFObjects) (entry : XRefEntry) (e : StdException) :
  Leave e ∉ entryActions buffer xrefTable objs entry.
Proof.
  unfold entryActions. destruct (getObject _ _ _ _); intros Hin;
    apply list_elem_of_singleton in Hin; discriminate Hin.
Qed.

Lemma readFromBuffer_inv (reader reader' : PDFDocumentReader) (buffer : QByteArray)
    (document : PDFDocument) :
  readFromBuffer entryOrder streamOrder m_getPasswordCallback fuel reader buffer
  = Some (document, reader') ->
  (document = PDFDocument_default /\ m_successfull reader' = false /\
   is_Some (m_errorMessage reader')) \/
  exists (firstXrefTableOffset : Z) (reader1 : PDFDocumentReader) (xrefTable : PDFXRefTable)
         (handler : PDFSecurityHandler) (authorization : AuthorizationResult)
         (data : AuthorizationData)
         (reader5 : PDFDocumentReader) (objs5 : PDFObjects) (log5 : list Message)
         (objs9 : PDFObjects) (log9 : list Message),
    readFooter buffer = Ok firstXrefTableOffset /\
    readHeader reader buffer = (reader1, Ok ()) /\
    readXRefTable buffer firstXrefTableOffset = Ok xrefTable /\
    forEach (entryActions buffer xrefTable) (getOccupiedEntries xrefTable)
      (entryOrder (getOccupiedEntries xrefTable))
      (reader1, replicate (getSize xrefTable) StorageEntry_default)
    = Returns (reader5, objs5, log5) /\
    authenticateHandler m_getPasswordCallback fuel handler = Some (Ok (authorization, data)) /\
    (authorization = UserAuthorized \/ authorization = OwnerAuthorized) /\
    forEach (streamActions buffer xrefTable (getObjectStreamEntries xrefTable))
      (remove_dups (map objectStream (getObjectStreamEntries xrefTable)))
      (streamOrder (remove_dups (map objectStream (getObjectStreamEntries xrefTable))))
      (reader5, objs5)
    = Returns (reader', objs9, log9) /\
    document = {| objects := objs9;
                  trailerDictionary := getTrailerDictionary xrefTable;
                  securityHandler := Some (handler, data) |}.
Proof.
  intros Hread.
  unfold readFromBuffer, readFromBufferBody in Hread.
  destruct (readFooter buffer) as [firstXrefTableOffset|m] eqn:Hfooter.
  2: { injection Hread as <- <-. left. split; [reflexivity|]. split; [reflexivity|eexists; reflexivity]. }
  destruct (readHeader reader buffer) as [reader1 [[]|m]] eqn:Hheader.
  2: { injection Hread as <- <-. left. split; [reflexivity|]. split; [reflexivity|eexists; reflexivity]. }
  destruct (readXRefTable buffer firstXrefTableOffset) as [xrefTable|m] eqn:Htable.
  2: { injection Hread as <- <-. left. split; [reflexivity|]. split; [reflexivity|eexists; reflexivity]. }
  unfold readObjects in Hread.
  destruct (forEach (entryActions buffer xrefTable) _ _ _)
    as [[[reader5 objs5] log5]|e] eqn:Hphase5; [|discriminate Hread].
  destruct (match getTrailerDictionary xrefTable with
            | PDFDictionaryObject d | PDFStreamObject d _ => Some d
            | _ => None
            end) as [trailer|].
  2: { injection Hread as <- <-. left. split; [reflexivity|]. split; [reflexivity|eexists; reflexivity]. }
  destruct (createSecurityHandler _ _) as [handler|m].
  2: { injection Hread as <- <-. left. split; [reflexivity|]. split; [reflexivity|eexists; reflexivity]. }
  destruct (authenticateHandler _ _ _) as [[[authorization data]|m]|] eqn:Hauth.
  3: { discriminate Hread. }
  2: { injection Hread as <- <-. left. split; [reflexivity|]. split; [reflexivity|eexists; reflexivity]. }
  case_bool_decide as Hdenied.
  { injection Hread as <- <-. left. split; [reflexivity|]. split; [reflexivity|eexists; reflexivity]. }
  destruct (forEach (streamActions buffer xrefTable _) _ _ _)
    as [[[reader9 objs9] log9]|e] eqn:Hphase9; [|discriminate Hread].
  injection Hread as <- <-. right.
  exists firstXrefTableOffset, reader1, xrefTable, handler, authorization, data,
         reader5, objs5, log5, objs9, log9.
  split; [reflexivity|]. split; [reflexivity|]. split; [exact Htable|].
  split; [exact Hphase5|]. split; [exact Hauth|]. split; [|split; [exact Hphase9|reflexivity]].
  destruct authorization; [left; reflexivity|right; reflexivity| |]; exfalso; apply Hdenied;
    [left|right]; reflexivity.
Qed.

(** X22.  A reader that reports success after [readFromBuffer] was
    successful before the call and has kept its error message; its version
    is the version that the header of the buffer gives, and it is valid;
    the footer and the cross-reference table were read; [getObject]
    succeeds for every occupied entry of the table; the document has one
    slot for every entry of the table, the trailer of the table, and a
    security handler whose [authenticate] answered user or owner. *)
Theorem readFromBuffer_success (reader reader' : PDFDocumentReader) (buffer : QByteArray)
    (document : PDFDocument) :
  readFromBuffer entryOrder streamOrder m_getPasswordCallback fuel reader buffer
  = Some (document, reader') ->
  m_successfull reader' = true ->
  m_successfull reader = true /\
  m_errorMessage reader' = m_errorMessage reader /\
  (exists c1 c2 : uint8_t,
      headerSearch
        (take (Z.to_nat (Z.min (Z.of_nat (length buffer)) PDF_HEADER_SCAN_LIMIT)) buffer)
      = Some (c1, c2) /\
      m_version reader' = {| major := u8 c1 - 48; minor := u8 c2 - 48 |}) /\
  isValid (m_version reader') = true /\
  exists (firstXrefTableOffset : Z) (xrefTable : PDFXRefTable),
    readFooter buffer = Ok firstXrefTableOffset /\
    readXRefTable buffer firstXrefTableOffset = Ok xrefTable /\
    Forall (fun entry =>
              exists obj : PDFObject,
                getObject buffer (newContext buffer xrefTable) (offset entry)
                  (reference entry) = Ok obj)
           (getOccupiedEntries xrefTable) /\
    length (objects document) = getSize xrefTable /\
    trailerDictionary document = getTrailerDictionary xrefTable /\
    exists (handler : PDFSecurityHandler) (authorization : AuthorizationResult)
           (data : AuthorizationData),
      securityHandler document = Some (handler, data) /\
      authenticateHandler m_getPasswordCallback fuel handler
      = Some (Ok (authorization, data)) /\
      (authorization = UserAuthorized \/ authorization = OwnerAuthorized).
Proof.
  intros Hread Hflag.
  destruct (readFromBuffer_inv reader reader' buffer document Hread)
    as [(_ & Hfailed & _)
       |(off & reader1 & xrefTable & handler & authorization & data
         & reader5 & objs5 & log5 & objs9 & log9
         & Hfooter & Hheader & Htable & Hphase5 & Hauth & Hresult & Hphase9 & ->)].
  { rewrite Hfailed in Hflag. discriminate Hflag. }
  destruct (readHeader_Ok reader reader1 buffer Hheader) as (c1 & c2 & Hsearch & -> & Hvalid).
  (* phase 9 has left the reader as it was *)
  assert (Hreader9 : reader' = reader5).
  { pose proof (forEach_recorded _ _ _ _ _ _ _ _ Hphase9) as Hlog.
    destruct log9 as [|m log9]; [exact Hlog|].
    destruct Hlog as (Hfailed & _). rewrite Hfailed in Hflag. discriminate Hflag. }
  subst reader'.
  (* and so has phase 5 *)
  assert (Hreader5 : reader5 = setVersion reader {| major := u8 c1 - 48; minor := u8 c2 - 48 |}).
  { pose proof (forEach_recorded _ _ _ _ _ _ _ _ Hphase5) as Hlog.
    destruct log5 as [|m log5]; [exact Hlog|].
    destruct Hlog as (Hfailed & _). rewrite Hfailed in Hflag. discriminate Hflag. }
  pose proof (forEach_succeeded (entryActions buffer xrefTable) _ _ _ _ _ _ _
                (fun o o' a => eq_refl) Hphase5 Hflag)
    as Hnone.
  pose proof (forEach_length _ _ _ _ _ _ _ _ Hphase5) as Hlen5.
  pose proof (forEach_length _ _ _ _ _ _ _ _ Hphase9) as Hlen9.
  subst reader5. cbn [setVersion m_successfull m_errorMessage m_version] in *.
  split; [exact Hflag|]. split; [reflexivity|].
  split; [exists c1, c2; split; [exact Hsearch|reflexivity]|]. split; [exact Hvalid|].
  exists off, xrefTable.
  split; [exact Hfooter|]. split; [exact Htable|]. split.
  { apply (Forall_impl _ _ _ Hnone). intros entry Hentry. unfold entryActions in Hentry.
    destruct (getObject buffer (newContext buffer xrefTable) (offset entry)
                (reference entry)) as [obj|m]; [eauto|].
    destruct (Hentry m). apply list_elem_of_here. }
  cbn [objects trailerDictionary securityHandler].
  split; [rewrite Hlen9, Hlen5; apply length_replicate|]. split; [reflexivity|].
  exists handler, authorization, data. split; [reflexivity|]. split; [exact Hauth|exact Hresult].
Qed.

(** X23.  [readFromBuffer] returns the default document, beside a failed
    reader that holds a message, or a document of the size of the
    cross-reference table: a failure inside one of the two phases leaves a
    document with every slot of the table, the trailer of the table and
    the handler that authorized, never a shorter vector. *)
Theorem readFromBuffer_document_shape (reader reader' : PDFDocumentReader)
    (buffer : QByteArray) (document : PDFDocument) :
  readFromBuffer entryOrder streamOrder m_getPasswordCallback fuel reader buffer
  = Some (document, reader') ->
  (document = PDFDocument_default /\ m_successfull reader' = false /\
   is_Some (m_errorMessage reader')) \/
  exists (firstXrefTableOffset : Z) (xrefTable : PDFXRefTable),
    readFooter buffer = Ok firstXrefTableOffset /\
    readXRefTable buffer firstXrefTableOffset = Ok xrefTable /\
    length (objects document) = getSize xrefTable /\
    trailerDictionary document = getTrailerDictionary xrefTable /\
    is_Some (securityHandler document).
Proof.
  intros Hread.
  destruct (readFromBuffer_inv reader reader' buffer document Hread)
    as [Hdefault
       |(off & reader1 & xrefTable & handler & authorization & data
         & reader5 & objs5 & log5 & objs9 & log9
         & Hfooter & Hheader & Htable & Hphase5 & Hauth & Hresult & Hphase9 & ->)];
    [left; exact Hdefault|right].
  exists off, xrefTable.
  split; [exact Hfooter|]. split; [exact Htable|].
  cbn [objects trailerDictionary securityHandler].
  split; [|split; [reflexivity|eexists; reflexivity]].
  rewrite (forEach_length _ _ _ _ _ _ _ _ Hphase9), (forEach_length _ _ _ _ _ _ _ _ Hphase5).
  apply length_replicate.
Qed.
End ReadFromBuffer_facts.
Lemma readFromBuffer_success_witness :
  exists (document : PDFDocument) (reader' : PDFDocumentReader),
    readFromBuffer (ossl := Sample.openssl) (defaults := Sample.defaults)
      (collab := Sample.collaborators) sequential sequential
      Sample.decline 1 Sample.readerAfterReset SampleMore.wellFormed
    = Some (document, reader') /\
    m_successfull reader' = true /\
    m_errorMessage reader' = m_errorMessage Sample.readerAfterReset /\
    m_version reader' = {| major := 1; minor := 4 |} /\
    isValid (Collaborators := Sample.collaborators) (m_version reader') = true.
Proof.
  destruct (readFromBuffer (ossl := Sample.openssl) (defaults := Sample.defaults)
              (collab := Sample.collaborators) sequential sequential
              Sample.decline 1 Sample.readerAfterReset SampleMore.wellFormed)
    as [[document reader']|] eqn:Hread; [|vm_compute in Hread; discriminate Hread].
  assert (Hflag : m_successfull reader' = true).
  { pose proof Hread as Hcopy. vm_compute in Hcopy.
    injection Hcopy as _ Hreader. rewrite <- Hreader. reflexivity. }
  exists document, reader'. split; [reflexivity|]. split; [exact Hflag|].
  destruct (readFromBuffer_success (ossl := Sample.openssl) (defaults := Sample.defaults)
              (collab := Sample.collaborators) sequential sequential
              Sample.decline 1 Sample.readerAfterReset reader'
              SampleMore.wellFormed document Hread Hflag)
    as (_ & Hmessage & (c1 & c2 & Hsearch & Hversion) & Hvalid & _).
  split; [exact Hmessage|]. split; [|exact Hvalid].
  vm_compute in Hsearch. injection Hsearch as <- <-. exact Hversion.
Defined.

Lemma readFromBuffer_document_shape_witness :
  exists (document : PDFDocument) (reader' : PDFDocumentReader),
    readFromBuffer (ossl := Sample.openssl) (defaults := Sample.defaults)
      (collab := Sample.collaborators) sequential sequential
      Sample.decline 1 Sample.readerAfterReset Sample.corrupted
    = Some (document, reader') /\
    ((document = PDFDocument_default /\ m_successfull reader' = false /\
      is_Some (m_errorMessage reader')) \/
     exists (firstXrefTableOffset : Z) (xrefTable : PDFXRefTable),
       readFooter (collab := Sample.collaborators) Sample.corrupted
       = Ok firstXrefTableOffset /\
       readXRefTable (Collaborators := Sample.collaborators) Sample.corrupted
         firstXrefTableOffset = Ok xrefTable /\
       length (objects document) = getSize xrefTable /\
       trailerDictionary document = getTrailerDictionary xrefTable /\
       is_Some (securityHandler document)).
Proof.
  destruct (readFromBuffer (ossl := Sample.openssl) (defaults := Sample.defaults)
              (collab := Sample.collaborators) sequential
              sequential Sample.decline 1 Sample.readerAfterReset
              Sample.corrupted)
    as [[document reader']|] eqn:Hread; [|vm_compute in Hread; discriminate Hread].
  exists document, reader'. split; [reflexivity|].
  exact (readFromBuffer_document_shape (ossl := Sample.openssl)
           (defaults := Sample.defaults) (collab := Sample.collaborators)
           sequential sequential Sample.decline 1
           Sample.readerAfterReset reader' Sample.corrupted document Hread).
Defined.

(** ** The entry [Encrypt] of the trailer *)

(** X24.  An entry [Encrypt] that is a reference is resolved in the
    objects of the first phase only.  A reference outside the vector, or
    with another generation than the slot, stays a reference, and
    [createSecurityHandler] refuses it as an invalid encryption
    dictionary.  A reference with generation 0 to a slot that the first
    phase has left empty (a free entry, or an object kept in an object
    stream, which is read later) resolves to the null object: the document
    gets the handler of unencrypted documents. *)
Theorem readEncryptObject_reference `{defaults : HandlerDefaults}
    (trailer : PDFDictionary) (objs : PDFObjects) (r : PDFObjectReference)
    (id : QByteArray) :
  get trailer "Encrypt" = PDFReferenceObject r ->
  (objectNumber r < 0 \/ Z.of_nat (length objs) <= objectNumber r \/
   entryGeneration (slot objs (objectNumber r)) <> generation r ->
   readEncryptObject trailer objs = PDFReferenceObject r /\
   createSecurityHandler (readEncryptObject trailer objs) id
   = Throw MsgInvalidEncryptionDictionary) /\
  (0 <= objectNumber r < Z.of_nat (length objs) ->
   slot objs (objectNumber r) = StorageEntry_default ->
   generation r = 0 ->
   readEncryptObject trailer objs = PDFNull /\
   createSecurityHandler (readEncryptObject trailer objs) id = Ok PDFNoneSecurityHandler).
Proof.
  intros Hencrypt. unfold readEncryptObject. rewrite Hencrypt. split.
  - intros Hunresolved.
    assert (Hcond : (0 <=? objectNumber r) && (objectNumber r <? Z.of_nat (length objs))
                    && bool_decide (entryGeneration (slot objs (objectNumber r))
                                    = generation r) = false).
    { destruct Hunresolved as [Hneg|[Hlarge|Hgeneration]].
      - destruct (Z.leb_spec 0 (objectNumber r)); [lia|reflexivity].
      - destruct (Z.ltb_spec (objectNumber r) (Z.of_nat (length objs))); [lia|].
        rewrite andb_false_r. reflexivity.
      - rewrite (bool_decide_eq_false_2 _ Hgeneration). apply andb_false_r. }
    rewrite Hcond. split; reflexivity.
  - intros Hrange Hslot Hgeneration.
    destruct (Z.leb_spec 0 (objectNumber r)); [|lia].
    destruct (Z.ltb_spec (objectNumber r) (Z.of_nat (length objs))); [|lia].
    rewrite Hslot, Hgeneration. cbn [andb entryGeneration StorageEntry_default object].
    rewrite bool_decide_eq_true_2 by reflexivity. split; reflexivity.
Qed.

Lemma readEncryptObject_reference_witness :
  readEncryptObject SampleMore.trailerEncrypt2 (replicate 3 StorageEntry_default) = PDFNull /\
  createSecurityHandler (defaults := Sample.defaults)
    (readEncryptObject SampleMore.trailerEncrypt2 (replicate 3 StorageEntry_default)) []
  = Ok PDFNoneSecurityHandler.
Proof.
  apply (readEncryptObject_reference (defaults := Sample.defaults)
           SampleMore.trailerEncrypt2 (replicate 3 StorageEntry_default)
           {| objectNumber := 2; generation := 0 |} [] eq_refl).
  - cbn. lia.
  - reflexivity.
  - reflexivity.
Defined.



(** ** [readFromDevice] and [readFromFile] *)

Section ReadFromDevice_facts.
Context `{ossl : OpenSSL} `{defaults : HandlerDefaults} `{collab : Collaborators}
        `{devices : Devices}.
Variable entryOrder : ExecutionOrder XRefEntry.
Variable streamOrder : ExecutionOrder PDFObjectReference.
Variable m_getPasswordCallback : PasswordCallback.
Variable fuel : nat.

Lemma readFromDevice_inv (reader reader' : PDFDocumentReader) (device device' : QIODevice)
    (document : PDFDocument) :
  readFromDevice entryOrder streamOrder m_getPasswordCallback fuel reader device
  = Some (document, reader', device') ->
  (document = PDFDocument_default /\ device' = device /\
   isOpen device = true /\ isReadable device = false /\
   reader' = fail (reset reader) MsgDeviceNotReadable) \/
  (document = PDFDocument_default /\ openReadOnly device = (false, device') /\
   isOpen device = false /\
   reader' = fail (reset reader) MsgDeviceCannotOpen) \/
  (isOpen device = true /\ isReadable device = true /\
   snd (readAll device) = device' /\
   readFromBuffer entryOrder streamOrder m_getPasswordCallback fuel (reset reader)
     (fst (readAll device)) = Some (document, reader')) \/
  (isOpen device = false /\
   exists opened : QIODevice,
     openReadOnly device = (true, opened) /\
     device' = close (snd (readAll opened)) /\
     readFromBuffer entryOrder streamOrder m_getPasswordCallback fuel (reset reader)
       (fst (readAll opened)) = Some (document, reader')).
Proof.
  unfold readFromDevice.
  destruct (isOpen device) eqn:Hopen.
  - destruct (isReadable device) eqn:Hreadable.
    + destruct (readAll device) as [bytes after] eqn:Hall. cbn [fst snd].
      destruct (readFromBuffer _ _ _ _ _ bytes) as [[d r]|] eqn:Hread;
        cbn; [|intros Hf; discriminate Hf].
      intros Hres. injection Hres as <- <- <-.
      right. right. left. repeat split; reflexivity.
    + intros Hres. injection Hres as <- <- <-. left. repeat split; reflexivity.
  - destruct (openReadOnly device) as [[] opened] eqn:Hopens.
    + destruct (readAll opened) as [bytes after] eqn:Hall. cbn [fst snd].
      destruct (readFromBuffer _ _ _ _ _ bytes) as [[d r]|] eqn:Hread;
        cbn; [|intros Hf; discriminate Hf].
      intros Hres. injection Hres as <- <- <-.
      right. right. right. split; [reflexivity|].
      exists opened. rewrite Hall. cbn [fst snd].
      split; [reflexivity|]. split; [reflexivity|exact Hread].
    + intros Hres. injection Hres as <- <- <-.
      right. left. repeat split; reflexivity.
Qed.

(** X26.  [readFromDevice] starts from a reset reader, so its result does
    not depend on what an earlier read has left in the reader.  A reader
    that reports success afterwards has read all bytes of the device and
    returns what [readFromBuffer] makes of them: from a device that was
    open for reading, which is left open, or from a device that the reader
    opened itself and has closed again.  A device that is open but not
    readable is left as it is. *)
Theorem readFromDevice_success (reader reader' : PDFDocumentReader)
    (device device' : QIODevice) (document : PDFDocument) :
  readFromDevice entryOrder streamOrder m_getPasswordCallback fuel reader device
  = Some (document, reader', device') ->
  (forall earlier : PDFDocumentReader,
     readFromDevice entryOrder streamOrder m_getPasswordCallback fuel earlier device
     = Some (document, reader', device')) /\
  (isOpen device = true -> isReadable device = false ->
   device' = device /\ document = PDFDocument_default /\ m_successfull reader' = false) /\
  (m_successfull reader' = true ->
   (isOpen device = true /\ isReadable device = true /\
    snd (readAll device) = device' /\
    readFromBuffer entryOrder streamOrder m_getPasswordCallback fuel (reset reader)
      (fst (readAll device)) = Some (document, reader')) \/
   (isOpen device = false /\
    exists opened : QIODevice,
      openReadOnly device = (true, opened) /\
      device' = close (snd (readAll opened)) /\
      readFromBuffer entryOrder streamOrder m_getPasswordCallback fuel (reset reader)
        (fst (readAll opened)) = Some (document, reader'))).
Proof.
  intros Hread. split; [|split].
  - intros earlier. rewrite <- Hread. reflexivity.
  - intros Hopen Hreadable.
    destruct (readFromDevice_inv _ _ _ _ _ Hread)
      as [(-> & -> & _ & _ & ->)|[(_ & _ & Hclosed & _)|[(_ & Hr & _)|(Hclosed & _)]]].
    + repeat split; reflexivity.
    + rewrite Hclosed in Hopen. discriminate Hopen.
    + rewrite Hr in Hreadable. discriminate Hreadable.
    + rewrite Hclosed in Hopen. discriminate Hopen.
  - intros Hflag.
    destruct (readFromDevice_inv _ _ _ _ _ Hread)
      as [(_ & _ & _ & _ & ->)|[(_ & _ & _ & ->)|[Hopened|Hclosed]]].
    + discriminate Hflag.
    + discriminate Hflag.
    + left. exact Hopened.
    + right. exact Hclosed.
Qed.

(** X27.  [readFromFile] on a file that does not exist, or that cannot be
    opened, returns the default document and a failed reader, for any
    earlier state of the reader.  When the file exists and opens as a
    device that is open and readable, [readFromFile] is [readFromBuffer]
    on all bytes of the file, started from a reset reader: the device is
    not opened a second time. *)
Theorem readFromFile_outcome (reader : PDFDocumentReader) (fileName : string) :
  (fileExists (QFile fileName) = false ->
   readFromFile entryOrder streamOrder m_getPasswordCallback fuel reader fileName
   = Some (PDFDocument_default, fail (reset reader) (MsgFileDoesNotExist fileName))) /\
  (forall failed : QIODevice,
     fileExists (QFile fileName) = true ->
     openReadOnly (QFile fileName) = (false, failed) ->
     readFromFile entryOrder streamOrder m_getPasswordCallback fuel reader fileName
     = Some (PDFDocument_default,
             fail (reset reader) (MsgFileCannotOpen (errorString failed)))) /\
  (forall opened : QIODevice,
     fileExists (QFile fileName) = true ->
     openReadOnly (QFile fileName) = (true, opened) ->
     isOpen opened = true ->
     isReadable opened = true ->
     readFromFile entryOrder streamOrder m_getPasswordCallback fuel reader fileName
     = readFromBuffer entryOrder streamOrder m_getPasswordCallback fuel (reset reader)
         (fst (readAll opened))).
Proof.
  unfold readFromFile. split; [|split].
  - intros Hexists. rewrite Hexists. reflexivity.
  - intros failed Hexists Hopens. rewrite Hexists, Hopens. reflexivity.
  - intros opened Hexists Hopens Hopen Hreadable. rewrite Hexists, Hopens.
    unfold readFromDevice. rewrite Hopen, Hreadable.
    destruct (readAll opened) as [bytes after]. cbn [fst].
    change (reset (reset reader)) with (reset reader).
    destruct (readFromBuffer _ _ _ _ _ bytes) as [[document reader']|]; reflexivity.
Qed.
End ReadFromDevice_facts.

Lemma readFromDevice_success_witness :
  exists (document : PDFDocument) (reader' : PDFDocumentReader),
    readFromDevice (ossl := Sample.openssl) (defaults := Sample.defaults)
      (collab := Sample.collaborators) (devices := SampleMore.devices)
      sequential sequential Sample.decline 1
      SampleMore.readerAfterFailure SampleMore.closedDevice
    = Some (document, reader', SampleMore.closedDevice) /\
    forall earlier : PDFDocumentReader,
      readFromDevice (ossl := Sample.openssl) (defaults := Sample.defaults)
        (collab := Sample.collaborators) (devices := SampleMore.devices)
        sequential sequential Sample.decline 1
        earlier SampleMore.closedDevice
      = Some (document, reader', SampleMore.closedDevice).
Proof.
  destruct (readFromDevice (ossl := Sample.openssl) (defaults := Sample.defaults)
              (collab := Sample.collaborators) (devices := SampleMore.devices)
              sequential sequential Sample.decline 1
              SampleMore.readerAfterFailure SampleMore.closedDevice)
    as [[[document reader'] device']|] eqn:Hread; [|vm_compute in Hread; discriminate Hread].
  assert (Hdevice : device' = SampleMore.closedDevice).
  { pose proof Hread as Hcopy. vm_compute in Hcopy.
    injection Hcopy as _ _ Hd. rewrite <- Hd. reflexivity. }
  subst device'.
  exists document, reader'. split; [reflexivity|].
  exact (proj1 (readFromDevice_success (ossl := Sample.openssl)
                  (defaults := Sample.defaults) (collab := Sample.collaborators)
                  (devices := SampleMore.devices)
                  sequential sequential Sample.decline 1
                  SampleMore.readerAfterFailure reader'
                  SampleMore.closedDevice SampleMore.closedDevice document Hread)).
Defined.

Lemma readFromFile_outcome_witness :
  readFromFile (ossl := Sample.openssl) (defaults := Sample.defaults)
    (collab := Sample.collaborators) (devices := SampleMore.devices)
    sequential sequential Sample.decline 1
    SampleMore.readerAfterFailure "document.pdf"
  = readFromBuffer (ossl := Sample.openssl) (defaults := Sample.defaults)
      (collab := Sample.collaborators)
      sequential sequential Sample.decline 1
      (reset (devices := SampleMore.devices) SampleMore.readerAfterFailure)
      Sample.corrupted.
Proof.
  exact (proj2 (proj2 (readFromFile_outcome (ossl := Sample.openssl)
                         (defaults := Sample.defaults) (collab := Sample.collaborators)
                         (devices := SampleMore.devices)
                         sequential sequential Sample.decline 1
                         SampleMore.readerAfterFailure "document.pdf"))
           (snd (SampleMore.openDevice
                   (QFile (Devices := SampleMore.devices) "document.pdf")))
           eq_refl eq_refl eq_refl eq_refl).
Defined.

